(** * ghostty-web: theme resolution, frame scheduler and canvas renderer

    A shallow embedding of [lib/theme.ts], [lib/render-scheduler.ts] and the
    canvas renderer, with the properties of the repository's specification
    stated and proved over it.

    Conventions of the embedding.
    - A JavaScript [number] that the code only ever uses as an integer
      (grid coordinates, counts, colour bytes, handles, bit masks) is a [Z].
    - A [number] that can be fractional or non-finite (opacities, alpha,
      device pixel ratio, scrollbar geometry, timestamps) is an IEEE-754
      binary64 value, [spec_float] of the Standard Library, with the
      library's correctly rounded operations at precision 53.
    - A string is a [string]; each [ascii] stands for one code unit below 256.
    - [undefined]/[null] are [None]; an own property of an object literal
      that may be missing, present but [undefined], or present with a value
      is a [prop]. *)

From Stdlib Require Import ZArith String Ascii List Bool Lia SpecFloat.
From stdpp Require Import base option list gmap sets.
Import ListNotations.

Local Open Scope string_scope.
Local Open Scope Z_scope.

(** ** JavaScript numbers *)

Module Num.

Definition number := spec_float.

Definition prec : Z := 53.
Definition emax : Z := 1024.

(** An integer as the nearest binary64 value (exact below 2^53). *)
Definition of_Z (z : Z) : number := binary_normalize prec emax z 0 false.

Definition add : number -> number -> number := SFadd prec emax.
Definition sub : number -> number -> number := SFsub prec emax.
Definition mul : number -> number -> number := SFmul prec emax.
Definition div : number -> number -> number := SFdiv prec emax.

(** [a < b], [a > b], [a <= b], [a >= b]: false as soon as one side is NaN. *)
Definition lt (x y : number) : bool := SFltb x y.
Definition gt (x y : number) : bool := SFltb y x.
Definition le (x y : number) : bool := SFleb x y.
Definition ge (x y : number) : bool := SFleb y x.

(** [Number.isFinite]. *)
Definition isFinite (x : number) : bool :=
  match x with
  | S754_nan | S754_infinity _ => false
  | _ => true
  end.

(** [Math.max] of two arguments: NaN if either is, and +0 above -0. *)
Definition max (x y : number) : number :=
  match SFcompare x y with
  | None => S754_nan
  | Some Lt => y
  | Some Gt => x
  | Some Eq =>
      match x, y with
      | S754_zero true, S754_zero false => y
      | _, _ => x
      end
  end.

Definition zero : number := S754_zero false.
Definition one : number := of_Z 1.

(** [Math.floor] of a finite number, as an integer (0 on the others,
    which the callers below never produce). *)
Definition floor (x : number) : Z :=
  match x with
  | S754_finite s m e =>
      let v := if s then Zneg m else Zpos m in
      if 0 <=? e then v * 2 ^ e else v / 2 ^ (- e)
  | _ => 0
  end.

(** [Math.ceil] of a finite number, as an integer. *)
Definition ceil (x : number) : Z := - floor (SFopp x).

(** A number is falsy when it is a zero or NaN. *)
Definition truthy (x : number) : bool :=
  match x with
  | S754_zero _ | S754_nan => false
  | _ => true
  end.

(** The integer part of a number, rounded toward zero (0 when it is not
    finite). *)
Definition trunc (x : number) : Z :=
  match x with
  | S754_finite s m e =>
      let v := if 0 <=? e then Zpos m * 2 ^ e else Zpos m / 2 ^ (- e) in
      if s then - v else v
  | _ => 0
  end.

End Num.

Export Num(number).

(** ** JavaScript strings *)

Module Str.

(** White space and line terminators among the code units below 256:
    the set matched by [\s] and stripped by [trim] and [parseInt]. *)
Definition isWhiteSpace (c : ascii) : bool :=
  let n := Z.of_nat (nat_of_ascii c) in
  (n =? 9) || (n =? 10) || (n =? 11) || (n =? 12) || (n =? 13)
  || (n =? 32) || (n =? 160).

Definition isDigit (c : ascii) : bool :=
  let n := Z.of_nat (nat_of_ascii c) in (48 <=? n) && (n <=? 57).

(** Value of a digit in the given radix, if it is one. *)
Definition digitValue (radix : Z) (c : ascii) : option Z :=
  let n := Z.of_nat (nat_of_ascii c) in
  let v :=
    if (48 <=? n) && (n <=? 57) then Some (n - 48)
    else if (97 <=? n) && (n <=? 122) then Some (n - 97 + 10)
    else if (65 <=? n) && (n <=? 90) then Some (n - 65 + 10)
    else None in
  match v with
  | Some d => if d <? radix then Some d else None
  | None => None
  end.

Fixpoint skipWhiteSpace (s : string) : string :=
  match s with
  | String c rest => if isWhiteSpace c then skipWhiteSpace rest else s
  | EmptyString => s
  end.

Fixpoint rev_acc (s acc : string) : string :=
  match s with
  | EmptyString => acc
  | String c rest => rev_acc rest (String c acc)
  end.

Definition rev (s : string) : string := rev_acc s EmptyString.

(** [s.trim()]. *)
Definition trim (s : string) : string :=
  rev (skipWhiteSpace (rev (skipWhiteSpace s))).

(** [s.slice(start)] for [0 <= start]. *)
Fixpoint slice_from (start : nat) (s : string) : string :=
  match start, s with
  | O, _ => s
  | S n, String _ rest => slice_from n rest
  | S _, EmptyString => EmptyString
  end.

Fixpoint take (n : nat) (s : string) : string :=
  match n, s with
  | S k, String c rest => String c (take k rest)
  | _, _ => EmptyString
  end.

(** [s.slice(start, stop)] for [0 <= start <= stop]. *)
Definition slice (start stop : nat) (s : string) : string :=
  take (stop - start) (slice_from start s).

(** [s[i]]: the one-character string at index [i], or [undefined]. *)
Definition at_index (i : nat) (s : string) : option string :=
  match String.get i s with
  | Some c => Some (String c EmptyString)
  | None => None
  end.

(** [s[i]] where [i] is in range, as a string. *)
Definition index (i : nat) (s : string) : string :=
  match at_index i s with
  | Some c => c
  | None => EmptyString
  end.

(** [s.startsWith(p)]. *)
Definition startsWith (p s : string) : bool := String.prefix p s.

(** Strip [p] from the front of [s], if it is there. *)
Fixpoint stripPrefix (p s : string) : option string :=
  match p, s with
  | EmptyString, _ => Some s
  | String a p', String c s' =>
      if Ascii.eqb a c then stripPrefix p' s' else None
  | String _ _, EmptyString => None
  end.

(** The longest prefix of digits in [radix], folded into its value;
    also counts the digits read. *)
Fixpoint readDigits (radix : Z) (s : string) (acc : Z) (count : nat)
  : Z * nat * string :=
  match s with
  | String c rest =>
      match digitValue radix c with
      | Some d => readDigits radix rest (acc * radix + d) (S count)
      | None => (acc, count, s)
      end
  | EmptyString => (acc, count, s)
  end.

(** [Number.parseInt(s, radix)] for radix 10 or 16; [None] is NaN.
    Leading white space is skipped, a sign is accepted, with radix 16
    a [0x] prefix is dropped, and what follows the digits is ignored.
    The result is an integer, so it is a [Z]; the sign of a zero result
    is not kept. *)
Definition parseInt (s : string) (radix : Z) : option Z :=
  let s1 := skipWhiteSpace s in
  let '(neg, s2) :=
    match s1 with
    | String "-" rest => (true, rest)
    | String "+" rest => (false, rest)
    | _ => (false, s1)
    end in
  let s3 :=
    if radix =? 16 then
      match s2 with
      | String "0" (String "x" rest) => rest
      | String "0" (String "X" rest) => rest
      | _ => s2
      end
    else s2 in
  let '(v, count, _) := readDigits radix s3 0 O in
  match count with
  | O => None
  | S _ => Some (if neg then - v else v)
  end.

Fixpoint pow10 (n : nat) : positive :=
  match n with
  | O => 1%positive
  | S k => (10 * pow10 k)%positive
  end.

(** [Number.parseFloat(s)] on a string of digits and dots (the only
    strings the colour parser hands it): the longest prefix of the form
    digits, optional dot, digits, with at least one digit, read as a
    decimal and rounded to the nearest binary64 value; NaN otherwise. *)
Definition parseFloat (s : string) : number :=
  let '(ip, ni, s1) := readDigits 10 s 0 O in
  let '(num, nf) :=
    match s1 with
    | String "." rest =>
        let '(v, n, _) := readDigits 10 rest ip O in (v, n)
    | _ => (ip, O)
    end in
  match (ni + nf)%nat with
  | O => S754_nan
  | S _ =>
      match num with
      | Zpos p =>
          SFdiv Num.prec Num.emax
            (S754_finite false p 0)
            (S754_finite false (pow10 nf) 0)
      | _ => S754_zero false
      end
  end.

End Str.

(** ** Theme resolution ([lib/theme.ts]) *)

(** An own property of an object literal: missing, present with the value
    [undefined], or present with a value. *)
Inductive prop (A : Type) : Type :=
  | Absent
  | Undefined
  | Value (v : A).
Arguments Absent {A}.
Arguments Undefined {A}.
Arguments Value {A} v.

(** [o.p] and [o?.p] on an object that is there. *)
Definition prop_get {A} (p : prop A) : option A :=
  match p with
  | Value v => Some v
  | Absent | Undefined => None
  end.

(** The property [p] of [{ ...{p: d}, ...{p} }]: a property that is present
    overrides the default, also when its value is [undefined]. *)
Definition prop_spread {A} (d : A) (p : prop A) : option A :=
  match p with
  | Absent => Some d
  | Undefined => None
  | Value v => Some v
  end.

(** [a ?? b]. *)
Definition nullish {A} (x : option A) (y : option A) : option A :=
  match x with
  | Some v => Some v
  | None => y
  end.

Module RGBA.
Record t := mk { r : Z; g : Z; b : Z; a : number }.
End RGBA.

(** The colour slots of [ITheme] (declared in [lib/interfaces.ts]), with the
    type of a string slot and of the opacity slot left open: [string] and
    [number] for [Required<ITheme>], [prop] of them for [ITheme]. *)
Module ITheme.
Record shape (S N : Type) := mk {
  foreground : S;
  background : S;
  cursor : S;
  cursorAccent : S;
  selectionBackground : S;
  selectionForeground : S;
  selectionOpacity : N;
  black : S;
  red : S;
  green : S;
  yellow : S;
  blue : S;
  magenta : S;
  cyan : S;
  white : S;
  brightBlack : S;
  brightRed : S;
  brightGreen : S;
  brightYellow : S;
  brightBlue : S;
  brightMagenta : S;
  brightCyan : S;
  brightWhite : S
}.
Arguments mk {S N}.
Arguments foreground {S N}.
Arguments background {S N}.
Arguments cursor {S N}.
Arguments cursorAccent {S N}.
Arguments selectionBackground {S N}.
Arguments selectionForeground {S N}.
Arguments selectionOpacity {S N}.
Arguments black {S N}.
Arguments red {S N}.
Arguments green {S N}.
Arguments yellow {S N}.
Arguments blue {S N}.
Arguments magenta {S N}.
Arguments cyan {S N}.
Arguments white {S N}.
Arguments brightBlack {S N}.
Arguments brightRed {S N}.
Arguments brightGreen {S N}.
Arguments brightYellow {S N}.
Arguments brightBlue {S N}.
Arguments brightMagenta {S N}.
Arguments brightCyan {S N}.
Arguments brightWhite {S N}.

(** [ITheme]: every slot optional. *)
Definition t := shape (prop string) (prop number).
(** [Required<ITheme>]. *)
Definition required := shape string number.
(** The type of [{ ...DEFAULT_THEME, ...theme }]. *)
Definition merged := shape (option string) (option number).

(** The object literal [{}]. *)
Definition empty : t :=
  mk Absent Absent Absent Absent Absent Absent Absent
     Absent Absent Absent Absent Absent Absent Absent Absent
     Absent Absent Absent Absent Absent Absent Absent Absent.

(** [{ ...d, ...o }]. *)
Definition spread (d : required) (o : t) : merged :=
  mk (prop_spread (foreground d) (foreground o))
     (prop_spread (background d) (background o))
     (prop_spread (cursor d) (cursor o))
     (prop_spread (cursorAccent d) (cursorAccent o))
     (prop_spread (selectionBackground d) (selectionBackground o))
     (prop_spread (selectionForeground d) (selectionForeground o))
     (prop_spread (selectionOpacity d) (selectionOpacity o))
     (prop_spread (black d) (black o))
     (prop_spread (red d) (red o))
     (prop_spread (green d) (green o))
     (prop_spread (yellow d) (yellow o))
     (prop_spread (blue d) (blue o))
     (prop_spread (magenta d) (magenta o))
     (prop_spread (cyan d) (cyan o))
     (prop_spread (white d) (white o))
     (prop_spread (brightBlack d) (brightBlack o))
     (prop_spread (brightRed d) (brightRed o))
     (prop_spread (brightGreen d) (brightGreen o))
     (prop_spread (brightYellow d) (brightYellow o))
     (prop_spread (brightBlue d) (brightBlue o))
     (prop_spread (brightMagenta d) (brightMagenta o))
     (prop_spread (brightCyan d) (brightCyan o))
     (prop_spread (brightWhite d) (brightWhite o)).
End ITheme.

Module TerminalTheme.
Record t := mk {
  foreground : RGBA.t;
  background : RGBA.t;
  cursor : RGBA.t;
  cursorAccent : RGBA.t;
  selectionBackground : RGBA.t;
  selectionForeground : option RGBA.t;
  selectionOpacity : number
}.
End TerminalTheme.

(** A CSS colour string assigned to [fillStyle] or [strokeStyle], kept as
    the template it is built from: [css_rgb r g b] is the string
    [rgb(r, g, b)], [css_rgba r g b a] is [rgba(r, g, b, a)], and
    [css_text s] is the literal [s]. *)
Inductive Css : Type :=
  | css_rgb (r g b : Z)
  | css_rgba (r g b : Z) (a : number)
  | css_text (s : string).

Module Theme.

Definition DEFAULT_SELECTION_OPACITY : number :=
  Eval vm_compute in Str.parseFloat "0.4".

Definition DEFAULT_THEME : ITheme.required :=
  {| ITheme.foreground := "#d4d4d4";
     ITheme.background := "#1e1e1e";
     ITheme.cursor := "#ffffff";
     ITheme.cursorAccent := "#1e1e1e";
     ITheme.selectionBackground := "#d4d4d4";
     ITheme.selectionForeground := "#1e1e1e";
     ITheme.selectionOpacity := DEFAULT_SELECTION_OPACITY;
     ITheme.black := "#000000";
     ITheme.red := "#cd3131";
     ITheme.green := "#0dbc79";
     ITheme.yellow := "#e5e510";
     ITheme.blue := "#2472c8";
     ITheme.magenta := "#bc3fbc";
     ITheme.cyan := "#11a8cd";
     ITheme.white := "#e5e5e5";
     ITheme.brightBlack := "#666666";
     ITheme.brightRed := "#f14c4c";
     ITheme.brightGreen := "#23d18b";
     ITheme.brightYellow := "#f5f543";
     ITheme.brightBlue := "#3b8eea";
     ITheme.brightMagenta := "#d670d6";
     ITheme.brightCyan := "#29b8db";
     ITheme.brightWhite := "#ffffff" |}.

(** [value] is [NaN] when [None]; it is never infinite here. *)
Definition clampByte (value : option Z) : Z :=
  match value with
  | None => 0
  | Some v => if v <? 0 then 0 else if 255 <? v then 255 else v
  end.

Definition clampAlpha (value : number) : number :=
  if negb (Num.isFinite value) then Num.one
  else if Num.lt value Num.zero then Num.zero
  else if Num.gt value Num.one then Num.one
  else value.

Definition normalizeOpacity (value : option number) : number :=
  match value with
  | None => DEFAULT_SELECTION_OPACITY
  | Some v =>
      if negb (Num.isFinite v) then DEFAULT_SELECTION_OPACITY
      else clampAlpha v
  end.

Definition rgbaToCss (color : RGBA.t) : Css :=
  let a := clampAlpha (RGBA.a color) in
  if Num.ge a Num.one then css_rgb (RGBA.r color) (RGBA.g color) (RGBA.b color)
  else css_rgba (RGBA.r color) (RGBA.g color) (RGBA.b color) a.

Definition parseHexColor (value : string) : option RGBA.t :=
  let hex := Str.trim (Str.slice_from 1 value) in
  let len := String.length hex in
  if negb (existsb (Nat.eqb len) [3; 4; 6; 8]%nat) then None
  else
    let expand (h : string) := h ++ h in
    let '(r, g, b, a) :=
      if (len =? 3)%nat || (len =? 4)%nat then
        (expand (Str.index 0 hex), expand (Str.index 1 hex),
         expand (Str.index 2 hex),
         if (len =? 4)%nat then expand (Str.index 3 hex) else "ff")
      else
        (Str.slice 0 2 hex, Str.slice 2 4 hex, Str.slice 4 6 hex,
         if (len =? 8)%nat then Str.slice 6 8 hex else "ff") in
    let ri := Str.parseInt r 16 in
    let gi := Str.parseInt g 16 in
    let bi := Str.parseInt b 16 in
    let ai := Str.parseInt a 16 in
    match ri, gi, bi, ai with
    | Some _, Some _, Some _, Some av =>
        Some {| RGBA.r := clampByte ri;
                RGBA.g := clampByte gi;
                RGBA.b := clampByte bi;
                RGBA.a := clampAlpha (Num.div (Num.of_Z av) (Num.of_Z 255)) |}
    | _, _, _, _ => None
    end.

(** [\d{1,3}], greedy: one to three digits and what follows them. *)
Definition digits13 (s : string) : option (string * string) :=
  match s with
  | String c1 (String c2 (String c3 rest)) =>
      if Str.isDigit c1 then
        if Str.isDigit c2 then
          if Str.isDigit c3 then Some (Str.take 3 s, rest)
          else Some (Str.take 2 s, String c3 rest)
        else Some (Str.take 1 s, String c2 (String c3 rest))
      else None
  | String c1 (String c2 EmptyString) =>
      if Str.isDigit c1 then
        if Str.isDigit c2 then Some (s, EmptyString)
        else Some (Str.take 1 s, String c2 EmptyString)
      else None
  | String c1 EmptyString =>
      if Str.isDigit c1 then Some (s, EmptyString) else None
  | EmptyString => None
  end.

(** The longest prefix matched by [[0-9.]*] and what follows it. *)
Fixpoint digitsAndDots (s : string) : string * string :=
  match s with
  | String c rest =>
      if Str.isDigit c || Ascii.eqb c "." then
        let '(m, tl) := digitsAndDots rest in (String c m, tl)
      else (EmptyString, s)
  | EmptyString => (EmptyString, EmptyString)
  end.

(** A literal character of the pattern. *)
Definition expect (c : ascii) (s : string) : option string :=
  match s with
  | String c' rest => if Ascii.eqb c c' then Some rest else None
  | EmptyString => None
  end.

(** White space, [\d{1,3}], white space: one colour component and what
    follows it. *)
Definition component (s : string) : option (string * string) :=
  match digits13 (Str.skipWhiteSpace s) with
  | Some (d, rest) => Some (d, Str.skipWhiteSpace rest)
  | None => None
  end.

(** The capture groups 1 to 4 of the pattern of [parseColor] on [value],
    or [None] when it does not match. With [W] for a run of white space
    (possibly empty), the pattern is: start of input, [rgb], an optional
    [a], an opening parenthesis, then [W \d{1,3} W] three times separated
    by commas (groups 1 to 3), then optionally a comma and [W [0-9.]+ W]
    (group 4), a closing parenthesis, end of input. The character classes
    that follow one another are disjoint, so the greedy reading below is
    the only way the pattern can match. *)
Definition rgbMatch (value : string)
  : option (string * string * string * option string) :=
  s0 ← Str.stripPrefix "rgb" value;
  let s1 := match s0 with String "a" rest => rest | _ => s0 end in
  s2 ← expect "(" s1;
  '(m1, s3) ← component s2;
  s4 ← expect "," s3;
  '(m2, s5) ← component s4;
  s6 ← expect "," s5;
  '(m3, s7) ← component s6;
  '(m4, s8) ←
    match s7 with
    | String "," rest =>
        let '(m, tl) := digitsAndDots (Str.skipWhiteSpace rest) in
        match m with
        | EmptyString => None
        | _ => Some (Some m, Str.skipWhiteSpace tl)
        end
    | _ => Some (None, s7)
    end;
  match s8 with
  | String ")" EmptyString => Some (m1, m2, m3, m4)
  | _ => None
  end.

Definition parseColor (value : option string) : option RGBA.t :=
  match value with
  | None | Some EmptyString => None
  | Some value =>
      if Str.startsWith "#" value then parseHexColor value
      else
        match rgbMatch value with
        | Some (m1, m2, m3, m4) =>
            let r := clampByte (Str.parseInt m1 10) in
            let g := clampByte (Str.parseInt m2 10) in
            let b := clampByte (Str.parseInt m3 10) in
            let a :=
              match m4 with
              | Some m => clampAlpha (Str.parseFloat m)
              | None => Num.one
              end in
            Some {| RGBA.r := r; RGBA.g := g; RGBA.b := b; RGBA.a := a |}
        | None => None
        end
  end.

Definition resolveColor (value : option string) (fallback : string) : RGBA.t :=
  match parseColor value with
  | Some c => c
  | None =>
      match parseColor (Some fallback) with
      | Some c => c
      | None => {| RGBA.r := 0; RGBA.g := 0; RGBA.b := 0; RGBA.a := Num.one |}
      end
  end.

Definition resolveOptionalColor (value : option string) : option RGBA.t :=
  match value with
  | None | Some EmptyString => None
  | Some v => if String.eqb v "undefined" then None else parseColor value
  end.

Definition resolveTheme (theme : option ITheme.t) : TerminalTheme.t :=
  let merged :=
    ITheme.spread DEFAULT_THEME
      (match theme with Some t => t | None => ITheme.empty end) in
  let selectionOpacity :=
    normalizeOpacity (t ← theme; prop_get (ITheme.selectionOpacity t)) in
  {| TerminalTheme.foreground :=
       resolveColor (ITheme.foreground merged) (ITheme.foreground DEFAULT_THEME);
     TerminalTheme.background :=
       resolveColor (ITheme.background merged) (ITheme.background DEFAULT_THEME);
     TerminalTheme.cursor :=
       resolveColor (ITheme.cursor merged) (ITheme.cursor DEFAULT_THEME);
     TerminalTheme.cursorAccent :=
       resolveColor (ITheme.cursorAccent merged)
         (ITheme.cursorAccent DEFAULT_THEME);
     TerminalTheme.selectionBackground :=
       resolveColor (ITheme.selectionBackground merged)
         (ITheme.selectionBackground DEFAULT_THEME);
     TerminalTheme.selectionForeground :=
       resolveOptionalColor
         (nullish (t ← theme; prop_get (ITheme.selectionForeground t))
                  (ITheme.selectionForeground merged));
     TerminalTheme.selectionOpacity := selectionOpacity |}.

End Theme.

(** ** Frame scheduler ([lib/render-scheduler.ts]) *)

(** A JavaScript [Map] with number keys: entries in insertion order. *)
Module JsMap.
Section WithValue.
Context {V : Type}.

Definition t := list (Z * V).

(** [m.set(k, v)]: an existing key keeps its position. *)
Fixpoint set (k : Z) (v : V) (m : t) : t :=
  match m with
  | [] => [(k, v)]
  | (k', v') :: rest =>
      if k =? k' then (k, v) :: rest else (k', v') :: set k v rest
  end.

(** [m.delete(k)]. *)
Definition delete (k : Z) (m : t) : t :=
  List.filter (fun kv => negb (fst kv =? k)) m.

(** [Array.from(m.values())]. *)
Definition values (m : t) : list V := List.map snd m.

Definition keys (m : t) : list Z := List.map fst m.

(** [m.size]. *)
Definition size (m : t) : Z := Z.of_nat (List.length m).
End WithValue.
Arguments t : clear implicits.
End JsMap.

Module Scheduler.
Section RenderScheduler.

(** Render callbacks are closures of the caller. [CB] names them, and
    [body c now scheduledAt] is what callback [c] does with the scheduler
    when it is invoked: a sequence of [schedule] and [cancel] calls on it,
    each [schedule] handing its handle to what follows. *)
Variable CB : Type.

Inductive Prog : Type :=
  | Done
  | Schedule (callback : CB) (scheduledAt : option number) (k : Z -> Prog)
  | Cancel (id : Z) (k : Prog).

Variable body : CB -> number -> option number -> Prog.

Record PendingRender := { callback : CB; scheduledAt : option number }.

(** The scheduler object, together with what it touches outside itself:
    the animation-frame requests of the window that are still
    outstanding ([requests], by handle) and the counter the window
    draws handles from; [invoked] and [flushes] record, in order, the
    callback invocations made so far and the number of [flush] calls. *)
Record RenderScheduler := mk {
  pending : JsMap.t PendingRender;
  nextId : Z;
  rafId : option Z;
  requests : list Z;
  nextHandle : Z;
  invoked : list (CB * number * option number);
  flushes : nat
}.

Definition set_pending (p : JsMap.t PendingRender) (s : RenderScheduler) :=
  mk p (nextId s) (rafId s) (requests s) (nextHandle s) (invoked s) (flushes s).
Definition set_nextId (n : Z) (s : RenderScheduler) :=
  mk (pending s) n (rafId s) (requests s) (nextHandle s) (invoked s) (flushes s).
Definition set_rafId (r : option Z) (s : RenderScheduler) :=
  mk (pending s) (nextId s) r (requests s) (nextHandle s) (invoked s) (flushes s).

(** [new RenderScheduler()] in a window whose next handle is [h]. *)
Definition new (h : Z) : RenderScheduler :=
  mk [] 1 None [] h [] 0.

(** [requestAnimationFrame((now) => this.flush(now))]. *)
Definition requestAnimationFrame (s : RenderScheduler) : Z * RenderScheduler :=
  let h := nextHandle s in
  (h, mk (pending s) (nextId s) (rafId s) (requests s ++ [h]) (h + 1)
         (invoked s) (flushes s)).

Definition ensureRaf (s : RenderScheduler) : RenderScheduler :=
  match rafId s with
  | Some _ => s
  | None =>
      let '(h, s') := requestAnimationFrame s in
      set_rafId (Some h) s'
  end.

Definition schedule (cb : CB) (at_ : option number) (s : RenderScheduler)
  : Z * RenderScheduler :=
  let id := nextId s in
  let s := set_nextId (id + 1) s in
  let s := set_pending
             (JsMap.set id {| callback := cb; scheduledAt := at_ |} (pending s)) s in
  let s := ensureRaf s in
  (id, s).

Definition cancel (id : Z) (s : RenderScheduler) : RenderScheduler :=
  set_pending (JsMap.delete id (pending s)) s.

(** What a callback does while it runs. *)
Fixpoint exec (p : Prog) (s : RenderScheduler) : RenderScheduler :=
  match p with
  | Done => s
  | Schedule cb at_ k =>
      let '(id, s') := schedule cb at_ s in exec (k id) s'
  | Cancel id k => exec k (cancel id s)
  end.

(** [entry.callback(now, entry.scheduledAt)]. *)
Definition invoke (now : number) (s : RenderScheduler) (entry : PendingRender)
  : RenderScheduler :=
  let s := mk (pending s) (nextId s) (rafId s) (requests s) (nextHandle s)
              (invoked s ++ [(callback entry, now, scheduledAt entry)])
              (flushes s) in
  exec (body (callback entry) now (scheduledAt entry)) s.

Definition flush (now : number) (s : RenderScheduler) : RenderScheduler :=
  let s := mk (pending s) (nextId s) (rafId s) (requests s) (nextHandle s)
              (invoked s) (S (flushes s)) in
  let s := set_rafId None s in
  if JsMap.size (pending s) =? 0 then s
  else
    let entries := JsMap.values (pending s) in
    let s := set_pending [] s in
    let s := fold_left (invoke now) entries s in
    if JsMap.size (pending s) >? 0 then ensureRaf s else s.

(** A display-refresh boundary at time [now]: the window runs the
    animation-frame callbacks that are outstanding when it starts, each
    of them [(now) => this.flush(now)]; requests made meanwhile wait for
    the next boundary. *)
Definition boundary (now : number) (s : RenderScheduler) : RenderScheduler :=
  let hs := requests s in
  let s := mk (pending s) (nextId s) (rafId s) [] (nextHandle s)
              (invoked s) (flushes s) in
  fold_left (fun s _ => flush now s) hs s.

(** Calls made on the scheduler from outside a flush. *)
Inductive Call : Type :=
  | CallSchedule (cb : CB) (at_ : option number)
  | CallCancel (id : Z).

Definition call (s : RenderScheduler) (c : Call) : RenderScheduler :=
  match c with
  | CallSchedule cb at_ => snd (schedule cb at_ s)
  | CallCancel id => cancel id s
  end.

Definition calls (cs : list Call) (s : RenderScheduler) : RenderScheduler :=
  fold_left call cs s.

End RenderScheduler.

Arguments Done {CB}.
Arguments Schedule {CB} callback scheduledAt k.
Arguments Cancel {CB} id k.
Arguments callback {CB} p.
Arguments scheduledAt {CB} p.
Arguments Build_PendingRender {CB} callback scheduledAt.
Arguments mk {CB}.
Arguments pending {CB} r.
Arguments nextId {CB} r.
Arguments rafId {CB} r.
Arguments requests {CB} r.
Arguments nextHandle {CB} r.
Arguments invoked {CB} r.
Arguments flushes {CB} r.
Arguments set_pending {CB} p s.
Arguments set_nextId {CB} n s.
Arguments set_rafId {CB} r s.
Arguments new {CB} h.
Arguments requestAnimationFrame {CB} s.
Arguments ensureRaf {CB} s.
Arguments schedule {CB} cb at_ s.
Arguments cancel {CB} id s.
Arguments exec {CB} p s.
Arguments invoke {CB} body now s entry.
Arguments flush {CB} body now s.
Arguments boundary {CB} body now s.
Arguments CallSchedule {CB} cb at_.
Arguments CallCancel {CB} id.
Arguments call {CB} s c.
Arguments calls {CB} cs s.
End Scheduler.

(** ** Renderer data types ([lib/renderer-types.ts], [lib/types.ts]) *)

Module CellMetrics.
Record t := mk { width : Z; height : Z; baseline : Z }.
End CellMetrics.

Inductive CursorStyle : Type := block | underline | bar.

Module SelectionRange.
Record t := mk { startCol : Z; startRow : Z; endCol : Z; endRow : Z }.
End SelectionRange.

Module LinkRange.
Record t := mk { startX : Z; startY : Z; endX : Z; endY : Z }.
End LinkRange.

Module HyperlinkRange.
Record t := mk { hyperlinkId : Z; range : option LinkRange.t }.
End HyperlinkRange.

Definition ROW_DIRTY : Z := 1.
Definition ROW_HAS_SELECTION : Z := 2.
Definition ROW_HAS_HYPERLINK : Z := 4.

(** The fields of a cell that the renderer reads. [codepoint] is a Unicode
    code point or 0, as the terminal engine produces it. *)
Module GhosttyCell.
Record t := mk {
  codepoint : Z;
  fg_r : Z; fg_g : Z; fg_b : Z;
  bg_r : Z; bg_g : Z; bg_b : Z;
  flags : Z;
  width : Z;
  hyperlink_id : Z;
  grapheme_len : Z
}.
End GhosttyCell.

(** The members of the [CellFlags] enum of [lib/types.ts] that the renderer
    tests: bit masks, whose values that file fixes. *)
Module CellFlags.
Record t := mk {
  BOLD : Z;
  ITALIC : Z;
  UNDERLINE : Z;
  STRIKETHROUGH : Z;
  INVERSE : Z;
  INVISIBLE : Z;
  FAINT : Z
}.
End CellFlags.

Module RenderInput.
Record t := mk {
  cols : Z;
  rows : Z;
  viewportCells : list GhosttyCell.t;
  rowFlags : list Z;
  dirtyState : Z;
  selectionRange : option SelectionRange.t;
  hoveredLink : option HyperlinkRange.t;
  cursorX : Z;
  cursorY : Z;
  cursorVisible : bool;
  cursorStyle : CursorStyle;
  getGraphemeString : Z -> Z -> string;
  theme : TerminalTheme.t;
  viewportY : number;
  scrollbackLength : Z;
  scrollbarOpacity : number
}.
End RenderInput.

(** ** The drawing surface

    The 2D context keeps the drawing state the renderer assigns, and
    [painted] lists, oldest first, what has reached the bitmap, each entry
    with the state it was painted under. *)

(** The value of [ctx.font], [`${style}${size}px ${family}`]. *)
Record Font := { font_style : string; font_size : number; font_family : string }.

(** The text handed to [fillText]: [String.fromCodePoint(cp)], or a string
    of the grapheme lookup. *)
Inductive Text : Type :=
  | fromCodePoint (cp : Z)
  | grapheme (s : string).

Inductive PathSeg : Type :=
  | MoveTo (x y : number)
  | LineTo (x y : number).

Inductive Paint : Type :=
  | FillRect (style : Css) (alpha : number) (x y w h : number)
  | FillText (style : Css) (alpha : number) (font : Font) (text : Text)
             (x y : number)
  | Stroke (style : Css) (alpha : number) (lineWidth : number)
           (path : list PathSeg)
  | ResetBitmap.

Module Ctx2D.
Record t := mk {
  fillStyle : Css;
  strokeStyle : Css;
  globalAlpha : number;
  font : Font;
  lineWidth : number;
  textBaseline : string;
  textAlign : string;
  scaling : number * number;
  path : list PathSeg;
  painted : list Paint
}.

Definition set_fillStyle v c :=
  mk v (strokeStyle c) (globalAlpha c) (font c) (lineWidth c)
     (textBaseline c) (textAlign c) (scaling c) (path c) (painted c).
Definition set_strokeStyle v c :=
  mk (fillStyle c) v (globalAlpha c) (font c) (lineWidth c)
     (textBaseline c) (textAlign c) (scaling c) (path c) (painted c).
Definition set_globalAlpha v c :=
  mk (fillStyle c) (strokeStyle c) v (font c) (lineWidth c)
     (textBaseline c) (textAlign c) (scaling c) (path c) (painted c).
Definition set_font v c :=
  mk (fillStyle c) (strokeStyle c) (globalAlpha c) v (lineWidth c)
     (textBaseline c) (textAlign c) (scaling c) (path c) (painted c).
Definition set_lineWidth v c :=
  mk (fillStyle c) (strokeStyle c) (globalAlpha c) (font c) v
     (textBaseline c) (textAlign c) (scaling c) (path c) (painted c).
Definition set_textBaseline v c :=
  mk (fillStyle c) (strokeStyle c) (globalAlpha c) (font c) (lineWidth c)
     v (textAlign c) (scaling c) (path c) (painted c).
Definition set_textAlign v c :=
  mk (fillStyle c) (strokeStyle c) (globalAlpha c) (font c) (lineWidth c)
     (textBaseline c) v (scaling c) (path c) (painted c).
Definition set_path v c :=
  mk (fillStyle c) (strokeStyle c) (globalAlpha c) (font c) (lineWidth c)
     (textBaseline c) (textAlign c) (scaling c) v (painted c).
Definition paint (p : Paint) c :=
  mk (fillStyle c) (strokeStyle c) (globalAlpha c) (font c) (lineWidth c)
     (textBaseline c) (textAlign c) (scaling c) (path c) (painted c ++ [p]).

(** [ctx.scale(sx, sy)]. *)
Definition scale (sx sy : number) c :=
  mk (fillStyle c) (strokeStyle c) (globalAlpha c) (font c) (lineWidth c)
     (textBaseline c) (textAlign c)
     (Num.mul (fst (scaling c)) sx, Num.mul (snd (scaling c)) sy)
     (path c) (painted c).

Definition fillRect (x y w h : number) c :=
  paint (FillRect (fillStyle c) (globalAlpha c) x y w h) c.
Definition fillText (text : Text) (x y : number) c :=
  paint (FillText (fillStyle c) (globalAlpha c) (font c) text x y) c.
Definition beginPath c := set_path [] c.
Definition moveTo (x y : number) c := set_path (path c ++ [MoveTo x y]) c.
Definition lineTo (x y : number) c := set_path (path c ++ [LineTo x y]) c.
Definition stroke c :=
  paint (Stroke (strokeStyle c) (globalAlpha c) (lineWidth c) (path c)) c.

(** Assigning [canvas.width] or [canvas.height] resets the context to its
    default state and clears the bitmap. *)
Definition reset c :=
  mk (css_text "#000000") (css_text "#000000") Num.one
     {| font_style := ""; font_size := Num.of_Z 10;
        font_family := "sans-serif" |}
     Num.one "alphabetic" "start" (Num.one, Num.one) []
     (painted c ++ [ResetBitmap]).
End Ctx2D.

Module HTMLCanvasElement.
(** [style_width] and [style_height] hold the pixel count [n] of the
    assigned string [`${n}px`]; [context2d] is what [getContext("2d")]
    returns, [None] when the browser has no 2D context to give. *)
Record t := mk {
  width : Z;
  height : Z;
  style_width : Z;
  style_height : Z;
  context2d : option Ctx2D.t
}.

(** The value a number takes when it is assigned to the [width] or
    [height] attribute: converted to an unsigned 32-bit integer, and the
    attribute's default when that is out of the attribute's range. *)
Definition dimension (default : Z) (v : number) : Z :=
  let n := Num.trunc v mod 2 ^ 32 in
  if n <=? 2147483647 then n else default.
End HTMLCanvasElement.

(** ** The canvas renderer *)

Module CanvasRenderer.

Record RendererOptions := {
  opt_fontSize : option number;
  opt_fontFamily : option string;
  opt_theme : option ITheme.t;
  opt_devicePixelRatio : option number
}.

(** The fields of the object. *)
Record t := mk {
  canvas : option HTMLCanvasElement.t;
  ctx : option Ctx2D.t;
  fontSize : number;
  fontFamily : string;
  theme : TerminalTheme.t;
  devicePixelRatio : number;
  metrics : CellMetrics.t;
  currentSelectionRange : option SelectionRange.t;
  currentHoveredLink : option HyperlinkRange.t;
  currentGetGraphemeString : option (Z -> Z -> string)
}.

Definition set_canvas v this :=
  mk v (ctx this) (fontSize this) (fontFamily this) (theme this)
     (devicePixelRatio this) (metrics this) (currentSelectionRange this)
     (currentHoveredLink this) (currentGetGraphemeString this).
Definition set_ctx v this :=
  mk (canvas this) v (fontSize this) (fontFamily this) (theme this)
     (devicePixelRatio this) (metrics this) (currentSelectionRange this)
     (currentHoveredLink this) (currentGetGraphemeString this).
Definition set_fontSize v this :=
  mk (canvas this) (ctx this) v (fontFamily this) (theme this)
     (devicePixelRatio this) (metrics this) (currentSelectionRange this)
     (currentHoveredLink this) (currentGetGraphemeString this).
Definition set_fontFamily v this :=
  mk (canvas this) (ctx this) (fontSize this) v (theme this)
     (devicePixelRatio this) (metrics this) (currentSelectionRange this)
     (currentHoveredLink this) (currentGetGraphemeString this).
Definition set_theme v this :=
  mk (canvas this) (ctx this) (fontSize this) (fontFamily this) v
     (devicePixelRatio this) (metrics this) (currentSelectionRange this)
     (currentHoveredLink this) (currentGetGraphemeString this).
Definition set_metrics v this :=
  mk (canvas this) (ctx this) (fontSize this) (fontFamily this) (theme this)
     (devicePixelRatio this) v (currentSelectionRange this)
     (currentHoveredLink this) (currentGetGraphemeString this).
Definition set_currentSelectionRange v this :=
  mk (canvas this) (ctx this) (fontSize this) (fontFamily this) (theme this)
     (devicePixelRatio this) (metrics this) v
     (currentHoveredLink this) (currentGetGraphemeString this).
Definition set_currentHoveredLink v this :=
  mk (canvas this) (ctx this) (fontSize this) (fontFamily this) (theme this)
     (devicePixelRatio this) (metrics this) (currentSelectionRange this)
     v (currentGetGraphemeString this).
Definition set_currentGetGraphemeString v this :=
  mk (canvas this) (ctx this) (fontSize this) (fontFamily this) (theme this)
     (devicePixelRatio this) (metrics this) (currentSelectionRange this)
     (currentHoveredLink this) v.

(** *** Methods as state transformers that may throw *)

Inductive Error : Type := mkError (message : string).

Inductive result (A : Type) : Type :=
  | Ok (a : A)
  | Throw (e : Error).
Arguments Ok {A} a.
Arguments Throw {A} e.

(** A method body: from the object before to the outcome and the object
    after. What was done before a [throw] stays done. *)
Definition M (A : Type) : Type := t -> result A * t.

Definition ret {A} (a : A) : M A := fun this => (Ok a, this).

Definition bind {A B} (m : M A) (k : A -> M B) : M B :=
  fun this =>
    match m this with
    | (Ok a, this') => k a this'
    | (Throw e, this') => (Throw e, this')
    end.

Definition throw {A} (e : Error) : M A := fun this => (Throw e, this).

(** Read the object. *)
Definition gets {A} (f : t -> A) : M A := fun this => (Ok (f this), this).

(** Assign to the object. *)
Definition modify (f : t -> t) : M unit := fun this => (Ok tt, f this).

Declare Scope js_scope.
Delimit Scope js_scope with js.
Notation "x <- c1 ;; c2" := (bind c1 (fun x => c2))
  (at level 100, c1 at next level, right associativity) : js_scope.
Notation "c1 ;; c2" := (bind c1 (fun _ => c2))
  (at level 100, right associativity) : js_scope.
Local Open Scope js_scope.

(** [for (const a of l) f(a)]. *)
Fixpoint for_each {A} (l : list A) (f : A -> M unit) : M unit :=
  match l with
  | [] => ret tt
  | a :: rest => f a ;; for_each rest f
  end.

(** [for (let i = 0; i < n; i++) f(i)]. *)
Definition for_range (n : Z) (f : Z -> M unit) : M unit :=
  for_each (seqZ 0 n) f.

(** [l[i]], [undefined] out of range. *)
Definition nth_Z {A} (l : list A) (i : Z) : option A :=
  if i <? 0 then None else l !! Z.to_nat i.

(** A call on the attached context. *)
Definition on_ctx (f : Ctx2D.t -> Ctx2D.t) : M unit :=
  modify (fun this => set_ctx (f <$> ctx this) this).

(** [x & mask] is truthy. *)
Definition has (x mask : Z) : bool := negb (Z.land x mask =? 0).

Definition not_attached : Error :=
  mkError "CanvasRenderer is not attached to a canvas".

Definition rgbToCSS (r g b : Z) : Css := css_rgb r g b.

Definition requireContext : M unit :=
  fun this =>
    match ctx this, canvas this with
    | Some _, Some _ => (Ok tt, this)
    | _, _ => (Throw not_attached, this)
    end.

Definition requireCanvas : M HTMLCanvasElement.t :=
  fun this =>
    match canvas this with
    | Some c => (Ok c, this)
    | None => (Throw not_attached, this)
    end.

Definition attach (canvas : HTMLCanvasElement.t) : M unit :=
  modify (set_canvas (Some canvas)) ;;
  match HTMLCanvasElement.context2d canvas with
  | None => throw (mkError "Failed to get 2D rendering context")
  | Some c => modify (set_ctx (Some c))
  end.

(** Assignments to the attached canvas element. *)
Definition on_canvas (f : HTMLCanvasElement.t -> HTMLCanvasElement.t) : M unit :=
  modify (fun this => set_canvas (f <$> canvas this) this).

Definition set_style (w h : Z) (c : HTMLCanvasElement.t) :=
  HTMLCanvasElement.mk (HTMLCanvasElement.width c) (HTMLCanvasElement.height c)
    w h (HTMLCanvasElement.context2d c).
Definition set_width (w : Z) (c : HTMLCanvasElement.t) :=
  HTMLCanvasElement.mk w (HTMLCanvasElement.height c)
    (HTMLCanvasElement.style_width c) (HTMLCanvasElement.style_height c)
    (HTMLCanvasElement.context2d c).
Definition set_height (h : Z) (c : HTMLCanvasElement.t) :=
  HTMLCanvasElement.mk (HTMLCanvasElement.width c) h
    (HTMLCanvasElement.style_width c) (HTMLCanvasElement.style_height c)
    (HTMLCanvasElement.context2d c).

Definition resize (cols rows : Z) : M unit :=
  _ <- requireCanvas ;;
  requireContext ;;
  m <- gets metrics ;;
  dpr <- gets devicePixelRatio ;;
  let cssWidth := cols * CellMetrics.width m in
  let cssHeight := rows * CellMetrics.height m in
  on_canvas (set_style cssWidth cssHeight) ;;
  on_canvas (set_width
    (HTMLCanvasElement.dimension 300 (Num.mul (Num.of_Z cssWidth) dpr))) ;;
  on_ctx Ctx2D.reset ;;
  on_canvas (set_height
    (HTMLCanvasElement.dimension 150 (Num.mul (Num.of_Z cssHeight) dpr))) ;;
  on_ctx Ctx2D.reset ;;
  on_ctx (Ctx2D.scale dpr dpr) ;;
  on_ctx (Ctx2D.set_textBaseline "alphabetic") ;;
  on_ctx (Ctx2D.set_textAlign "left") ;;
  th <- gets theme ;;
  on_ctx (Ctx2D.set_fillStyle (Theme.rgbaToCss (TerminalTheme.background th))) ;;
  on_ctx (Ctx2D.fillRect Num.zero Num.zero (Num.of_Z cssWidth) (Num.of_Z cssHeight)).

Definition isInSelection (this : t) (x y : Z) : bool :=
  match currentSelectionRange this with
  | None => false
  | Some sel =>
      let startCol := SelectionRange.startCol sel in
      let startRow := SelectionRange.startRow sel in
      let endCol := SelectionRange.endCol sel in
      let endRow := SelectionRange.endRow sel in
      if startRow =? endRow then
        (y =? startRow) && (x >=? startCol) && (x <=? endCol)
      else if y =? startRow then x >=? startCol
      else if y =? endRow then x <=? endCol
      else if (y >? startRow) && (y <? endRow) then true
      else false
  end.

Definition getMetrics : M CellMetrics.t := gets metrics.
Definition getCanvas : M HTMLCanvasElement.t := requireCanvas.
Definition charWidth : M Z := gets (fun this => CellMetrics.width (metrics this)).
Definition charHeight : M Z := gets (fun this => CellMetrics.height (metrics this)).
Definition updateTheme (th : TerminalTheme.t) : M unit := modify (set_theme th).
Definition setTheme (th : ITheme.t) : M unit :=
  modify (set_theme (Theme.resolveTheme (Some th))).
Definition dispose : M unit := ret tt.

Definition clear : M unit :=
  requireContext ;;
  canvas <- requireCanvas ;;
  th <- gets theme ;;
  on_ctx (Ctx2D.set_fillStyle (Theme.rgbaToCss (TerminalTheme.background th))) ;;
  on_ctx (Ctx2D.fillRect Num.zero Num.zero
            (Num.of_Z (HTMLCanvasElement.width canvas))
            (Num.of_Z (HTMLCanvasElement.height canvas))).

(** *** Painting *)

(** What [ctx.measureText("M")] reports. *)
Record TextMetrics := {
  tm_width : number;
  actualBoundingBoxAscent : number;
  actualBoundingBoxDescent : number
}.

Definition c_0_8 : number := Eval vm_compute in Str.parseFloat "0.8".
Definition c_0_2 : number := Eval vm_compute in Str.parseFloat "0.2".
Definition c_0_15 : number := Eval vm_compute in Str.parseFloat "0.15".
Definition c_0_1 : number := Eval vm_compute in Str.parseFloat "0.1".
Definition c_0_3 : number := Eval vm_compute in Str.parseFloat "0.3".
Definition c_0_5 : number := Eval vm_compute in Str.parseFloat "0.5".

Section Methods.

(** The values of the [CellFlags] members and of [DirtyState.FULL]
    ([lib/types.ts]), and the text measurement of the browser on an
    offscreen canvas, for a font given by size and family. *)
Variable CellFlags : CellFlags.t.
Variable DirtyState_FULL : Z.
Variable measureText : number -> string -> TextMetrics.

(** The measurements are finite, so the rounded metrics are integers. *)
Definition measureFont (this : t) : CellMetrics.t :=
  let widthMetrics := measureText (fontSize this) (fontFamily this) in
  let width := Num.ceil (tm_width widthMetrics) in
  let ascent :=
    if Num.truthy (actualBoundingBoxAscent widthMetrics)
    then actualBoundingBoxAscent widthMetrics
    else Num.mul (fontSize this) c_0_8 in
  let descent :=
    if Num.truthy (actualBoundingBoxDescent widthMetrics)
    then actualBoundingBoxDescent widthMetrics
    else Num.mul (fontSize this) c_0_2 in
  let height := Num.ceil (Num.add ascent descent) + 2 in
  let baseline := Num.ceil ascent + 1 in
  {| CellMetrics.width := width; CellMetrics.height := height;
     CellMetrics.baseline := baseline |}.

Definition remeasureFont : M unit :=
  modify (fun this => set_metrics (measureFont this) this).

Definition setFontSize (size : number) : M unit :=
  modify (set_fontSize size) ;;
  modify (fun this => set_metrics (measureFont this) this).

Definition setFontFamily (family : string) : M unit :=
  modify (set_fontFamily family) ;;
  modify (fun this => set_metrics (measureFont this) this).

(** [new CanvasRenderer(canvasOrOptions, options)]; [windowDpr] is
    [window.devicePixelRatio] where there is a window that has one. *)
Definition constructor
    (canvasOrOptions : option (HTMLCanvasElement.t + RendererOptions))
    (options : RendererOptions) (windowDpr : option number)
  : result unit * t :=
  let '(canvas, resolvedOptions) :=
    match canvasOrOptions with
    | Some (inl c) => (Some c, options)
    | Some (inr o) => (None, o)
    | None => (None, options)
    end in
  let defaultDpr := default Num.one windowDpr in
  let this :=
    {| canvas := None; ctx := None;
       fontSize := default (Num.of_Z 15) (opt_fontSize resolvedOptions);
       fontFamily := default "monospace" (opt_fontFamily resolvedOptions);
       theme := Theme.resolveTheme (opt_theme resolvedOptions);
       devicePixelRatio :=
         default defaultDpr (opt_devicePixelRatio resolvedOptions);
       metrics := CellMetrics.mk 0 0 0;
       currentSelectionRange := None;
       currentHoveredLink := None;
       currentGetGraphemeString := None |} in
  let this := set_metrics (measureFont this) this in
  match canvas with
  | Some c => attach c this
  | None => (Ok tt, this)
  end.

Definition renderCellBackground (cell : GhosttyCell.t) (x y : Z) : M unit :=
  requireContext ;;
  m <- gets metrics ;;
  let cellX := x * CellMetrics.width m in
  let cellY := y * CellMetrics.height m in
  let cellWidth := CellMetrics.width m * GhosttyCell.width cell in
  isSelected <- gets (fun this => isInSelection this x y) ;;
  let '(bg_r, bg_g, bg_b) :=
    if has (GhosttyCell.flags cell) (CellFlags.INVERSE CellFlags)
    then (GhosttyCell.fg_r cell, GhosttyCell.fg_g cell, GhosttyCell.fg_b cell)
    else (GhosttyCell.bg_r cell, GhosttyCell.bg_g cell, GhosttyCell.bg_b cell) in
  let isDefaultBg := (bg_r =? 0) && (bg_g =? 0) && (bg_b =? 0) in
  (if negb isDefaultBg then
     on_ctx (Ctx2D.set_fillStyle (rgbToCSS bg_r bg_g bg_b)) ;;
     on_ctx (Ctx2D.fillRect (Num.of_Z cellX) (Num.of_Z cellY)
               (Num.of_Z cellWidth) (Num.of_Z (CellMetrics.height m)))
   else ret tt) ;;
  if isSelected then
    th <- gets theme ;;
    let selectionOpacity := TerminalTheme.selectionOpacity th in
    on_ctx (Ctx2D.set_globalAlpha selectionOpacity) ;;
    on_ctx (Ctx2D.set_fillStyle
              (Theme.rgbaToCss (TerminalTheme.selectionBackground th))) ;;
    on_ctx (Ctx2D.fillRect (Num.of_Z cellX) (Num.of_Z cellY)
              (Num.of_Z cellWidth) (Num.of_Z (CellMetrics.height m))) ;;
    on_ctx (Ctx2D.set_globalAlpha Num.one)
  else ret tt.

(** The four calls that stroke a horizontal line from [x1] to [x2] at
    height [y]: [beginPath], [moveTo], [lineTo], [stroke]. *)
Definition strokeLine (x1 y x2 : number) : M unit :=
  on_ctx Ctx2D.beginPath ;;
  on_ctx (Ctx2D.moveTo x1 y) ;;
  on_ctx (Ctx2D.lineTo x2 y) ;;
  on_ctx Ctx2D.stroke.

Definition renderCellText (cell : GhosttyCell.t) (x y : Z) : M unit :=
  requireContext ;;
  m <- gets metrics ;;
  let cellX := x * CellMetrics.width m in
  let cellY := y * CellMetrics.height m in
  let cellWidth := CellMetrics.width m * GhosttyCell.width cell in
  let flags := GhosttyCell.flags cell in
  if has flags (CellFlags.INVISIBLE CellFlags) then ret tt
  else
    isSelected <- gets (fun this => isInSelection this x y) ;;
    let fontStyle :=
      (if has flags (CellFlags.ITALIC CellFlags) then "italic " else "")
      ++ (if has flags (CellFlags.BOLD CellFlags) then "bold " else "") in
    size <- gets fontSize ;;
    family <- gets fontFamily ;;
    on_ctx (Ctx2D.set_font
              {| font_style := fontStyle; font_size := size;
                 font_family := family |}) ;;
    let '(fg_r, fg_g, fg_b) :=
      if has flags (CellFlags.INVERSE CellFlags)
      then (GhosttyCell.bg_r cell, GhosttyCell.bg_g cell, GhosttyCell.bg_b cell)
      else (GhosttyCell.fg_r cell, GhosttyCell.fg_g cell, GhosttyCell.fg_b cell) in
    th <- gets theme ;;
    let selFg := TerminalTheme.selectionForeground th in
    (match isSelected, selFg with
     | true, Some c => on_ctx (Ctx2D.set_fillStyle (Theme.rgbaToCss c))
     | _, _ => on_ctx (Ctx2D.set_fillStyle (rgbToCSS fg_r fg_g fg_b))
     end) ;;
    (if has flags (CellFlags.FAINT CellFlags)
     then on_ctx (Ctx2D.set_globalAlpha c_0_5) else ret tt) ;;
    let textX := cellX in
    let textY := cellY + CellMetrics.baseline m in
    lookup <- gets currentGetGraphemeString ;;
    let char :=
      match lookup with
      | Some get =>
          if GhosttyCell.grapheme_len cell >? 0 then grapheme (get y x)
          else fromCodePoint
                 (if GhosttyCell.codepoint cell =? 0 then 32
                  else GhosttyCell.codepoint cell)
      | None =>
          fromCodePoint
            (if GhosttyCell.codepoint cell =? 0 then 32
             else GhosttyCell.codepoint cell)
      end in
    on_ctx (Ctx2D.fillText char (Num.of_Z textX) (Num.of_Z textY)) ;;
    (if has flags (CellFlags.FAINT CellFlags)
     then on_ctx (Ctx2D.set_globalAlpha Num.one) else ret tt) ;;
    (if has flags (CellFlags.UNDERLINE CellFlags) then
       let underlineY := cellY + CellMetrics.baseline m + 2 in
       on_ctx (fun c => Ctx2D.set_strokeStyle (Ctx2D.fillStyle c) c) ;;
       on_ctx (Ctx2D.set_lineWidth Num.one) ;;
       strokeLine (Num.of_Z cellX) (Num.of_Z underlineY)
                  (Num.of_Z (cellX + cellWidth))
     else ret tt) ;;
    (if has flags (CellFlags.STRIKETHROUGH CellFlags) then
       let strikeY :=
         Num.add (Num.of_Z cellY)
                 (Num.div (Num.of_Z (CellMetrics.height m)) (Num.of_Z 2)) in
       on_ctx (fun c => Ctx2D.set_strokeStyle (Ctx2D.fillStyle c) c) ;;
       on_ctx (Ctx2D.set_lineWidth Num.one) ;;
       strokeLine (Num.of_Z cellX) strikeY (Num.of_Z (cellX + cellWidth))
     else ret tt) ;;
    hovered <- gets currentHoveredLink ;;
    (if GhosttyCell.hyperlink_id cell >? 0 then
       let hoveredHyperlinkId :=
         default 0 (HyperlinkRange.hyperlinkId <$> hovered) in
       let isHovered := GhosttyCell.hyperlink_id cell =? hoveredHyperlinkId in
       if isHovered then
         let underlineY := cellY + CellMetrics.baseline m + 2 in
         on_ctx (Ctx2D.set_strokeStyle (css_text "#4A90E2")) ;;
         on_ctx (Ctx2D.set_lineWidth Num.one) ;;
         strokeLine (Num.of_Z cellX) (Num.of_Z underlineY)
                    (Num.of_Z (cellX + cellWidth))
       else ret tt
     else ret tt) ;;
    match hovered ≫= HyperlinkRange.range with
    | Some range =>
        let startX := LinkRange.startX range in
        let startY := LinkRange.startY range in
        let endX := LinkRange.endX range in
        let endY := LinkRange.endY range in
        let isInRange :=
          ((y =? startY) && (x >=? startX) && ((y <? endY) || (x <=? endX)))
          || ((y >? startY) && (y <? endY))
          || ((y =? endY) && (x <=? endX) && ((y >? startY) || (x >=? startX))) in
        if isInRange then
          let underlineY := cellY + CellMetrics.baseline m + 2 in
          on_ctx (Ctx2D.set_strokeStyle (css_text "#4A90E2")) ;;
          on_ctx (Ctx2D.set_lineWidth Num.one) ;;
          strokeLine (Num.of_Z cellX) (Num.of_Z underlineY)
                     (Num.of_Z (cellX + cellWidth))
        else ret tt
    | None => ret tt
    end.

(** The body of the two loops of [renderLine] over the columns of a
    row: a cell that is missing and a spacer cell (width 0) are skipped. *)
Definition cell_step (paintCell : GhosttyCell.t -> Z -> Z -> M unit)
    (viewportCells : list GhosttyCell.t) (row cols x : Z) : M unit :=
  let lineStart := row * cols in
  match nth_Z viewportCells (lineStart + x) with
  | None => ret tt
  | Some cell =>
      if GhosttyCell.width cell =? 0 then ret tt
      else paintCell cell x row
  end.

(** One pass of [renderLine] over the columns of a row. *)
Definition pass (paintCell : GhosttyCell.t -> Z -> Z -> M unit)
    (viewportCells : list GhosttyCell.t) (row cols : Z) : M unit :=
  for_range cols (cell_step paintCell viewportCells row cols).

Definition renderLine (viewportCells : list GhosttyCell.t) (row cols : Z)
  : M unit :=
  requireContext ;;
  m <- gets metrics ;;
  let lineY := row * CellMetrics.height m in
  th <- gets theme ;;
  on_ctx (Ctx2D.set_fillStyle (Theme.rgbaToCss (TerminalTheme.background th))) ;;
  on_ctx (Ctx2D.fillRect Num.zero (Num.of_Z lineY)
            (Num.of_Z (cols * CellMetrics.width m))
            (Num.of_Z (CellMetrics.height m))) ;;
  pass renderCellBackground viewportCells row cols ;;
  pass renderCellText viewportCells row cols.

Definition renderCursor (x y : Z) (style : CursorStyle) : M unit :=
  requireContext ;;
  m <- gets metrics ;;
  let w := CellMetrics.width m in
  let h := CellMetrics.height m in
  let cursorX := x * w in
  let cursorY := y * h in
  th <- gets theme ;;
  on_ctx (Ctx2D.set_fillStyle (Theme.rgbaToCss (TerminalTheme.cursor th))) ;;
  match style with
  | block =>
      on_ctx (Ctx2D.fillRect (Num.of_Z cursorX) (Num.of_Z cursorY)
                (Num.of_Z w) (Num.of_Z h))
  | underline =>
      let underlineHeight :=
        Z.max 2 (Num.floor (Num.mul (Num.of_Z h) c_0_15)) in
      on_ctx (Ctx2D.fillRect (Num.of_Z cursorX)
                (Num.of_Z (cursorY + h - underlineHeight))
                (Num.of_Z w) (Num.of_Z underlineHeight))
  | bar =>
      let barWidth := Z.max 2 (Num.floor (Num.mul (Num.of_Z w) c_0_15)) in
      on_ctx (Ctx2D.fillRect (Num.of_Z cursorX) (Num.of_Z cursorY)
                (Num.of_Z barWidth) (Num.of_Z h))
  end.

Definition renderScrollbar (viewportY : number) (scrollbackLength : Z)
    (visibleRows : Z) (opacity : number) : M unit :=
  requireContext ;;
  canvas <- requireCanvas ;;
  dpr <- gets devicePixelRatio ;;
  let canvasHeight := Num.div (Num.of_Z (HTMLCanvasElement.height canvas)) dpr in
  let canvasWidth := Num.div (Num.of_Z (HTMLCanvasElement.width canvas)) dpr in
  let scrollbarWidth := Num.of_Z 8 in
  let scrollbarX := Num.sub (Num.sub canvasWidth scrollbarWidth) (Num.of_Z 4) in
  let scrollbarPadding := Num.of_Z 4 in
  let scrollbarTrackHeight :=
    Num.sub canvasHeight (Num.mul scrollbarPadding (Num.of_Z 2)) in
  th <- gets theme ;;
  on_ctx (Ctx2D.set_fillStyle (Theme.rgbaToCss (TerminalTheme.background th))) ;;
  on_ctx (Ctx2D.fillRect (Num.sub scrollbarX (Num.of_Z 2)) Num.zero
            (Num.add scrollbarWidth (Num.of_Z 6)) canvasHeight) ;;
  if Num.le opacity Num.zero || (scrollbackLength =? 0) then ret tt
  else
    let totalLines := scrollbackLength + visibleRows in
    let thumbHeight :=
      Num.max (Num.of_Z 20)
        (Num.mul (Num.div (Num.of_Z visibleRows) (Num.of_Z totalLines))
                 scrollbarTrackHeight) in
    let scrollPosition := Num.div viewportY (Num.of_Z scrollbackLength) in
    let thumbY :=
      Num.add scrollbarPadding
        (Num.mul (Num.sub scrollbarTrackHeight thumbHeight)
                 (Num.sub Num.one scrollPosition)) in
    on_ctx (Ctx2D.set_fillStyle (css_rgba 128 128 128 (Num.mul c_0_1 opacity))) ;;
    on_ctx (Ctx2D.fillRect scrollbarX scrollbarPadding scrollbarWidth
              scrollbarTrackHeight) ;;
    let isScrolled := Num.gt viewportY Num.zero in
    let baseOpacity := if isScrolled then c_0_5 else c_0_3 in
    on_ctx (Ctx2D.set_fillStyle
              (css_rgba 128 128 128 (Num.mul baseOpacity opacity))) ;;
    on_ctx (Ctx2D.fillRect scrollbarX thumbY scrollbarWidth thumbHeight).

(** The first loop of [render]: the set [rowsToRender]. *)
Definition rowsToRender (input : RenderInput.t) : gset Z :=
  let rows := RenderInput.rows input in
  let forceAll := RenderInput.dirtyState input =? DirtyState_FULL in
  fold_left
    (fun (acc : gset Z) (y : Z) =>
       let flags := default 0 (nth_Z (RenderInput.rowFlags input) y) in
       let needsRender :=
         forceAll
         || has flags
              (Z.lor (Z.lor ROW_DIRTY ROW_HAS_SELECTION) ROW_HAS_HYPERLINK) in
       if needsRender then
         let acc := {[ y ]} ∪ acc in
         let acc := if y >? 0 then {[ y - 1 ]} ∪ acc else acc in
         if y <? rows - 1 then {[ y + 1 ]} ∪ acc else acc
       else acc)
    (seqZ 0 rows) ∅.

(** The rows the second loop of [render] hands to [renderLine], in the
    order it does. *)
Definition repaintedRows (input : RenderInput.t) : list Z :=
  List.filter (fun y => bool_decide (y ∈ rowsToRender input))
              (seqZ 0 (RenderInput.rows input)).

(** The calls to the profiling hooks of [lib/profile.ts] draw nothing
    and are left out. *)
Definition render (input : RenderInput.t) : M unit :=
  requireContext ;;
  modify (set_theme (RenderInput.theme input)) ;;
  modify (set_currentSelectionRange (RenderInput.selectionRange input)) ;;
  modify (set_currentHoveredLink (RenderInput.hoveredLink input)) ;;
  modify (set_currentGetGraphemeString
            (Some (RenderInput.getGraphemeString input))) ;;
  let cols := RenderInput.cols input in
  let rows := RenderInput.rows input in
  for_each (repaintedRows input)
    (fun y => renderLine (RenderInput.viewportCells input) y cols) ;;
  (if RenderInput.cursorVisible input then
     renderCursor (RenderInput.cursorX input) (RenderInput.cursorY input)
       (RenderInput.cursorStyle input)
   else ret tt) ;;
  if Num.gt (RenderInput.scrollbarOpacity input) Num.zero
     && (RenderInput.scrollbackLength input >? 0)
  then renderScrollbar (RenderInput.viewportY input)
         (RenderInput.scrollbackLength input) rows
         (RenderInput.scrollbarOpacity input)
  else ret tt.

End Methods.

End CanvasRenderer.

(** * Vocabulary of the properties

    Definitions that the statements below are written with: predicates over
    the embedding, the values the specification names, and the sample
    inputs of the concrete runs. *)

Module ThemeSpec.

(** An opaque colour. *)
Definition opaque (r g b : Z) : RGBA.t := RGBA.mk r g b Num.one.


(** One half, as a binary64 value. *)
Definition half : number := S754_finite false (2 ^ 52) (-53).





(** Strings of three, four, six and eight characters after the [#]. *)
Definition hex3 (c0 c1 c2 : ascii) : string :=
  String "#" (String c0 (String c1 (String c2 EmptyString))).
Definition hex4 (c0 c1 c2 c3 : ascii) : string :=
  String "#" (String c0 (String c1 (String c2 (String c3 EmptyString)))).
Definition hex6 (c0 c1 c2 : ascii) : string :=
  String "#" (String c0 (String c0 (String c1 (String c1
    (String c2 (String c2 EmptyString)))))).
Definition hex8 (c0 c1 c2 c3 : ascii) : string :=
  String "#" (String c0 (String c0 (String c1 (String c1
    (String c2 (String c2 (String c3 (String c3 EmptyString)))))))).

Definition isHexDigit (c : ascii) : bool :=
  match Str.digitValue 16 c with Some _ => true | None => false end.

(** A colour whose bytes lie in [0,255] and whose alpha is a finite number
    in [0,1]. *)
Definition valid_rgba (c : RGBA.t) : Prop :=
  0 <= RGBA.r c <= 255 /\ 0 <= RGBA.g c <= 255 /\ 0 <= RGBA.b c <= 255
  /\ Num.isFinite (RGBA.a c) = true
  /\ Num.le Num.zero (RGBA.a c) = true
  /\ Num.le (RGBA.a c) Num.one = true.

(** Every code unit below 256. *)
Definition all_ascii : list ascii := List.map ascii_of_nat (seq 0 256).

(** The string [#] followed by the given characters. *)
Definition hashed (cs : list ascii) : string :=
  String "#" (string_of_list_ascii cs).

(** A string of decimal digits, and the number it writes. *)
Definition allDigits (s : string) : bool :=
  forallb Str.isDigit (list_ascii_of_string s).
Definition decimal (s : string) : Z :=
  fold_left (fun acc c => 10 * acc + (Z.of_nat (nat_of_ascii c) - 48))
            (list_ascii_of_string s) 0.

(** One to three decimal digits. *)
Definition component_digits (s : string) : Prop :=
  allDigits s = true /\ (1 <= String.length s <= 3)%nat.

End ThemeSpec.

Module SchedulerSpec.
Import Scheduler.

Section WithCallbacks.
Context {CB : Type}.

Implicit Types (s : RenderScheduler CB) (cs : list (Call CB)).

(** [cancel(id)] occurs in [cs]. *)
Definition cancels (id : Z) (cs : list (Call CB)) : bool :=
  existsb (fun c => match c with
                    | CallCancel id' => id' =? id
                    | CallSchedule _ _ => false
                    end) cs.

(** The registrations of the calls [cs] that are still standing after
    them, oldest first, when the first handle handed out is [next]:
    the k-th [schedule] of [cs] gets the handle [next + k], and stands
    unless a later call of [cs] cancels that handle. *)
Fixpoint standing (next : Z) (cs : list (Call CB))
  : list (Z * PendingRender CB) :=
  match cs with
  | [] => []
  | CallSchedule cb at_ :: rest =>
      (if cancels next rest then []
       else [(next, Build_PendingRender cb at_)])
      ++ standing (next + 1) rest
  | CallCancel _ :: rest => standing next rest
  end.

(** What one invocation adds to the log. *)
Definition invocation (now : number) (e : PendingRender CB)
  : CB * number * option number :=
  (callback e, now, scheduledAt e).

(** Every handle in the pending map has been handed out already. *)
Definition handles_issued s : Prop :=
  Forall (fun k => k < nextId s) (JsMap.keys (pending s)).

(** Since the handle counter stood at [n0] and the outstanding requests
    were [rs0]: either nothing has been scheduled and no request made, or
    something has been scheduled and exactly one request was added. *)
Definition armed_since (n0 : Z) (rs0 : list Z) s : Prop :=
  (rafId s = None /\ requests s = rs0 /\ nextId s = n0)
  \/ (exists h, rafId s = Some h /\ requests s = (rs0 ++ [h])%list
                /\ n0 < nextId s).

(** Every pending handle was handed out since the counter stood at [n0]. *)
Definition fresh_since (n0 : Z) s : Prop :=
  Forall (fun k => n0 <= k < nextId s) (JsMap.keys (pending s))
  /\ n0 <= nextId s.

(** The scheduler between flushes: every pending handle has been handed
    out, and either nothing is pending and no request is outstanding, or
    the scheduler holds the handle of the one request that is. *)
Definition settled s : Prop :=
  handles_issued s
  /\ ((rafId s = None /\ requests s = [] /\ pending s = [])
      \/ exists h, rafId s = Some h /\ requests s = [h]).

(** The calls a callback makes on the scheduler while it runs [p], in
    order, when the next handle to be handed out is [next]. *)
Fixpoint calls_of (p : Prog CB) (next : Z) : list (Call CB) :=
  match p with
  | Done => []
  | Schedule cb at_ k => CallSchedule cb at_ :: calls_of (k next) (next + 1)
  | Cancel id k => CallCancel id :: calls_of k next
  end.

(** The number of [schedule] calls among [cs]. *)
Definition scheduled (cs : list (Call CB)) : Z :=
  Z.of_nat (List.length (List.filter
    (fun c => match c with
              | CallSchedule _ _ => true
              | CallCancel _ => false
              end) cs)).

(** The calls made on the scheduler during a flush at time [now] that
    invokes [entries] one after the other, when the next handle to be
    handed out at its start is [next]. *)
Fixpoint calls_during (body : CB -> number -> option number -> Prog CB)
    (now : number) (entries : list (PendingRender CB)) (next : Z)
  : list (Call CB) :=
  match entries with
  | [] => []
  | e :: rest =>
      let cs := calls_of (body (callback e) now (scheduledAt e)) next in
      (cs ++ calls_during body now rest (next + scheduled cs))%list
  end.

(** The part of the scheduler that [schedule] and [cancel] read and
    write: all but the two logs. *)
Definition core s :=
  (pending s, nextId s, rafId s, requests s, nextHandle s).

(** What happens to the scheduler from outside: a call on it, or a
    display-refresh boundary at some time. *)
Inductive Event : Type :=
  | EvCall (c : Call CB)
  | EvBoundary (now : number).

Definition step (body : CB -> number -> option number -> Prog CB)
    (s : RenderScheduler CB) (e : Event) : RenderScheduler CB :=
  match e with
  | EvCall c => call s c
  | EvBoundary now => boundary body now s
  end.

Definition run (body : CB -> number -> option number -> Prog CB)
    (es : list Event) (s : RenderScheduler CB) : RenderScheduler CB :=
  fold_left (step body) es s.

(** The number of boundaries among [es]. *)
Definition boundaries (es : list Event) : nat :=
  List.length (List.filter
    (fun e => match e with EvBoundary _ => true | EvCall _ => false end) es).

End WithCallbacks.
Arguments Event : clear implicits.

(** Callbacks named by numbers. Callback 0 registers callback 1 and
    cancels it at once; the others do nothing with the scheduler. *)
Definition register_and_cancel (c : nat) (_ : number) (_ : option number)
  : Prog nat :=
  match c with
  | O => Schedule 1%nat None (fun id => Cancel id Done)
  | _ => Done
  end.

(** The claim C5 has a request armed after a flush exactly when the fresh
    pending set is not empty. *)
Definition rearms_iff_pending {CB} (body : CB -> number -> option number -> Prog CB)
    (now : number) (s : RenderScheduler CB) : Prop :=
  requests (flush body now s) <> requests s
  <-> pending (flush body now s) <> [].

(** The scheduler as the boundary hands it to [flush], with callback 0
    pending under handle 1 and the request 7 that is now firing. *)
Definition one_pending : RenderScheduler nat :=
  mk [(1, Build_PendingRender O None)] 2 (Some 7) [] 8 [] 0.

(** A render loop: every callback registers itself again. *)
Definition reschedule (c : nat) (_ : number) (at_ : option number) : Prog nat :=
  Schedule c at_ (fun _ => Done).

End SchedulerSpec.

Module RendererSpec.
Import CanvasRenderer.

(** The renderer holds a canvas and its context. *)
Definition attached (this : t) : Prop :=
  is_Some (ctx this) /\ is_Some (canvas this).

(** Run on an attached renderer, [m] returns normally and leaves the
    renderer attached. *)
Definition returns {A} (m : M A) : Prop :=
  forall this, attached this ->
    exists a this', m this = (Ok a, this') /\ attached this'.

(** What has been painted on the attached context so far. *)
Definition painted (this : t) : list Paint :=
  match ctx this with
  | Some c => Ctx2D.painted c
  | None => []
  end.

(** [m] only draws: run on an attached renderer it returns normally,
    changes nothing of the renderer but the context, and adds to what
    has been painted. *)
Definition draws (m : M unit) : Prop :=
  forall this c, ctx this = Some c -> is_Some (canvas this) ->
    exists c' l,
      m this = (Ok tt, set_ctx (Some c') this)
      /\ Ctx2D.painted c' = (Ctx2D.painted c ++ l)%list.

(** A context operation that keeps what was painted or adds to it. *)
Definition adds (f : Ctx2D.t -> Ctx2D.t) : Prop :=
  forall c, exists l, Ctx2D.painted (f c) = (Ctx2D.painted c ++ l)%list.

(** The renderer after the assignments [render] starts with. *)
Definition prepared (input : RenderInput.t) (this : t) : t :=
  set_currentGetGraphemeString (Some (RenderInput.getGraphemeString input))
    (set_currentHoveredLink (RenderInput.hoveredLink input)
       (set_currentSelectionRange (RenderInput.selectionRange input)
          (set_theme (RenderInput.theme input) this))).

(** The rectangle [renderLine] clears row [row] with, over [cols]
    columns. *)
Definition rowClear (this : t) (alpha : number) (row cols : Z) : Paint :=
  FillRect (Theme.rgbaToCss (TerminalTheme.background (theme this))) alpha
    Num.zero (Num.of_Z (row * CellMetrics.height (metrics this)))
    (Num.of_Z (cols * CellMetrics.width (metrics this)))
    (Num.of_Z (CellMetrics.height (metrics this))).

(** A block of paints that repaints row [row]: it starts by clearing
    the row. *)
Definition repaintsRow (this : t) (cols row : Z) (block : list Paint) : Prop :=
  exists alpha rest, block = rowClear this alpha row cols :: rest.

(** Run on an attached renderer whose context has [globalAlpha] at [a],
    [m] returns normally, changes nothing of the renderer but the
    context, and leaves [globalAlpha] at [b]. *)
Definition alpha_to (a b : number) (m : M unit) : Prop :=
  forall this c, ctx this = Some c -> is_Some (canvas this) ->
    Ctx2D.globalAlpha c = a ->
    exists c',
      m this = (Ok tt, set_ctx (Some c') this)
      /\ Ctx2D.globalAlpha c' = b.

(** A block of paints that repaints row [row] by clearing it with an
    opaque rectangle first. *)
Definition clearsRow (this : t) (cols row : Z) (block : list Paint) : Prop :=
  exists rest, block = rowClear this Num.one row cols :: rest.

(** The rectangle of the cursor in the cell at column [x] of row [y]. *)
Definition cursorRect (m : CellMetrics.t) (x y : Z) (style : CursorStyle)
  : number * number * number * number :=
  let w := CellMetrics.width m in
  let h := CellMetrics.height m in
  match style with
  | block => (Num.of_Z (x * w), Num.of_Z (y * h), Num.of_Z w, Num.of_Z h)
  | underline =>
      let u := Z.max 2 (Num.floor (Num.mul (Num.of_Z h) c_0_15)) in
      (Num.of_Z (x * w), Num.of_Z (y * h + h - u), Num.of_Z w, Num.of_Z u)
  | bar =>
      let b := Z.max 2 (Num.floor (Num.mul (Num.of_Z w) c_0_15)) in
      (Num.of_Z (x * w), Num.of_Z (y * h), Num.of_Z b, Num.of_Z h)
  end.

Section Parameters.
Context (CellFlags : CellFlags.t) (DirtyState_FULL : Z).

(** The colour components pass 1 fills a cell with. *)
Definition backgroundOf (cell : GhosttyCell.t) : Z * Z * Z :=
  if has (GhosttyCell.flags cell) (CellFlags.INVERSE CellFlags)
  then (GhosttyCell.fg_r cell, GhosttyCell.fg_g cell, GhosttyCell.fg_b cell)
  else (GhosttyCell.bg_r cell, GhosttyCell.bg_g cell, GhosttyCell.bg_b cell).

(** The rectangle of the cell at column [x] of row [y]. *)
Definition cellRect (m : CellMetrics.t) (cell : GhosttyCell.t) (x y : Z)
  : number * number * number * number :=
  (Num.of_Z (x * CellMetrics.width m), Num.of_Z (y * CellMetrics.height m),
   Num.of_Z (CellMetrics.width m * GhosttyCell.width cell),
   Num.of_Z (CellMetrics.height m)).

Definition fillOf (style : Css) (alpha : number)
    (rect : number * number * number * number) : Paint :=
  let '(x, y, w, h) := rect in FillRect style alpha x y w h.

(** The cell's own background: nothing when it is the zero sentinel. *)
Definition ownBackground (m : CellMetrics.t) (alpha : number)
    (cell : GhosttyCell.t) (x y : Z) : list Paint :=
  let '(r, g, b) := backgroundOf cell in
  if (r =? 0) && (g =? 0) && (b =? 0) then []
  else [fillOf (css_rgb r g b) alpha (cellRect m cell x y)].

(** The translucent overlay of a selected cell. *)
Definition selectionOverlay (this : t) (cell : GhosttyCell.t) (x y : Z)
  : list Paint :=
  if isInSelection this x y then
    [fillOf (Theme.rgbaToCss (TerminalTheme.selectionBackground (theme this)))
            (TerminalTheme.selectionOpacity (theme this))
            (cellRect (metrics this) cell x y)]
  else [].

(** What [renderCellBackground] paints: the cell's own background, then
    the selection overlay. *)
Definition backgroundPaints (this : t) (alpha : number)
    (cell : GhosttyCell.t) (x y : Z) : list Paint :=
  (ownBackground (metrics this) alpha cell x y
   ++ selectionOverlay this cell x y)%list.

(** What pass 1 paints for the columns [xs] of row [row], one cell after
    the other, when [globalAlpha] is [alpha] at its start: a missing cell
    and a spacer cell paint nothing, and a selected cell leaves
    [globalAlpha] at 1. *)
Fixpoint pass1Paints (this : t) (cells : list GhosttyCell.t) (row cols : Z)
    (alpha : number) (xs : list Z) : list Paint :=
  match xs with
  | [] => []
  | x :: rest =>
      match nth_Z cells (row * cols + x) with
      | None => pass1Paints this cells row cols alpha rest
      | Some cell =>
          if GhosttyCell.width cell =? 0
          then pass1Paints this cells row cols alpha rest
          else (backgroundPaints this alpha cell x row
                ++ pass1Paints this cells row cols
                     (if isInSelection this x row then Num.one else alpha)
                     rest)%list
      end
  end.

(** The frame asks for a full repaint. *)
Definition fullRepaint (input : RenderInput.t) : bool :=
  RenderInput.dirtyState input =? DirtyState_FULL.

(** Row [y] has one of DIRTY, HAS_SELECTION, HAS_HYPERLINK set. *)
Definition flagged (input : RenderInput.t) (y : Z) : bool :=
  has (default 0 (nth_Z (RenderInput.rowFlags input) y))
      (Z.lor (Z.lor ROW_DIRTY ROW_HAS_SELECTION) ROW_HAS_HYPERLINK).

(** [y] is [y'] or one of its vertical neighbours. *)
Definition near (y y' : Z) : Prop := y = y' \/ y = y' - 1 \/ y = y' + 1.

(** The body of the first loop of [render]. *)
Definition addRow (input : RenderInput.t) (acc : gset Z) (y : Z) : gset Z :=
  if fullRepaint input || flagged input y then
    let acc := {[ y ]} ∪ acc in
    let acc := if y >? 0 then {[ y - 1 ]} ∪ acc else acc in
    if y <? RenderInput.rows input - 1 then {[ y + 1 ]} ∪ acc else acc
  else acc.

End Parameters.

(** Sample values for what [lib/types.ts] and the browser fix. *)
Definition sampleFlags : CellFlags.t := CellFlags.mk 1 2 4 8 16 32 128.
Definition sampleFull : Z := 2.
Definition sampleMeasure (_ : number) (_ : string) : TextMetrics :=
  {| tm_width := Num.of_Z 9;
     actualBoundingBoxAscent := Num.of_Z 12;
     actualBoundingBoxDescent := Num.of_Z 3 |}.

Definition noOptions : RendererOptions :=
  {| opt_fontSize := None; opt_fontFamily := None; opt_theme := None;
     opt_devicePixelRatio := None |}.

(** A canvas of 300 by 150 pixels with a context in its default state. *)
Definition freshContext : Ctx2D.t :=
  Ctx2D.mk (css_text "#000000") (css_text "#000000") Num.one
    {| font_style := ""; font_size := Num.of_Z 10; font_family := "sans-serif" |}
    Num.one "alphabetic" "start" (Num.one, Num.one) [] [].
Definition sampleCanvas : HTMLCanvasElement.t :=
  HTMLCanvasElement.mk 300 150 300 150 (Some freshContext).

(** [new CanvasRenderer()] and [new CanvasRenderer(sampleCanvas)]. *)
Definition bareRenderer : t :=
  snd (constructor sampleMeasure None noOptions None).
Definition sampleRenderer : t :=
  snd (constructor sampleMeasure (Some (inl sampleCanvas)) noOptions None).

Definition blankCell : GhosttyCell.t :=
  GhosttyCell.mk 0 212 212 212 0 0 0 0 1 0 0.

(** A frame of a grid of 2 columns and 5 rows, with the given row flags,
    selection and scrollbar state; the cursor is hidden. *)
Definition frame (rowFlags : list Z) (dirtyState : Z)
    (selection : option SelectionRange.t) (scrollbackLength : Z)
    (scrollbarOpacity : number) : RenderInput.t :=
  {| RenderInput.cols := 2; RenderInput.rows := 5;
     RenderInput.viewportCells := replicate 10 blankCell;
     RenderInput.rowFlags := rowFlags;
     RenderInput.dirtyState := dirtyState;
     RenderInput.selectionRange := selection;
     RenderInput.hoveredLink := None;
     RenderInput.cursorX := 0; RenderInput.cursorY := 0;
     RenderInput.cursorVisible := false;
     RenderInput.cursorStyle := block;
     RenderInput.getGraphemeString := fun _ _ => "";
     RenderInput.theme := Theme.resolveTheme None;
     RenderInput.viewportY := Num.zero;
     RenderInput.scrollbackLength := scrollbackLength;
     RenderInput.scrollbarOpacity := scrollbarOpacity |}.

Definition quarter : number := S754_finite false (2 ^ 52) (-54).

(** A cell with a red foreground, shown inverse. *)
Definition inverseCell : GhosttyCell.t :=
  GhosttyCell.mk 65 205 49 49 0 0 0 16 1 0 0.

(** The renderer after a frame that drew the scrollbar at opacity 0.25. *)
Definition afterFadingFrame : t :=
  snd (render sampleFlags sampleFull (frame [] 0 None 100 quarter)
         sampleRenderer).

(** A canvas for which the browser has no 2D context to give. *)
Definition blindCanvas : HTMLCanvasElement.t :=
  HTMLCanvasElement.mk 300 150 300 150 None.

(** The frame [frame rowFlags 0 None 0 0] with a bar cursor shown in
    column 1 of row 2. *)
Definition cursorFrame (rowFlags : list Z) : RenderInput.t :=
  {| RenderInput.cols := 2; RenderInput.rows := 5;
     RenderInput.viewportCells := replicate 10 blankCell;
     RenderInput.rowFlags := rowFlags;
     RenderInput.dirtyState := 0;
     RenderInput.selectionRange := None;
     RenderInput.hoveredLink := None;
     RenderInput.cursorX := 1; RenderInput.cursorY := 2;
     RenderInput.cursorVisible := true;
     RenderInput.cursorStyle := bar;
     RenderInput.getGraphemeString := fun _ _ => "";
     RenderInput.theme := Theme.resolveTheme None;
     RenderInput.viewportY := Num.zero;
     RenderInput.scrollbackLength := 0;
     RenderInput.scrollbarOpacity := Num.zero |}.

End RendererSpec.

(** * Properties *)

(** ** Theme resolution *)

Module ThemeProps.
Import ThemeSpec.

Lemma SFcompare_swap (x y : spec_float) :
  SFcompare y x = CompOpp <$> SFcompare x y.
Proof.
  destruct x as [[]|[]| |[] mx ex], y as [[]|[]| |[] my ey]; try reflexivity;
    cbn [SFcompare fmap option_fmap option_map];
    rewrite (Z.compare_antisym ex ey);
    destruct (ex ?= ey); cbn [CompOpp]; try reflexivity;
    rewrite (Pos.compare_cont_antisym mx my Eq); cbn [CompOpp];
    try reflexivity;
    by rewrite CompOpp_involutive.
Qed.

Lemma clampAlpha_range (v : number) :
  Num.le Num.zero (Theme.clampAlpha v) = true
  /\ Num.le (Theme.clampAlpha v) Num.one = true
  /\ Num.isFinite (Theme.clampAlpha v) = true.
Proof.
  unfold Theme.clampAlpha.
  destruct (Num.isFinite v) eqn:Hfin; cbn [negb]; [| by vm_compute].
  destruct (Num.lt v Num.zero) eqn:Hneg; [by vm_compute |].
  destruct (Num.gt v Num.one) eqn:Hbig; [by vm_compute |].
  split_and!; [| | done].
  - by destruct v as [[]|[]| |[] m e].
  - unfold Num.gt, Num.le, SFltb, SFleb in *.
    rewrite (SFcompare_swap Num.one v).
    destruct (SFcompare Num.one v) as [[]|] eqn:Hc; try done.
    by destruct v as [[]|[]| |[] m e].
Qed.



(** [resolveOptionalColor] is [parseColor]: the two strings it sets apart
    do not parse either. *)
Lemma resolveOptionalColor_parseColor (value : option string) :
  Theme.resolveOptionalColor value = Theme.parseColor value.
Proof.
  destruct value as [v|]; [| reflexivity].
  unfold Theme.resolveOptionalColor.
  destruct v as [|c v]; [reflexivity |].
  destruct (String.eqb_spec (String c v) "undefined") as [-> | _]; reflexivity.
Qed.



Lemma hexDigit_not_space (c : ascii) :
  isHexDigit c = true -> Str.isWhiteSpace c = false.
Proof.
  destruct c as [[] [] [] [] [] [] [] []]; vm_compute; congruence.
Qed.

(** Doubling the digit [c] gives the byte [17 * d] for a hexadecimal
    digit of value [d], and NaN for any other character. *)
Lemma parseInt_doubled (c : ascii) :
  Str.parseInt (String c (String c EmptyString)) 16
  = (fun d => 17 * d) <$> Str.digitValue 16 c.
Proof.
  destruct c as [[] [] [] [] [] [] [] []]; vm_compute; reflexivity.
Qed.

(** Where the first and the last character are not white space, [trim]
    leaves the string alone, and the three-character form and its doubled
    six-character form go through the same conversions. *)
Lemma parseHexColor_doubled3 (c0 c1 c2 : ascii) :
  Str.isWhiteSpace c0 = false -> Str.isWhiteSpace c2 = false ->
  Theme.parseHexColor (hex3 c0 c1 c2) = Theme.parseHexColor (hex6 c0 c1 c2).
Proof.
  intros H0 H2. unfold Theme.parseHexColor, hex3, hex6.
  cbn [Str.slice_from]. unfold Str.trim, Str.rev.
  cbn [Str.skipWhiteSpace Str.rev_acc]. rewrite !H0.
  cbn [Str.skipWhiteSpace Str.rev_acc]. rewrite !H2.
  reflexivity.
Qed.

Lemma parseHexColor_doubled4 (c0 c1 c2 c3 : ascii) :
  Str.isWhiteSpace c0 = false -> Str.isWhiteSpace c3 = false ->
  Theme.parseHexColor (hex4 c0 c1 c2 c3)
  = Theme.parseHexColor (hex8 c0 c1 c2 c3).
Proof.
  intros H0 H3. unfold Theme.parseHexColor, hex4, hex8.
  cbn [Str.slice_from]. unfold Str.trim, Str.rev.
  cbn [Str.skipWhiteSpace Str.rev_acc]. rewrite !H0.
  cbn [Str.skipWhiteSpace Str.rev_acc]. rewrite !H3.
  reflexivity.
Qed.

(** C9: ["#fff"] resolves to the colour of ["#ffffff"]; every three-digit
    hexadecimal form resolves to the colour of its digit-doubled six-digit
    form, and every four-digit form to that of its eight-digit form; and
    ["rgba(10,20,30,0.5)"] resolves to r=10, g=20, b=30, a=0.5. *)
Theorem parseColor_shorthand_and_rgba :
  Theme.parseColor (Some "#fff") = Theme.parseColor (Some "#ffffff")
  /\ (forall c0 c1 c2 : ascii,
        isHexDigit c0 = true -> isHexDigit c1 = true -> isHexDigit c2 = true ->
        Theme.parseColor (Some (hex3 c0 c1 c2))
        = Theme.parseColor (Some (hex6 c0 c1 c2)))
  /\ (forall c0 c1 c2 c3 : ascii,
        isHexDigit c0 = true -> isHexDigit c1 = true ->
        isHexDigit c2 = true -> isHexDigit c3 = true ->
        Theme.parseColor (Some (hex4 c0 c1 c2 c3))
        = Theme.parseColor (Some (hex8 c0 c1 c2 c3)))
  /\ Theme.parseColor (Some "rgba(10,20,30,0.5)")
     = Some {| RGBA.r := 10; RGBA.g := 20; RGBA.b := 30; RGBA.a := half |}.
Proof.
  split_and!.
  - reflexivity.
  - intros c0 c1 c2 H0 _ H2.
    apply (parseHexColor_doubled3 c0 c1 c2); by apply hexDigit_not_space.
  - intros c0 c1 c2 c3 H0 _ _ H3.
    apply (parseHexColor_doubled4 c0 c1 c2 c3); by apply hexDigit_not_space.
  - reflexivity.
Qed.

Lemma parseColor_shorthand_and_rgba_witness :
  Theme.parseColor (Some "#1aF") = Theme.parseColor (Some "#11aaFF")
  /\ Theme.parseColor (Some "#1aF") = Some (opaque 17 170 255)
  /\ Theme.parseColor (Some "#1aF8") = Theme.parseColor (Some "#11aaFF88").
Proof.
  destruct parseColor_shorthand_and_rgba as (_ & H3 & H4 & _).
  split_and!.
  - apply (H3 "1" "a" "F")%char; reflexivity.
  - reflexivity.
  - apply (H4 "1" "a" "F" "8")%char; reflexivity.
Defined.

End ThemeProps.

(** ** Frame scheduler *)

Module SchedulerProps.
Import Scheduler SchedulerSpec.

Section WithCallbacks.
Context {CB : Type} (body : CB -> number -> option number -> Prog CB).

Implicit Types (s : RenderScheduler CB) (cs : list (Call CB)).

(** Reading a field of a record that was just built. *)
Ltac fields :=
  cbn [fst snd pending nextId rafId requests nextHandle invoked flushes
       set_pending set_nextId set_rafId requestAnimationFrame].

(** *** The pending map *)

Lemma set_fresh {V} (k : Z) (v : V) (m : JsMap.t V) :
  Forall (fun k' => k' < k) (JsMap.keys m) ->
  JsMap.set k v m = (m ++ [(k, v)])%list.
Proof.
  induction m as [|[k' v'] m IH]; intros Hlt; [reflexivity |].
  cbn [JsMap.keys List.map fst] in Hlt. inversion_clear Hlt as [|? ? Hk Hm].
  cbn [JsMap.set app]. destruct (Z.eqb_spec k k') as [-> | _]; [lia |].
  by rewrite IH.
Qed.

Lemma delete_absent {V} (k : Z) (m : JsMap.t V) :
  Forall (fun k' => k' <> k) (JsMap.keys m) -> JsMap.delete k m = m.
Proof.
  induction m as [|[k' v'] m IH]; intros Hne; [reflexivity |].
  cbn [JsMap.keys List.map fst] in Hne. inversion_clear Hne as [|? ? Hk Hm].
  unfold JsMap.delete in *. cbn [List.filter fst].
  destruct (Z.eqb_spec k' k) as [-> | _]; [done |].
  cbn [negb]. by rewrite IH.
Qed.

Lemma keys_delete {V} (k : Z) (m : JsMap.t V) (P : Z -> Prop) :
  Forall P (JsMap.keys m) -> Forall P (JsMap.keys (JsMap.delete k m)).
Proof.
  induction m as [|[k' v'] m IH]; intros HP; [done |].
  cbn [JsMap.keys List.map fst] in HP. inversion_clear HP as [|? ? Hk Hm].
  unfold JsMap.delete in *. cbn [List.filter fst].
  destruct (negb (k' =? k)); [| by apply IH].
  cbn [JsMap.keys List.map fst]. constructor; [done | by apply IH].
Qed.

Lemma schedule_pending cb at_ s :
  handles_issued s ->
  pending (snd (schedule cb at_ s))
  = (pending s ++ [(nextId s, Build_PendingRender cb at_)])%list.
Proof.
  intros Hs. unfold schedule, ensureRaf. cbn [set_nextId set_pending pending nextId rafId].
  destruct (rafId s); cbn [snd pending set_rafId requestAnimationFrame];
    by apply set_fresh.
Qed.

Lemma schedule_nextId cb at_ s :
  nextId (snd (schedule cb at_ s)) = nextId s + 1.
Proof.
  unfold schedule, ensureRaf. cbn [set_nextId set_pending pending nextId rafId].
  by destruct (rafId s).
Qed.

Lemma schedule_handle cb at_ s : fst (schedule cb at_ s) = nextId s.
Proof. reflexivity. Qed.

Lemma schedule_issued cb at_ s :
  handles_issued s -> handles_issued (snd (schedule cb at_ s)).
Proof.
  intros Hs. unfold handles_issued.
  rewrite schedule_pending, schedule_nextId by done.
  unfold JsMap.keys. rewrite List.map_app. apply Forall_app. split.
  - eapply Forall_impl; [exact Hs |]. cbn beta. intros; lia.
  - repeat constructor. cbn [fst]. lia.
Qed.

Lemma cancel_issued id s : handles_issued s -> handles_issued (cancel id s).
Proof. intros Hs. by apply keys_delete. Qed.

Lemma call_issued s c : handles_issued s -> handles_issued (call s c).
Proof.
  destruct c; [apply schedule_issued | apply cancel_issued].
Qed.

Lemma calls_issued cs s : handles_issued s -> handles_issued (calls cs s).
Proof.
  revert s. induction cs as [|c cs IH]; intros s Hs; [done |].
  apply IH. by apply call_issued.
Qed.

Lemma cancels_cancel id k cs :
  cancels k (CallCancel id :: cs) = (id =? k) || cancels k cs.
Proof. reflexivity. Qed.

Lemma cancels_schedule cb at_ k cs :
  cancels k (CallSchedule cb at_ :: cs) = cancels k cs.
Proof. reflexivity. Qed.

(** After the calls [cs], the pending map holds what it held before and
    was not cancelled, followed by the standing registrations of [cs]. *)
Lemma calls_pending cs s :
  handles_issued s ->
  pending (calls cs s)
  = (List.filter (fun kv => negb (cancels (fst kv) cs)) (pending s)
     ++ standing (nextId s) cs)%list.
Proof.
  revert s. induction cs as [|c cs IH]; intros s Hs.
  - cbn [calls fold_left standing cancels existsb negb].
    rewrite app_nil_r. induction (pending s) as [|kv m IHm]; [done |].
    cbn [List.filter]. by rewrite <- IHm.
  - change (calls (c :: cs) s) with (calls cs (call s c)).
    rewrite IH by by apply call_issued. destruct c as [cb at_ | id].
    + cbn [call]. rewrite schedule_pending, schedule_nextId by done.
      rewrite List.filter_app. cbn [List.filter fst standing].
      rewrite <- app_assoc. f_equal.
      by destruct (cancels (nextId s) cs).
    + cbn [call standing]. f_equal.
      unfold cancel, JsMap.delete. cbn [pending set_pending].
      induction (pending s) as [|[k v] m IHm]; [done |].
      cbn [List.filter fst]. rewrite cancels_cancel, (Z.eqb_sym k id).
      destruct (id =? k); cbn [negb orb List.filter fst]; [done |].
      destruct (cancels k cs); cbn [negb]; by rewrite IHm.
Qed.

(** *** What callbacks can and cannot change *)

Lemma schedule_log cb at_ s :
  invoked (snd (schedule cb at_ s)) = invoked s
  /\ flushes (snd (schedule cb at_ s)) = flushes s.
Proof.
  unfold schedule, ensureRaf. cbn [set_nextId set_pending rafId].
  by destruct (rafId s).
Qed.

Lemma exec_log (p : Prog CB) s :
  invoked (exec p s) = invoked s /\ flushes (exec p s) = flushes s.
Proof.
  revert s. induction p as [|cb at_ k IH|id k IH]; intros s; [done | |].
  - cbn [exec]. destruct (schedule cb at_ s) as [id s'] eqn:Hs.
    destruct (IH id s') as [-> ->].
    change s' with (snd (id, s')). rewrite <- Hs. apply schedule_log.
  - cbn [exec]. by destruct (IH (cancel id s)) as [-> ->].
Qed.

Lemma schedule_armed n0 rs0 cb at_ s :
  armed_since n0 rs0 s -> n0 <= nextId s ->
  armed_since n0 rs0 (snd (schedule cb at_ s)).
Proof.
  intros [(Hr & Hq & Hn) | (h & Hr & Hq & Hn)] Hle; right.
  - exists (nextHandle s). unfold schedule, ensureRaf.
    fields. rewrite Hr. fields.
    rewrite Hq. split_and!; [done | done | lia].
  - exists h. unfold schedule, ensureRaf.
    fields. rewrite Hr. fields. split_and!; [done | done | lia].
Qed.

Lemma schedule_fresh n0 cb at_ s :
  fresh_since n0 s -> fresh_since n0 (snd (schedule cb at_ s)).
Proof.
  intros [Hk Hn]. unfold fresh_since.
  assert (handles_issued s) as Hs.
  { eapply Forall_impl; [exact Hk |]. cbn beta. intros; lia. }
  rewrite schedule_pending, schedule_nextId by done. split; [| lia].
  unfold JsMap.keys. rewrite List.map_app. apply Forall_app. split.
  - eapply Forall_impl; [exact Hk |]. cbn beta. intros; lia.
  - repeat constructor; cbn [fst]; lia.
Qed.

Lemma cancel_fresh n0 id s : fresh_since n0 s -> fresh_since n0 (cancel id s).
Proof. intros [Hk Hn]. split; [by apply keys_delete | done]. Qed.

Lemma exec_since n0 rs0 (p : Prog CB) s :
  armed_since n0 rs0 s -> fresh_since n0 s ->
  armed_since n0 rs0 (exec p s) /\ fresh_since n0 (exec p s).
Proof.
  revert s. induction p as [|cb at_ k IH|id k IH]; intros s Ha Hf; [done | |].
  - cbn [exec]. destruct (schedule cb at_ s) as [id s'] eqn:Hs.
    assert (s' = snd (schedule cb at_ s)) as -> by by rewrite Hs.
    apply IH; [apply schedule_armed; [done | apply Hf] | by apply schedule_fresh].
  - cbn [exec]. apply IH; [exact Ha | by apply cancel_fresh].
Qed.

Lemma invoke_since n0 rs0 now s e :
  armed_since n0 rs0 s -> fresh_since n0 s ->
  armed_since n0 rs0 (invoke body now s e)
  /\ fresh_since n0 (invoke body now s e).
Proof. intros Ha Hf. unfold invoke. by apply exec_since. Qed.

Lemma invoke_log now s e :
  invoked (invoke body now s e) = (invoked s ++ [invocation now e])%list
  /\ flushes (invoke body now s e) = flushes s.
Proof. unfold invoke. by destruct (exec_log (body (callback e) now (scheduledAt e))
    (mk (pending s) (nextId s) (rafId s) (requests s) (nextHandle s)
        (invoked s ++ [(callback e, now, scheduledAt e)]) (flushes s)))
    as [-> ->]. Qed.

(** The batch loop of [flush]: it invokes the entries it was given, in
    order, whatever the callbacks schedule or cancel meanwhile. *)
Lemma batch_spec n0 rs0 now (entries : list (PendingRender CB)) s :
  armed_since n0 rs0 s -> fresh_since n0 s ->
  let s' := fold_left (invoke body now) entries s in
  invoked s' = (invoked s ++ List.map (invocation now) entries)%list
  /\ flushes s' = flushes s
  /\ armed_since n0 rs0 s' /\ fresh_since n0 s'.
Proof.
  revert s. induction entries as [|e entries IH]; intros s Ha Hf; cbn zeta.
  - cbn [fold_left List.map]. by rewrite app_nil_r.
  - cbn [fold_left List.map].
    destruct (invoke_since n0 rs0 now s e Ha Hf) as [Ha' Hf'].
    destruct (IH _ Ha' Hf') as (-> & -> & ? & ?).
    destruct (invoke_log now s e) as [-> ->].
    by rewrite <- app_assoc.
Qed.

(** The whole of [flush]. *)
Lemma flush_spec now s :
  let s' := flush body now s in
  invoked s'
    = (invoked s ++ List.map (invocation now) (JsMap.values (pending s)))%list
  /\ flushes s' = S (flushes s)
  /\ armed_since (nextId s) (requests s) s'
  /\ fresh_since (nextId s) s'.
Proof.
  cbn zeta. unfold flush.
  set (s2 := set_pending [] _).
  change (JsMap.values (pending (set_rafId None _)))
    with (JsMap.values (pending s)).
  change (JsMap.size (pending (set_rafId None _)))
    with (JsMap.size (pending s)).
  destruct (JsMap.size (pending s) =? 0) eqn:Hsz.
  - unfold JsMap.size in Hsz. destruct (pending s) eqn:Hp; [| done].
    fields. cbn [JsMap.values List.map]. rewrite app_nil_r.
    split_and!; [done | done | by left |].
    split; [constructor | fields; lia].
  - assert (armed_since (nextId s) (requests s) s2) as Ha by by left.
    assert (fresh_since (nextId s) s2) as Hf
      by (split; [constructor | cbn; lia]).
    destruct (batch_spec _ _ now (JsMap.values (pending s)) s2 Ha Hf)
      as (Hi & Hfl & Ha' & Hf').
    set (s3 := fold_left (invoke body now) (JsMap.values (pending s)) s2) in *.
    assert (ensureRaf s3 = s3 \/ (JsMap.size (pending s3) >? 0) = false) as Hre.
    { destruct (JsMap.size (pending s3) >? 0) eqn:Hsz'; [left | by right].
      destruct Ha' as [(_ & _ & Hn) | (h & Hr & _)].
      - destruct Hf' as [Hk _]. rewrite Hn in Hk.
        unfold JsMap.size in Hsz'. destruct (pending s3) as [|[k v] m]; [done |].
        inversion_clear Hk as [|? ? Hk' _]. cbn [fst] in Hk'. lia.
      - unfold ensureRaf. by rewrite Hr. }
    destruct Hre as [-> | ->].
    + by destruct (JsMap.size (pending s3) >? 0).
    + done.
Qed.

(** *** Requests made by calls from outside a flush *)

Lemma call_armed h rs s c :
  rafId s = Some h -> requests s = rs ->
  rafId (call s c) = Some h /\ requests (call s c) = rs.
Proof.
  intros Hr Hq. destruct c as [cb at_ | id]; [| done].
  cbn [call]. unfold schedule, ensureRaf. fields. by rewrite Hr.
Qed.

Lemma calls_armed h rs cs s :
  rafId s = Some h -> requests s = rs ->
  rafId (calls cs s) = Some h /\ requests (calls cs s) = rs.
Proof.
  revert s. induction cs as [|c cs IH]; intros s Hr Hq; [done |].
  destruct (call_armed h rs s c Hr Hq). by apply IH.
Qed.

(** From a scheduler with no request outstanding, calls that include a
    [schedule] leave exactly one request outstanding: the one the first
    [schedule] made. *)
Lemma calls_request_once cs s :
  rafId s = None -> requests s = [] ->
  (exists cb at_, In (CallSchedule cb at_) cs) ->
  rafId (calls cs s) = Some (nextHandle s)
  /\ requests (calls cs s) = [nextHandle s].
Proof.
  revert s. induction cs as [|c cs IH]; intros s Hr Hq (cb & at_ & Hin).
  - destruct Hin.
  - change (calls (c :: cs) s) with (calls cs (call s c)).
    destruct c as [cb' at' | id].
    + apply calls_armed.
      * cbn [call]. unfold schedule, ensureRaf. fields. by rewrite Hr.
      * cbn [call]. unfold schedule, ensureRaf. fields. rewrite Hr. fields.
        by rewrite Hq.
    + destruct Hin as [Heq | Hin]; [discriminate Heq |].
      apply (IH (cancel id s)); [done | done | by exists cb, at_].
Qed.

Lemma cancel_absent id s :
  Forall (fun k => k <> id) (JsMap.keys (pending s)) -> cancel id s = s.
Proof.
  intros Hne. unfold cancel. rewrite delete_absent by done. by destruct s.
Qed.

Lemma new_settled (h : Z) : settled (new (CB := CB) h).
Proof. split; [constructor | by left]. Qed.

(** C2: take the scheduler between flushes, as [new] makes it or as a
    boundary leaves it. Any sequence of [schedule] and [cancel] calls with
    at least one [schedule] leaves exactly one animation-frame request
    outstanding; the next boundary runs [flush] exactly once, and that
    flush invokes, in registration order, exactly the callbacks that were
    registered and not cancelled since: what was pending before the
    sequence and is not cancelled in it, then the registrations of the
    sequence that no later call of it cancels. [cancel] of a handle that is
    not pending changes nothing, and after the boundary that holds of every
    handle handed out before it. The boundary leaves the scheduler between
    flushes again. *)
Theorem schedule_coalesces (now : number) s0 cs :
  settled s0 ->
  (exists cb at_, In (CallSchedule cb at_) cs) ->
  let s := calls cs s0 in
  let s' := boundary body now s in
  (exists h, requests s = [h])
  /\ flushes s' = S (flushes s)
  /\ invoked s'
     = (invoked s
        ++ List.map (invocation now)
             (JsMap.values
                (List.filter (fun kv => negb (cancels (fst kv) cs)) (pending s0)
                 ++ standing (nextId s0) cs)))%list
  /\ (forall id, ~ In id (JsMap.keys (pending s)) -> cancel id s = s)
  /\ (forall id, id < nextId s -> cancel id s' = s')
  /\ settled s'.
Proof.
  intros [Hi0 Hraf] Hsched. cbn zeta.
  pose proof (calls_pending cs s0 Hi0) as Hpend.
  assert (exists h, rafId (calls cs s0) = Some h /\ requests (calls cs s0) = [h])
    as (h & Hr' & Hq').
  { destruct Hraf as [(Hr & Hq & _) | (h & Hr & Hq)].
    - exists (nextHandle s0). by apply calls_request_once.
    - exists h. by apply calls_armed. }
  set (s := calls cs s0) in *.
  unfold boundary. rewrite Hq'. cbn [fold_left].
  set (s1 := mk _ _ _ [] _ _ _).
  destruct (flush_spec now s1) as (Hinv & Hfl & Harmed & Hfresh).
  assert (Hkeys : Forall (fun k => nextId s <= k < nextId (flush body now s1))
                    (JsMap.keys (pending (flush body now s1)))) by apply Hfresh.
  split_and!.
  - by exists h.
  - exact Hfl.
  - rewrite Hinv. subst s1. fields. by rewrite Hpend.
  - intros id Hid. apply cancel_absent. apply Forall_forall.
    intros k Hk ->. apply Hid. by apply list_elem_of_In.
  - intros id Hid. apply cancel_absent.
    eapply Forall_impl; [exact Hkeys |]. cbn beta. intros k Hk'. lia.
  - split.
    + eapply Forall_impl; [exact Hkeys |]. cbn beta. intros k Hk'. lia.
    + destruct Harmed as [(Hnone & Hreq & Hn) | (h' & Hsome & Hreq & _)].
      * left. split_and!; [done | done |].
        subst s1. fields. cbn [nextId] in Hn, Hkeys. rewrite Hn in Hkeys.
        destruct (pending (flush body now _)) as [|[k v] m]; [done |].
        inversion_clear Hkeys as [|? ? Hk' _]. cbn [fst] in Hk'. lia.
      * right. by exists h'.
Qed.

(** *** The calls made during a flush *)

Lemma call_core s1 s2 c :
  core s1 = core s2 -> core (call s1 c) = core (call s2 c).
Proof.
  unfold core. intros H. injection H as Hp Hn Hr Hq Hh.
  destruct c as [cb at_ | id].
  - cbn [call]. unfold schedule, ensureRaf. fields. rewrite Hp, Hn, Hr.
    destruct (rafId s2) eqn:E; fields; by rewrite ?Hq, ?Hh, ?Hr, ?E.
  - cbn [call]. unfold cancel. fields. by rewrite Hp, Hn, Hr, Hq, Hh.
Qed.

Lemma calls_core cs s1 s2 :
  core s1 = core s2 -> core (calls cs s1) = core (calls cs s2).
Proof.
  revert s1 s2. induction cs as [|c cs IH]; intros s1 s2 H; [done |].
  apply IH. by apply call_core.
Qed.

Lemma calls_app cs1 cs2 s : calls (cs1 ++ cs2) s = calls cs2 (calls cs1 s).
Proof. unfold calls. apply fold_left_app. Qed.

Lemma calls_nextId cs s : nextId (calls cs s) = nextId s + scheduled cs.
Proof.
  revert s. induction cs as [|c cs IH]; intros s.
  - unfold scheduled. cbn [calls fold_left List.filter List.length]. lia.
  - change (calls (c :: cs) s) with (calls cs (call s c)). rewrite IH.
    destruct c as [cb at_ | id].
    + cbn [call]. rewrite schedule_nextId. unfold scheduled.
      cbn [List.filter List.length]. lia.
    + cbn [call]. unfold scheduled. cbn [List.filter]. reflexivity.
Qed.

Lemma scheduled_pos cs :
  0 < scheduled cs <-> exists cb at_, In (CallSchedule cb at_) cs.
Proof.
  unfold scheduled. induction cs as [|c cs IH].
  - cbn [List.filter List.length]. split; [lia | by intros (? & ? & [])].
  - destruct c as [cb at_ | id]; cbn [List.filter List.length].
    + split; [| lia]. intros _. exists cb, at_. by left.
    + rewrite IH. split; intros (cb & at_ & H); exists cb, at_.
      * by right.
      * by destruct H.
Qed.

(** Running a callback is making its calls. *)
Lemma exec_calls (p : Prog CB) s : exec p s = calls (calls_of p (nextId s)) s.
Proof.
  revert s. induction p as [|cb at_ k IH|id k IH]; intros s; [done | |].
  - cbn [exec calls_of]. destruct (schedule cb at_ s) as [id s'] eqn:Hs.
    assert (id = nextId s) as ->
      by (by rewrite <- (schedule_handle cb at_ s), Hs).
    assert (s' = snd (schedule cb at_ s)) as Hs' by by rewrite Hs.
    rewrite IH. change (calls (?c :: ?cs) s) with (calls cs (call s c)).
    cbn [call]. rewrite <- Hs'. f_equal. f_equal.
    rewrite Hs'. apply schedule_nextId.
  - cbn [exec calls_of]. rewrite IH. reflexivity.
Qed.

Lemma invoke_core now s e :
  core (invoke body now s e)
  = core (calls (calls_of (body (callback e) now (scheduledAt e)) (nextId s)) s).
Proof. unfold invoke. rewrite exec_calls. fields. by apply calls_core. Qed.

Lemma batch_core now (entries : list (PendingRender CB)) s :
  core (fold_left (invoke body now) entries s)
  = core (calls (calls_during body now entries (nextId s)) s).
Proof.
  revert s. induction entries as [|e entries IH]; intros s; [done |].
  cbn [fold_left calls_during]. rewrite IH, calls_app.
  pose proof (invoke_core now s e) as Hc.
  assert (nextId (invoke body now s e)
          = nextId s
            + scheduled (calls_of (body (callback e) now (scheduledAt e))
                           (nextId s))) as ->.
  { rewrite <- calls_nextId. unfold core in Hc. by injection Hc. }
  by apply calls_core.
Qed.

Lemma ensureRaf_pending s : pending (ensureRaf s) = pending s.
Proof. unfold ensureRaf. by destruct (rafId s). Qed.

(** What is pending after a flush: the registrations made during it that
    were not cancelled again, oldest first. *)
Lemma flush_pending now s :
  pending (flush body now s)
  = standing (nextId s)
      (calls_during body now (JsMap.values (pending s)) (nextId s)).
Proof.
  unfold flush. fields.
  destruct (JsMap.size (pending s) =? 0) eqn:Hsz.
  - unfold JsMap.size in Hsz. destruct (pending s) eqn:Hp; [| done].
    fields. by rewrite ?Hp.
  - set (s2 := set_pending [] _).
    set (s3 := fold_left _ _ s2).
    assert (pending s3
            = standing (nextId s)
                (calls_during body now (JsMap.values (pending s)) (nextId s)))
      as Hp.
    { pose proof (batch_core now (JsMap.values (pending s)) s2) as Hc.
      fold s3 in Hc. unfold core in Hc. injection Hc as Hc _ _ _ _.
      rewrite Hc. change (nextId s2) with (nextId s).
      rewrite calls_pending by constructor.
      change (pending s2) with (@nil (Z * PendingRender CB)). done. }
    destruct (JsMap.size (pending s3) >? 0);
      [by rewrite ensureRaf_pending | done].
Qed.

Lemma flush_nextId now s :
  nextId (flush body now s)
  = nextId s
    + scheduled (calls_during body now (JsMap.values (pending s)) (nextId s)).
Proof.
  unfold flush. fields.
  destruct (JsMap.size (pending s) =? 0) eqn:Hsz.
  - unfold JsMap.size in Hsz. destruct (pending s) eqn:Hp; [| done].
    fields. cbn [JsMap.values List.map calls_during]. unfold scheduled.
    cbn [List.filter List.length]. lia.
  - set (s2 := set_pending [] _).
    set (s3 := fold_left _ _ s2).
    assert (nextId s3
            = nextId s
              + scheduled (calls_during body now (JsMap.values (pending s))
                             (nextId s))) as Hn.
    { pose proof (batch_core now (JsMap.values (pending s)) s2) as Hc.
      fold s3 in Hc. unfold core in Hc. injection Hc as _ Hc _ _ _.
      rewrite Hc. by rewrite calls_nextId. }
    destruct (JsMap.size (pending s3) >? 0); [| done].
    unfold ensureRaf. by destruct (rafId s3).
Qed.

(** The boundary that follows a flush, with no call in between: it
    invokes what the flush left pending, in one flush. *)
Lemma boundary_after_flush now now' s :
  requests s = [] ->
  let s' := flush body now s in
  let s'' := boundary body now' s' in
  invoked s''
  = (invoked s' ++ List.map (invocation now') (JsMap.values (pending s')))%list
  /\ (pending s' <> [] -> flushes s'' = S (flushes s')).
Proof.
  intros Hq. cbn zeta.
  destruct (flush_spec now s) as (_ & _ & Ha & Hk & Hn).
  rewrite Hq in Ha. unfold boundary.
  destruct Ha as [(Hr & Hq' & Heq) | (h & Hr & Hq' & Hlt)].
  - rewrite Hq'. cbn [fold_left]. fields.
    rewrite Heq in Hk.
    destruct (pending (flush body now s)) as [|[k v] m].
    + cbn [JsMap.values List.map]. by rewrite app_nil_r.
    + inversion_clear Hk as [|? ? Hk' _]. cbn [fst] in Hk'. lia.
  - rewrite Hq'. cbn [app fold_left].
    set (s1 := mk _ _ _ [] _ _ _).
    destruct (flush_spec now' s1) as (Hinv & Hfl & _).
    split; [exact Hinv | intros _; exact Hfl].
Qed.

(** C5, as amended: a flush invokes exactly the entries that were pending
    when it started, in registration order, so nothing registered during
    the flush runs in it. What is pending afterwards is exactly what was
    registered during the flush and not cancelled again in it, oldest
    first; the flush is entered once and no callback enters it again. A
    boundary request is made by the first [schedule] call during the
    flush and by nothing else: after the flush one new request is
    outstanding when at least one [schedule] call was made during it,
    and none otherwise; in particular one is outstanding whenever the
    fresh pending set is not empty. When the flush was run by a boundary
    and no call is made before the next one, the next boundary invokes
    exactly the registrations of the fresh set, in registration order, in
    one flush. *)
Theorem flush_defers_new_work (now : number) s :
  let s' := flush body now s in
  let during :=
    calls_during body now (JsMap.values (pending s)) (nextId s) in
  invoked s'
    = (invoked s ++ List.map (invocation now) (JsMap.values (pending s)))%list
  /\ pending s' = standing (nextId s) during
  /\ Forall (fun k => nextId s <= k < nextId s') (JsMap.keys (pending s'))
  /\ flushes s' = S (flushes s)
  /\ ((rafId s' = None /\ requests s' = requests s /\ nextId s' = nextId s)
      \/ (exists h, rafId s' = Some h
                    /\ requests s' = (requests s ++ [h])%list
                    /\ nextId s < nextId s'))
  /\ ((exists cb at_, In (CallSchedule cb at_) during)
      <-> exists h, requests s' = (requests s ++ [h])%list)
  /\ (pending s' <> [] -> exists h, requests s' = (requests s ++ [h])%list)
  /\ (requests s = [] ->
      forall now',
        let s'' := boundary body now' s' in
        invoked s''
        = (invoked s'
           ++ List.map (invocation now')
                (JsMap.values (standing (nextId s) during)))%list
        /\ (pending s' <> [] -> flushes s'' = S (flushes s'))).
Proof.
  cbn zeta. destruct (flush_spec now s) as (Hinv & Hfl & Ha & Hk & Hn).
  pose proof (flush_pending now s) as Hpend.
  pose proof (flush_nextId now s) as Hnext.
  split_and!; [done | done | done | done | done | | |].
  - rewrite <- scheduled_pos. split.
    + intros Hpos. destruct Ha as [(_ & _ & Heq) | (h & _ & Hq & _)]; [lia |].
      by exists h.
    + intros [h Hq]. destruct Ha as [(_ & Hq' & _) | (_ & _ & _ & Hlt)]; [| lia].
      rewrite Hq' in Hq. apply (f_equal (@List.length Z)) in Hq.
      rewrite length_app in Hq. cbn [List.length] in Hq. lia.
  - intros Hne. destruct Ha as [(_ & _ & Heq) | (h & _ & Hq & _)].
    + rewrite Heq in Hk. destruct (pending (flush body now s)) as [|[k v] m];
        [done |]. inversion_clear Hk as [|? ? Hk' _]. cbn [fst] in Hk'. lia.
    + by exists h.
  - intros Hq now'. rewrite <- Hpend.
    apply (boundary_after_flush now now' s Hq).
Qed.

End WithCallbacks.

(** *** Concrete runs *)

(** C5, counterexample: the callback registers a callback and cancels it
    again. After the flush nothing is pending, and yet a request has been
    armed. *)
Lemma flush_rearms_with_nothing_pending :
  ~ rearms_iff_pending register_and_cancel Num.zero one_pending.
Proof.
  unfold rearms_iff_pending. intros [Hfwd _].
  apply Hfwd; [| reflexivity]. vm_compute. discriminate.
Qed.

Lemma flush_defers_new_work_witness :
  pending (flush reschedule Num.zero one_pending)
  = [(2, Build_PendingRender O None)]
  /\ invoked (flush reschedule Num.zero one_pending) = [(O, Num.zero, None)]
  /\ (exists h, requests (flush reschedule Num.zero one_pending) = [h])
  /\ invoked (boundary reschedule Num.one
                (flush reschedule Num.zero one_pending))
     = [(O, Num.zero, None); (O, Num.one, None)].
Proof.
  destruct (flush_defers_new_work reschedule Num.zero one_pending)
    as (Hinv & Hpend & _ & _ & _ & _ & Harmed & Hnext).
  destruct (Hnext eq_refl Num.one) as [Hinv' _].
  split_and!.
  - exact Hpend.
  - exact Hinv.
  - apply Harmed. rewrite Hpend. discriminate.
  - rewrite Hinv', Hinv. reflexivity.
Defined.

Lemma schedule_coalesces_witness :
  let cs := [CallSchedule 5%nat None; CallSchedule 6%nat None; CallCancel 2;
             CallCancel 9; CallSchedule 7%nat (Some Num.one)] in
  let s := calls cs (new 1) in
  (exists h, requests s = [h])
  /\ invoked (boundary register_and_cancel Num.zero s)
     = [(5%nat, Num.zero, None); (7%nat, Num.zero, Some Num.one)].
Proof.
  cbn zeta.
  destruct (schedule_coalesces register_and_cancel Num.zero (new 1)
              [CallSchedule 5%nat None; CallSchedule 6%nat None; CallCancel 2;
               CallCancel 9; CallSchedule 7%nat (Some Num.one)]
              (conj (List.Forall_nil _)
                    (or_introl (conj eq_refl (conj eq_refl eq_refl))))
              (ex_intro _ 5%nat (ex_intro _ None (or_introl eq_refl))))
    as (Hq & _ & Hinv & _).
  split; [exact Hq | exact Hinv].
Defined.

End SchedulerProps.

(** ** Canvas renderer *)

Module RendererProps.
Import CanvasRenderer RendererSpec.
Local Open Scope js_scope.

Lemma returns_ret {A} (a : A) : returns (ret a).
Proof. intros this Hthis. by exists a, this. Qed.

Lemma returns_bind {A B} (m : M A) (k : A -> M B) :
  returns m -> (forall a, returns (k a)) -> returns (bind m k).
Proof.
  intros Hm Hk this Hthis. destruct (Hm this Hthis) as (a & this' & Hrun & H').
  destruct (Hk a this' H') as (b & this'' & Hrun' & H'').
  exists b, this''. unfold bind. by rewrite Hrun.
Qed.

Lemma returns_gets {A} (f : t -> A) : returns (gets f).
Proof. intros this Hthis. by exists (f this), this. Qed.

Lemma returns_modify (f : t -> t) :
  (forall this, attached this -> attached (f this)) -> returns (modify f).
Proof. intros Hf this Hthis. exists tt, (f this). split; [done | by apply Hf]. Qed.

Lemma returns_on_ctx (f : Ctx2D.t -> Ctx2D.t) : returns (on_ctx f).
Proof.
  apply returns_modify. intros this [[c Hc] Hcv]. split; [| done].
  cbn [set_ctx ctx]. rewrite Hc. by eexists.
Qed.

Lemma returns_on_canvas (f : HTMLCanvasElement.t -> HTMLCanvasElement.t) :
  returns (on_canvas f).
Proof.
  apply returns_modify. intros this [Hc [cv Hcv]]. split; [done |].
  cbn [set_canvas canvas]. rewrite Hcv. by eexists.
Qed.

Lemma returns_requireContext : returns requireContext.
Proof.
  intros this [[c Hc] [cv Hcv]]. exists tt, this. unfold requireContext.
  rewrite Hc, Hcv. by repeat split; eexists.
Qed.

Lemma returns_requireCanvas : returns requireCanvas.
Proof.
  intros this [[c Hc] [cv Hcv]]. exists cv, this. unfold requireCanvas.
  rewrite Hcv. by repeat split; eexists.
Qed.

Lemma returns_for_each {A} (l : list A) (f : A -> M unit) :
  (forall a, returns (f a)) -> returns (for_each l f).
Proof.
  intros Hf. induction l as [|a l IH]; [apply returns_ret |].
  cbn [for_each]. apply returns_bind; [apply Hf | intros _; apply IH].
Qed.

(** Follow the structure of a method body. *)
Ltac returns_step :=
  lazymatch goal with
  | |- returns (ret _) => apply returns_ret
  | |- returns (gets _) => apply returns_gets
  | |- returns (on_ctx _) => apply returns_on_ctx
  | |- returns (on_canvas _) => apply returns_on_canvas
  | |- returns requireContext => apply returns_requireContext
  | |- returns requireCanvas => apply returns_requireCanvas
  | |- returns (modify _) => apply returns_modify; intros ? ?; assumption
  | |- returns (for_each _ _) => apply returns_for_each; intros ?
  | |- returns (bind _ _) => apply returns_bind; [| intros ?]
  | |- returns (if ?b then _ else _) => destruct b
  | |- returns (match ?x with _ => _ end) => destruct x
  | |- returns (let _ := _ in _) => cbv zeta
  end.

Ltac returns_auto := repeat returns_step.

(** *** Methods that only draw *)

Lemma draws_ret : draws (ret tt).
Proof.
  intros this c Hc _. exists c, []. rewrite app_nil_r. split; [| done].
  destruct this. cbn [ctx] in Hc. by subst.
Qed.

Lemma draws_bind (m : M unit) (k : unit -> M unit) :
  draws m -> (forall u, draws (k u)) -> draws (bind m k).
Proof.
  intros Hm Hk this c Hc Hcv.
  destruct (Hm this c Hc Hcv) as (c1 & l1 & Hrun & Hp).
  destruct (Hk tt (set_ctx (Some c1) this) c1 eq_refl Hcv)
    as (c2 & l2 & Hrun2 & Hp2).
  exists c2, (l1 ++ l2)%list. unfold bind. rewrite Hrun, Hrun2.
  split; [reflexivity |]. by rewrite Hp2, Hp, app_assoc.
Qed.

Lemma draws_gets {A} (f : t -> A) (k : A -> M unit) :
  (forall a, draws (k a)) -> draws (bind (gets f) k).
Proof. intros Hk this c Hc Hcv. apply (Hk (f this) this c Hc Hcv). Qed.

Lemma draws_requireContext (k : unit -> M unit) :
  (forall u, draws (k u)) -> draws (bind requireContext k).
Proof.
  intros Hk this c Hc [cv Hcv]. unfold bind, requireContext. rewrite Hc, Hcv.
  apply (Hk tt this c Hc). by exists cv.
Qed.

Lemma draws_requireCanvas (k : HTMLCanvasElement.t -> M unit) :
  (forall cv, draws (k cv)) -> draws (bind requireCanvas k).
Proof.
  intros Hk this c Hc [cv Hcv]. unfold bind, requireCanvas. rewrite Hcv.
  apply (Hk cv this c Hc). by exists cv.
Qed.

Lemma draws_on_ctx (f : Ctx2D.t -> Ctx2D.t) : adds f -> draws (on_ctx f).
Proof.
  intros Hf this c Hc _. destruct (Hf c) as [l Hl]. exists (f c), l.
  split; [| done]. unfold on_ctx, modify. by rewrite Hc.
Qed.

Lemma adds_keep (f : Ctx2D.t -> Ctx2D.t) :
  (forall c, Ctx2D.painted (f c) = Ctx2D.painted c) -> adds f.
Proof. intros Hf c. exists []. by rewrite app_nil_r. Qed.

Lemma draws_for_each {A} (l : list A) (f : A -> M unit) :
  (forall a, draws (f a)) -> draws (for_each l f).
Proof.
  intros Hf. induction l as [|a l IH]; [apply draws_ret |].
  cbn [for_each]. apply draws_bind; [apply Hf | intros _; apply IH].
Qed.

Ltac adds_solve :=
  first
    [ apply adds_keep; intros ?; reflexivity
    | intros ?; eexists; reflexivity ].

Ltac draws_step :=
  lazymatch goal with
  | |- draws (ret _) => apply draws_ret
  | |- draws (on_ctx _) => apply draws_on_ctx; adds_solve
  | |- draws (for_each _ _) => apply draws_for_each; intros ?
  | |- draws (bind (gets _) _) => apply draws_gets; intros ?
  | |- draws (bind requireContext _) => apply draws_requireContext; intros ?
  | |- draws (bind requireCanvas _) => apply draws_requireCanvas; intros ?
  | |- draws (bind _ _) => apply draws_bind; [| intros ?]
  | |- draws (if ?b then _ else _) => destruct b
  | |- draws (match ?x with _ => _ end) => destruct x
  | |- draws (let _ := _ in _) => cbv zeta
  end.

Ltac draws_auto := repeat draws_step.

Section Methods.
Context (CellFlags : CellFlags.t) (DirtyState_FULL : Z)
        (measureText : number -> string -> TextMetrics).

Local Abbreviation backgroundOf := (RendererSpec.backgroundOf CellFlags).
Local Abbreviation ownBackground := (RendererSpec.ownBackground CellFlags).
Local Abbreviation backgroundPaints := (RendererSpec.backgroundPaints CellFlags).
Local Abbreviation fullRepaint := (RendererSpec.fullRepaint DirtyState_FULL).
Local Abbreviation addRow := (RendererSpec.addRow DirtyState_FULL).
Local Abbreviation pass1Paints := (RendererSpec.pass1Paints CellFlags).

Lemma returns_resize cols rows : returns (resize cols rows).
Proof. unfold resize. returns_auto. Qed.

Lemma returns_clear : returns clear.
Proof. unfold clear. returns_auto. Qed.

Lemma returns_renderCellBackground cell x y :
  returns (renderCellBackground CellFlags cell x y).
Proof. unfold renderCellBackground. returns_auto. Qed.

Lemma returns_renderCellText cell x y :
  returns (renderCellText CellFlags cell x y).
Proof. unfold renderCellText, strokeLine. returns_auto. Qed.

Lemma returns_renderLine cells row cols :
  returns (renderLine CellFlags cells row cols).
Proof.
  unfold renderLine, pass, for_range, cell_step.
  returns_auto;
    first [apply returns_renderCellBackground | apply returns_renderCellText].
Qed.

Lemma returns_renderCursor x y style : returns (renderCursor x y style).
Proof. unfold renderCursor. returns_auto. Qed.

Lemma returns_renderScrollbar viewportY scrollbackLength visibleRows opacity :
  returns (renderScrollbar viewportY scrollbackLength visibleRows opacity).
Proof. unfold renderScrollbar. returns_auto. Qed.

Lemma returns_render input :
  returns (render CellFlags DirtyState_FULL input).
Proof.
  unfold render. returns_auto;
    first [ apply returns_renderLine | apply returns_renderCursor
          | apply returns_renderScrollbar ].
Qed.

Lemma draws_renderCellBackground cell x y :
  draws (renderCellBackground CellFlags cell x y).
Proof. unfold renderCellBackground. draws_auto. Qed.

Lemma draws_renderCellText cell x y :
  draws (renderCellText CellFlags cell x y).
Proof. unfold renderCellText, strokeLine. draws_auto. Qed.

Lemma draws_pass paintCell cells row cols :
  (forall cell x y, draws (paintCell cell x y)) ->
  draws (pass paintCell cells row cols).
Proof.
  intros H. unfold pass, for_range, cell_step. draws_auto. apply H.
Qed.

Lemma draws_renderLine cells row cols :
  draws (renderLine CellFlags cells row cols).
Proof.
  unfold renderLine. draws_auto;
    apply draws_pass; intros;
    first [apply draws_renderCellBackground | apply draws_renderCellText].
Qed.

Lemma draws_renderCursor x y style : draws (renderCursor x y style).
Proof. unfold renderCursor. draws_auto. Qed.

Lemma draws_renderScrollbar viewportY scrollbackLength visibleRows opacity :
  draws (renderScrollbar viewportY scrollbackLength visibleRows opacity).
Proof. unfold renderScrollbar. draws_auto. Qed.

(** *** Pass 1: cell backgrounds *)

Lemma renderCellBackground_paints this c cv cell x y :
  ctx this = Some c -> canvas this = Some cv ->
  exists c',
    renderCellBackground CellFlags cell x y this
      = (Ok tt, set_ctx (Some c') this)
    /\ Ctx2D.painted c'
       = (Ctx2D.painted c
          ++ backgroundPaints this (Ctx2D.globalAlpha c) cell x y)%list.
Proof.
  intros Hc Hcv. destruct this as [cv0 c0 fs ff th dpr m sel hov gr].
  cbn [ctx canvas] in Hc, Hcv. subst cv0 c0.
  unfold renderCellBackground, backgroundPaints, ownBackground,
    selectionOverlay, bind, requireContext, gets, on_ctx, modify, ret.
  cbn [ctx canvas metrics theme set_ctx fmap option_fmap option_map].
  fold (backgroundOf cell).
  destruct (backgroundOf cell) as [[r g] b].
  destruct ((r =? 0) && (g =? 0) && (b =? 0)); cbn [negb];
    cbn [ctx canvas metrics theme set_ctx fmap option_fmap option_map];
    destruct (isInSelection _ x y);
    cbn [ctx canvas metrics theme set_ctx fmap option_fmap option_map];
    (eexists; split; [reflexivity |]);
    cbn [Ctx2D.painted Ctx2D.fillRect Ctx2D.paint Ctx2D.set_fillStyle
         Ctx2D.set_globalAlpha Ctx2D.fillStyle Ctx2D.globalAlpha
         fillOf cellRect app];
    rewrite <- ?app_assoc, ?app_nil_r; reflexivity.
Qed.

(** *** Dirty rows *)

Lemma rowsToRender_fold input :
  rowsToRender DirtyState_FULL input
  = fold_left (addRow input) (seqZ 0 (RenderInput.rows input)) ∅.
Proof. reflexivity. Qed.

Lemma addRow_elem input acc y' y :
  y ∈ addRow input acc y' <->
  y ∈ acc
  \/ ((fullRepaint input || flagged input y') = true
      /\ (y = y' \/ (y = y' - 1 /\ 0 < y')
          \/ (y = y' + 1 /\ y' < RenderInput.rows input - 1))).
Proof.
  unfold addRow. destruct (fullRepaint input || flagged input y').
  - cbn zeta.
    destruct (Z.gtb_spec y' 0), (Z.ltb_spec y' (RenderInput.rows input - 1));
      rewrite ?elem_of_union, ?elem_of_singleton; intuition lia.
  - intuition discriminate.
Qed.

Lemma fold_addRow_elem input (l : list Z) acc y :
  y ∈ fold_left (addRow input) l acc <->
  y ∈ acc
  \/ exists y', y' ∈ l
       /\ (fullRepaint input || flagged input y') = true
       /\ (y = y' \/ (y = y' - 1 /\ 0 < y')
           \/ (y = y' + 1 /\ y' < RenderInput.rows input - 1)).
Proof.
  revert acc. induction l as [|a l IH]; intros acc; cbn [fold_left].
  - split; [by left |]. intros [? | (y' & Hin & _)]; [done |].
    by apply elem_of_nil in Hin.
  - rewrite IH, addRow_elem. split.
    + intros [[? | [Hn Hy]] | (y' & Hin & Hn & Hy)].
      * by left.
      * right. exists a. split; [by left | done].
      * right. exists y'. split; [by right | done].
    + intros [? | (y' & Hin & Hn & Hy)]; [by left; left |].
      apply elem_of_cons in Hin as [-> | Hin].
      * left. by right.
      * right. by exists y'.
Qed.

(** The set built by the first loop. *)
Lemma rowsToRender_elem input y :
  y ∈ rowsToRender DirtyState_FULL input <->
  0 <= y < RenderInput.rows input
  /\ exists y', 0 <= y' < RenderInput.rows input
       /\ (fullRepaint input || flagged input y') = true
       /\ near y y'.
Proof.
  rewrite rowsToRender_fold, fold_addRow_elem. split.
  - intros [Hy | (y' & Hin & Hn & Hy)]; [by apply elem_of_empty in Hy |].
    apply elem_of_seqZ in Hin. split; [lia |].
    exists y'. split_and!; [lia | lia | done | unfold near; lia].
  - intros (Hy & y' & Hy' & Hn & Hnear). right. exists y'.
    split_and!; [apply elem_of_seqZ; lia | done | unfold near in Hnear; lia].
Qed.

Lemma repaintedRows_elem input y :
  y ∈ repaintedRows DirtyState_FULL input
  <-> y ∈ rowsToRender DirtyState_FULL input.
Proof.
  unfold repaintedRows. rewrite list_elem_of_In, List.filter_In.
  rewrite bool_decide_eq_true, <- list_elem_of_In. split; [by intros [_ ?] |].
  intros Hy. split; [| done]. apply rowsToRender_elem in Hy.
  apply elem_of_seqZ. lia.
Qed.

(** *** Pass 2: the colour of selected text *)

Lemma renderCellText_selected this c cv cell x y col :
  ctx this = Some c -> canvas this = Some cv ->
  TerminalTheme.selectionForeground (theme this) = Some col ->
  isInSelection this x y = true ->
  has (GhosttyCell.flags cell) (CellFlags.INVISIBLE CellFlags) = false ->
  exists c' alpha font text tx ty rest,
    renderCellText CellFlags cell x y this = (Ok tt, set_ctx (Some c') this)
    /\ Ctx2D.painted c'
       = (Ctx2D.painted c
          ++ FillText (Theme.rgbaToCss col) alpha font text tx ty :: rest)%list.
Proof.
  intros Hc Hcv Hfg Hsel Hvis.
  destruct this as [cv0 c0 fs ff th dpr m sel hov gr].
  cbn [ctx canvas theme] in Hc, Hcv, Hfg. subst cv0 c0.
  unfold renderCellText, strokeLine, bind, requireContext, gets, on_ctx,
    modify, ret.
  cbn [ctx canvas metrics theme fontSize fontFamily currentHoveredLink
       currentGetGraphemeString set_ctx fmap option_fmap option_map].
  rewrite Hvis, Hsel.
  destruct (if has _ (CellFlags.INVERSE _) then _ else _) as [[fr fg] fb].
  cbn [ctx canvas metrics theme fontSize fontFamily currentHoveredLink
       currentGetGraphemeString set_ctx fmap option_fmap option_map].
  rewrite Hfg.
  destruct (has _ (CellFlags.FAINT _));
    cbn [ctx canvas metrics theme fontSize fontFamily currentHoveredLink
         currentGetGraphemeString set_ctx fmap option_fmap option_map];
    destruct (has _ (CellFlags.UNDERLINE _));
    cbn [ctx canvas metrics theme fontSize fontFamily currentHoveredLink
         currentGetGraphemeString set_ctx fmap option_fmap option_map];
    destruct (has _ (CellFlags.STRIKETHROUGH _));
    cbn [ctx canvas metrics theme fontSize fontFamily currentHoveredLink
         currentGetGraphemeString set_ctx fmap option_fmap option_map];
    destruct (GhosttyCell.hyperlink_id cell >? 0);
    try destruct (GhosttyCell.hyperlink_id cell =? _);
    cbn [ctx canvas metrics theme fontSize fontFamily currentHoveredLink
         currentGetGraphemeString set_ctx fmap option_fmap option_map];
    destruct (hov ≫= HyperlinkRange.range) as [range|];
    try destruct (_ || _ || _);
    cbn [ctx canvas metrics theme fontSize fontFamily currentHoveredLink
         currentGetGraphemeString set_ctx fmap option_fmap option_map];
    do 7 eexists; (split; [reflexivity |]);
    cbn [Ctx2D.painted Ctx2D.fillRect Ctx2D.fillText Ctx2D.paint
         Ctx2D.set_fillStyle Ctx2D.set_strokeStyle Ctx2D.set_lineWidth
         Ctx2D.set_font Ctx2D.set_path Ctx2D.beginPath Ctx2D.moveTo
         Ctx2D.lineTo Ctx2D.stroke Ctx2D.set_globalAlpha Ctx2D.fillStyle
         Ctx2D.globalAlpha Ctx2D.font Ctx2D.strokeStyle Ctx2D.lineWidth
         Ctx2D.path];
    rewrite <- ?app_assoc; cbn [app]; reflexivity.
Qed.

(** *** The claims about painting *)

(** C3: with no selection range no cell is selected; with a range on
    one row, a cell is selected exactly when it is on that row between
    the two columns, bounds included; with a range over several rows,
    exactly when it is on the first row from the start column on, on a
    row strictly between, or on the last row up to the end column. The
    cells reported selected are the ones painted as selected: pass 1
    paints the cell's own background and then, exactly for them, the
    selection overlay. *)
Theorem selection_is_row_span (this : t) (x y : Z) :
  match currentSelectionRange this with
  | None => isInSelection this x y = false
  | Some sel =>
      let startCol := SelectionRange.startCol sel in
      let startRow := SelectionRange.startRow sel in
      let endCol := SelectionRange.endCol sel in
      let endRow := SelectionRange.endRow sel in
      (startRow = endRow ->
         isInSelection this x y = true
         <-> y = startRow /\ startCol <= x <= endCol)
      /\ (startRow < endRow ->
            isInSelection this x y = true
            <-> (y = startRow /\ x >= startCol)
                \/ startRow < y < endRow
                \/ (y = endRow /\ x <= endCol))
  end
  /\ (forall c cv cell,
        ctx this = Some c -> canvas this = Some cv ->
        exists c',
          renderCellBackground CellFlags cell x y this
            = (Ok tt, set_ctx (Some c') this)
          /\ Ctx2D.painted c'
             = (Ctx2D.painted c
                ++ ownBackground (metrics this) (Ctx2D.globalAlpha c) cell x y
                ++ (if isInSelection this x y then
                      [fillOf
                         (Theme.rgbaToCss
                            (TerminalTheme.selectionBackground (theme this)))
                         (TerminalTheme.selectionOpacity (theme this))
                         (cellRect (metrics this) cell x y)]
                    else []))%list).
Proof.
  split.
  - unfold isInSelection. destruct (currentSelectionRange this) as [sel|];
      [| reflexivity].
    cbn zeta. split.
    + intros ->. rewrite Z.eqb_refl, !andb_true_iff.
      rewrite Z.eqb_eq, Z.geb_le, Z.leb_le. lia.
    + intros Hlt.
      destruct (Z.eqb_spec (SelectionRange.startRow sel)
                  (SelectionRange.endRow sel)) as [? | _]; [lia |].
      destruct (Z.eqb_spec y (SelectionRange.startRow sel)) as [-> | ?].
      { rewrite Z.geb_le. lia. }
      destruct (Z.eqb_spec y (SelectionRange.endRow sel)) as [-> | ?].
      { rewrite Z.leb_le. lia. }
      destruct (Z.gtb_spec y (SelectionRange.startRow sel)),
               (Z.ltb_spec y (SelectionRange.endRow sel));
        cbn [andb]; split; (discriminate || lia || tauto || idtac);
        intros _; lia.
  - intros c cv cell Hc Hcv.
    destruct (renderCellBackground_paints this c cv cell x y Hc Hcv)
      as (c' & Hrun & Hp).
    exists c'. split; [exact Hrun |]. exact Hp.
Qed.

(** [renderLine] clears the row to the theme background, and then runs
    the two passes. *)
Lemma renderLine_clears_first this c cv cells row cols :
  ctx this = Some c -> canvas this = Some cv ->
  renderLine CellFlags cells row cols this
  = (pass (renderCellBackground CellFlags) cells row cols ;;
     pass (renderCellText CellFlags) cells row cols)
      (set_ctx
         (Some (Ctx2D.fillRect Num.zero
                  (Num.of_Z (row * CellMetrics.height (metrics this)))
                  (Num.of_Z (cols * CellMetrics.width (metrics this)))
                  (Num.of_Z (CellMetrics.height (metrics this)))
                  (Ctx2D.set_fillStyle
                     (Theme.rgbaToCss (TerminalTheme.background (theme this)))
                     c)))
         this).
Proof.
  intros Hc Hcv. destruct this as [cv0 c0 fs ff th dpr m sel hov gr].
  cbn [ctx canvas] in Hc, Hcv. subst cv0 c0. reflexivity.
Qed.

(** [renderCellBackground] leaves [globalAlpha] at 1 after a selected
    cell, and as it was after any other. *)
Lemma renderCellBackground_run this c cv cell x y :
  ctx this = Some c -> canvas this = Some cv ->
  exists c',
    renderCellBackground CellFlags cell x y this
      = (Ok tt, set_ctx (Some c') this)
    /\ Ctx2D.painted c'
       = (Ctx2D.painted c
          ++ backgroundPaints this (Ctx2D.globalAlpha c) cell x y)%list
    /\ Ctx2D.globalAlpha c'
       = if isInSelection this x y then Num.one else Ctx2D.globalAlpha c.
Proof.
  intros Hc Hcv. destruct this as [cv0 c0 fs ff th dpr m sel hov gr].
  cbn [ctx canvas] in Hc, Hcv. subst cv0 c0.
  unfold renderCellBackground, RendererSpec.backgroundPaints,
    RendererSpec.ownBackground, selectionOverlay, bind, requireContext,
    gets, on_ctx, modify, ret.
  cbn [ctx canvas metrics theme set_ctx fmap option_fmap option_map].
  fold (backgroundOf cell).
  destruct (backgroundOf cell) as [[r g] b].
  destruct ((r =? 0) && (g =? 0) && (b =? 0)); cbn [negb];
    cbn [ctx canvas metrics theme set_ctx fmap option_fmap option_map];
    destruct (isInSelection _ x y);
    cbn [ctx canvas metrics theme set_ctx fmap option_fmap option_map];
    (eexists; split; [reflexivity |]);
    cbn [Ctx2D.painted Ctx2D.fillRect Ctx2D.paint Ctx2D.set_fillStyle
         Ctx2D.set_globalAlpha Ctx2D.fillStyle Ctx2D.globalAlpha
         fillOf cellRect app];
    rewrite <- ?app_assoc, ?app_nil_r; split; reflexivity.
Qed.

(** The loop of pass 1 over the columns [xs]. *)
Lemma pass1_loop this cv cells row cols (xs : list Z) c :
  ctx this = Some c -> canvas this = Some cv ->
  exists c',
    for_each xs (cell_step (renderCellBackground CellFlags) cells row cols) this
      = (Ok tt, set_ctx (Some c') this)
    /\ Ctx2D.painted c'
       = (Ctx2D.painted c
          ++ pass1Paints this cells row cols (Ctx2D.globalAlpha c) xs)%list.
Proof.
  intros Hc Hcv.
  enough (forall c, exists c',
            for_each xs (cell_step (renderCellBackground CellFlags) cells row cols)
              (set_ctx (Some c) this)
            = (Ok tt, set_ctx (Some c') this)
            /\ Ctx2D.painted c'
               = (Ctx2D.painted c
                  ++ pass1Paints this cells row cols (Ctx2D.globalAlpha c) xs)%list)
    as Haux.
  { destruct this. cbn [ctx] in Hc. subst. apply (Haux c). }
  clear c Hc. induction xs as [|x xs IH]; intros c.
  - exists c. cbn [for_each RendererSpec.pass1Paints]. by rewrite app_nil_r.
  - cbn [for_each RendererSpec.pass1Paints]. unfold bind at 1, cell_step at 1.
    destruct (nth_Z cells (row * cols + x)) as [cell|].
    + destruct (GhosttyCell.width cell =? 0).
      * cbn [ret]. apply IH.
      * destruct (renderCellBackground_run (set_ctx (Some c) this) c cv cell x row
                    eq_refl Hcv) as (c1 & Hrun & Hp & Ha).
        rewrite Hrun.
        change (set_ctx (Some c1) (set_ctx (Some c) this))
          with (set_ctx (Some c1) this).
        destruct (IH c1) as (c2 & Hrun2 & Hp2). exists c2.
        split; [exact Hrun2 |]. rewrite Hp2, Hp, Ha, <- app_assoc. reflexivity.
    + cbn [ret]. apply IH.
Qed.

Lemma pass1_run this c cv cells row cols :
  ctx this = Some c -> canvas this = Some cv ->
  exists c',
    pass (renderCellBackground CellFlags) cells row cols this
      = (Ok tt, set_ctx (Some c') this)
    /\ Ctx2D.painted c'
       = (Ctx2D.painted c
          ++ pass1Paints this cells row cols (Ctx2D.globalAlpha c)
               (seqZ 0 cols))%list.
Proof. intros Hc Hcv. by apply pass1_loop with cv. Qed.

(** The paints of a cell are among those of the pass over its row. *)
Lemma pass1Paints_cell this cells row cols alpha (xs : list Z) x cell :
  x ∈ xs -> nth_Z cells (row * cols + x) = Some cell ->
  GhosttyCell.width cell <> 0 ->
  exists before alpha' after,
    pass1Paints this cells row cols alpha xs
    = (before ++ backgroundPaints this alpha' cell x row ++ after)%list.
Proof.
  intros Hin Hcell Hw. revert alpha.
  induction xs as [|x' xs IH]; intros alpha; [by apply elem_of_nil in Hin |].
  apply elem_of_cons in Hin as [<- | Hin].
  - cbn [RendererSpec.pass1Paints]. rewrite Hcell.
    destruct (Z.eqb_spec (GhosttyCell.width cell) 0); [done |].
    by exists [], alpha, (pass1Paints this cells row cols
                          (if isInSelection this x row then Num.one else alpha) xs).
  - cbn [RendererSpec.pass1Paints].
    destruct (nth_Z cells (row * cols + x')) as [cell'|]; [| by apply IH].
    destruct (GhosttyCell.width cell' =? 0); [by apply IH |].
    destruct (IH Hin (if isInSelection this x' row then Num.one else alpha))
      as (before & alpha' & after & ->).
    exists (backgroundPaints this alpha cell' x' row ++ before)%list, alpha', after.
    by rewrite <- app_assoc.
Qed.

Lemma pass1Paints_set_ctx v this cells row cols alpha (xs : list Z) :
  pass1Paints (set_ctx v this) cells row cols alpha xs
  = pass1Paints this cells row cols alpha xs.
Proof.
  revert alpha. induction xs as [|x xs IH]; intros alpha; [done |].
  cbn [RendererSpec.pass1Paints].
  destruct (nth_Z cells (row * cols + x)) as [cell|]; [| apply IH].
  destruct (GhosttyCell.width cell =? 0); [apply IH |].
  rewrite IH. reflexivity.
Qed.

(** [renderLine]: the row is cleared, pass 1 paints the backgrounds, and
    pass 2 runs on what they leave. *)
Lemma renderLine_pass1 this c cv cells row cols :
  ctx this = Some c -> canvas this = Some cv ->
  exists c',
    renderLine CellFlags cells row cols this
      = pass (renderCellText CellFlags) cells row cols (set_ctx (Some c') this)
    /\ Ctx2D.painted c'
       = (Ctx2D.painted c
          ++ rowClear this (Ctx2D.globalAlpha c) row cols
             :: pass1Paints this cells row cols (Ctx2D.globalAlpha c)
                  (seqZ 0 cols))%list.
Proof.
  intros Hc Hcv.
  rewrite (renderLine_clears_first this c cv) by done.
  set (c0 := Ctx2D.fillRect _ _ _ _ _).
  destruct (pass1_run (set_ctx (Some c0) this) c0 cv cells row cols eq_refl)
    as (c1 & Hrun & Hp).
  { destruct this. exact Hcv. }
  exists c1. unfold bind at 1. rewrite Hrun. split; [reflexivity |].
  rewrite Hp, pass1Paints_set_ctx. subst c0.
  cbn [Ctx2D.painted Ctx2D.fillRect Ctx2D.paint Ctx2D.set_fillStyle
       Ctx2D.fillStyle Ctx2D.globalAlpha].
  rewrite <- app_assoc. reflexivity.
Qed.

(** [renderLine] as a whole: it starts by clearing the row. *)
Lemma renderLine_block this c cv cells row cols :
  ctx this = Some c -> canvas this = Some cv ->
  exists c' block,
    renderLine CellFlags cells row cols this = (Ok tt, set_ctx (Some c') this)
    /\ Ctx2D.painted c' = (Ctx2D.painted c ++ block)%list
    /\ repaintsRow this cols row block.
Proof.
  intros Hc Hcv.
  destruct (renderLine_pass1 this c cv cells row cols Hc Hcv) as (c1 & Hrun & Hp).
  destruct (draws_pass (renderCellText CellFlags) cells row cols
              (draws_renderCellText) (set_ctx (Some c1) this) c1 eq_refl)
    as (c2 & l & Hrun2 & Hp2).
  { destruct this. by exists cv. }
  exists c2. eexists. split; [by rewrite Hrun, Hrun2 |].
  rewrite Hp2, Hp, <- app_assoc. split; [reflexivity |].
  eexists _, _. reflexivity.
Qed.

(** The second loop of [render]: one block of paints for each row
    handed to [renderLine], in the order of the rows. *)
Lemma renderLines_blocks this cv cells cols (ys : list Z) c :
  ctx this = Some c -> canvas this = Some cv ->
  exists c' blocks,
    for_each ys (fun y => renderLine CellFlags cells y cols) this
      = (Ok tt, set_ctx (Some c') this)
    /\ Ctx2D.painted c' = (Ctx2D.painted c ++ concat blocks)%list
    /\ Forall2 (repaintsRow this cols) ys blocks.
Proof.
  intros Hc Hcv.
  enough (forall c, exists c' blocks,
            for_each ys (fun y => renderLine CellFlags cells y cols)
              (set_ctx (Some c) this)
            = (Ok tt, set_ctx (Some c') this)
            /\ Ctx2D.painted c' = (Ctx2D.painted c ++ concat blocks)%list
            /\ Forall2 (repaintsRow this cols) ys blocks) as Haux.
  { destruct this. cbn [ctx] in Hc. subst. apply (Haux c). }
  clear c Hc. induction ys as [|y ys IH]; intros c.
  - exists c, []. cbn [for_each concat]. rewrite app_nil_r.
    split_and!; [done | done | constructor].
  - cbn [for_each]. unfold bind at 1.
    destruct (renderLine_block (set_ctx (Some c) this) c cv cells y cols eq_refl)
      as (c1 & block & Hrun & Hp & Hb).
    { destruct this. exact Hcv. }
    rewrite Hrun.
    change (set_ctx (Some c1) (set_ctx (Some c) this))
      with (set_ctx (Some c1) this).
    destruct (IH c1) as (c2 & blocks & Hrun2 & Hp2 & Hbs).
    exists c2, (block :: blocks). split_and!.
    + exact Hrun2.
    + rewrite Hp2, Hp. cbn [concat]. by rewrite app_assoc.
    + constructor; [exact Hb | exact Hbs].
Qed.


(** [render] on an attached renderer: the assignments, then [renderLine]
    on the rows of [repaintedRows], then the cursor and the scrollbar. *)
Lemma render_run (input : RenderInput.t) (this : t) c cv :
  ctx this = Some c -> canvas this = Some cv ->
  let cols := RenderInput.cols input in
  let repainted := repaintedRows DirtyState_FULL input in
  let line y := renderLine CellFlags (RenderInput.viewportCells input) y cols in
  let this0 := prepared input this in
  exists c1 blocks c' tail,
    for_each repainted line this0 = (Ok tt, set_ctx (Some c1) this0)
    /\ Ctx2D.painted c1 = (Ctx2D.painted c ++ concat blocks)%list
    /\ Forall2 (repaintsRow this0 cols) repainted blocks
    /\ ((if RenderInput.cursorVisible input then
           renderCursor (RenderInput.cursorX input) (RenderInput.cursorY input)
             (RenderInput.cursorStyle input)
         else ret tt) ;;
        if Num.gt (RenderInput.scrollbarOpacity input) Num.zero
           && (RenderInput.scrollbackLength input >? 0)
        then renderScrollbar (RenderInput.viewportY input)
               (RenderInput.scrollbackLength input) (RenderInput.rows input)
               (RenderInput.scrollbarOpacity input)
        else ret tt) (set_ctx (Some c1) this0)
       = (Ok tt, set_ctx (Some c') this0)
    /\ render CellFlags DirtyState_FULL input this
       = (Ok tt, set_ctx (Some c') this0)
    /\ Ctx2D.painted c' = (Ctx2D.painted c1 ++ tail)%list
    /\ (RenderInput.cursorVisible input = false ->
        Num.gt (RenderInput.scrollbarOpacity input) Num.zero
        && (RenderInput.scrollbackLength input >? 0) = false ->
        tail = []).
Proof.
  intros Hc Hcv. cbn zeta.
  set (this0 := prepared input this).
  assert (ctx this0 = Some c) as Hc0 by (by destruct this).
  assert (canvas this0 = Some cv) as Hcv0 by (by destruct this).
  destruct (renderLines_blocks this0 cv (RenderInput.viewportCells input)
              (RenderInput.cols input) (repaintedRows DirtyState_FULL input)
              c Hc0 Hcv0) as (c1 & blocks & Hrun & Hp & Hbs).
  set (after :=
    ((if RenderInput.cursorVisible input then
        renderCursor (RenderInput.cursorX input) (RenderInput.cursorY input)
          (RenderInput.cursorStyle input)
      else ret tt) ;;
     if Num.gt (RenderInput.scrollbarOpacity input) Num.zero
        && (RenderInput.scrollbackLength input >? 0)
     then renderScrollbar (RenderInput.viewportY input)
            (RenderInput.scrollbackLength input) (RenderInput.rows input)
            (RenderInput.scrollbarOpacity input)
     else ret tt)%js).
  assert (draws after) as Hafter.
  { unfold after. draws_auto;
      first [apply draws_renderCursor | apply draws_renderScrollbar]. }
  destruct (Hafter (set_ctx (Some c1) this0) c1 eq_refl) as (c' & tail & Hrun' & Hp').
  { destruct this. by exists cv. }
  change (set_ctx (Some c') (set_ctx (Some c1) this0))
    with (set_ctx (Some c') this0) in Hrun'.
  exists c1, blocks, c', tail.
  split_and!; [done | done | done | exact Hrun' | | done |].
  - transitivity
      (bind (for_each (repaintedRows DirtyState_FULL input)
               (fun y => renderLine CellFlags (RenderInput.viewportCells input)
                           y (RenderInput.cols input)))
            (fun _ => after) this0).
    + destruct this as [cv0 c0 fs ff th dpr m sel hov gr].
      cbn [ctx canvas] in Hc, Hcv. subst cv0 c0. reflexivity.
    + unfold bind at 1. by rewrite Hrun.
  - intros Hcur Hbar. unfold after in Hrun'. rewrite Hcur, Hbar in Hrun'.
    cbn [bind ret] in Hrun'. unfold bind, ret in Hrun'.
    injection Hrun' as <-.
    rewrite <- (app_nil_r (Ctx2D.painted c1)) in Hp' at 1.
    by apply app_inv_head in Hp'.
Qed.


(** C6: in pass 1 a spacer cell (width 0) is skipped. For any other cell
    the components filled are the foreground components when INVERSE is
    set and the background components otherwise; when they are all zero
    no rectangle is drawn for the cell's own background, and otherwise
    one rectangle over the cell is filled with them; after it comes the
    selection overlay, if the cell is selected. Pass 1 as a whole paints
    exactly this for the cells of the row, column after column, and
    nothing for a missing cell or a spacer, so the paints of every
    non-spacer cell of the row are among its paints. The row was cleared
    to the theme background before pass 1, and pass 2 runs on what pass
    1 leaves. *)
Theorem pass1_background (this : t) c cv cells (row cols x : Z) cell :
  ctx this = Some c -> canvas this = Some cv ->
  nth_Z cells (row * cols + x) = Some cell ->
  let step := cell_step (renderCellBackground CellFlags) cells row cols x in
  let m := metrics this in
  let alpha := Ctx2D.globalAlpha c in
  let paints := pass1Paints this cells row cols alpha (seqZ 0 cols) in
  (GhosttyCell.width cell = 0 -> step this = (Ok tt, this))
  /\ (GhosttyCell.width cell <> 0 ->
        exists c',
          step this = (Ok tt, set_ctx (Some c') this)
          /\ Ctx2D.painted c'
             = (Ctx2D.painted c ++ ownBackground m alpha cell x row
                ++ selectionOverlay this cell x row)%list)
  /\ (has (GhosttyCell.flags cell) (CellFlags.INVERSE CellFlags) = true ->
        backgroundOf cell
        = (GhosttyCell.fg_r cell, GhosttyCell.fg_g cell, GhosttyCell.fg_b cell))
  /\ (has (GhosttyCell.flags cell) (CellFlags.INVERSE CellFlags) = false ->
        backgroundOf cell
        = (GhosttyCell.bg_r cell, GhosttyCell.bg_g cell, GhosttyCell.bg_b cell))
  /\ (backgroundOf cell = (0, 0, 0) -> ownBackground m alpha cell x row = [])
  /\ (forall r g b, backgroundOf cell = (r, g, b) -> (r, g, b) <> (0, 0, 0) ->
        ownBackground m alpha cell x row
        = [FillRect (css_rgb r g b) alpha
             (Num.of_Z (x * CellMetrics.width m))
             (Num.of_Z (row * CellMetrics.height m))
             (Num.of_Z (CellMetrics.width m * GhosttyCell.width cell))
             (Num.of_Z (CellMetrics.height m))])
  /\ renderLine CellFlags cells row cols this
     = (pass (renderCellBackground CellFlags) cells row cols ;;
        pass (renderCellText CellFlags) cells row cols)
         (set_ctx
            (Some (Ctx2D.fillRect Num.zero
                     (Num.of_Z (row * CellMetrics.height m))
                     (Num.of_Z (cols * CellMetrics.width m))
                     (Num.of_Z (CellMetrics.height m))
                     (Ctx2D.set_fillStyle
                        (Theme.rgbaToCss
                           (TerminalTheme.background (theme this))) c)))
            this)
  /\ (exists c1,
        pass (renderCellBackground CellFlags) cells row cols this
          = (Ok tt, set_ctx (Some c1) this)
        /\ Ctx2D.painted c1 = (Ctx2D.painted c ++ paints)%list)
  /\ (0 <= x < cols -> GhosttyCell.width cell <> 0 ->
        exists before alpha' after,
          paints
          = (before
             ++ (ownBackground m alpha' cell x row
                 ++ selectionOverlay this cell x row)
             ++ after)%list)
  /\ (exists c1,
        renderLine CellFlags cells row cols this
          = pass (renderCellText CellFlags) cells row cols
              (set_ctx (Some c1) this)
        /\ Ctx2D.painted c1
           = (Ctx2D.painted c ++ rowClear this alpha row cols :: paints)%list).
Proof.
  intros Hc Hcv Hcell. cbn zeta. unfold cell_step. rewrite Hcell.
  split_and!.
  - by intros ->.
  - intros Hw. destruct (Z.eqb_spec (GhosttyCell.width cell) 0); [done |].
    apply (renderCellBackground_paints this c cv cell x row Hc Hcv).
  - unfold backgroundOf. by intros ->.
  - unfold backgroundOf. by intros ->.
  - unfold ownBackground. by intros ->.
  - intros r g b Hbg Hnz. unfold ownBackground. rewrite Hbg.
    destruct (Z.eqb_spec r 0) as [-> |]; [| done].
    destruct (Z.eqb_spec g 0) as [-> |]; [| done].
    destruct (Z.eqb_spec b 0) as [-> |]; done.
  - by apply renderLine_clears_first with cv.
  - by apply pass1_run with cv.
  - intros Hx Hw.
    apply (pass1Paints_cell this cells row cols (Ctx2D.globalAlpha c)
             (seqZ 0 cols) x cell); [apply elem_of_seqZ; lia | done | done].
  - by apply renderLine_pass1 with cv.
Qed.

(** C7: on a renderer that holds no canvas, [resize], [render], [clear]
    and [getCanvas] throw the not-attached error and leave the renderer
    as it was, so nothing is drawn. After an [attach] that obtained a
    context, each of them returns normally. *)
Theorem unattached_calls_throw (this : t) (cols rows : Z)
    (input : RenderInput.t) :
  canvas this = None ->
  not_attached = mkError "CanvasRenderer is not attached to a canvas"
  /\ resize cols rows this = (Throw not_attached, this)
  /\ render CellFlags DirtyState_FULL input this = (Throw not_attached, this)
  /\ clear this = (Throw not_attached, this)
  /\ getCanvas this = (Throw not_attached, this)
  /\ (forall cv c, HTMLCanvasElement.context2d cv = Some c ->
        exists this',
          attach cv this = (Ok tt, this')
          /\ (exists after, resize cols rows this' = (Ok tt, after))
          /\ (exists after,
                render CellFlags DirtyState_FULL input this' = (Ok tt, after))
          /\ (exists after, clear this' = (Ok tt, after))
          /\ getCanvas this' = (Ok cv, this')).
Proof.
  intros Hnone.
  assert (requireContext this = (Throw not_attached, this)) as Hrc.
  { unfold requireContext. rewrite Hnone. by destruct (ctx this). }
  split_and!.
  - reflexivity.
  - unfold resize, bind, requireCanvas. by rewrite Hnone.
  - unfold render, bind. by rewrite Hrc.
  - unfold clear, bind. by rewrite Hrc.
  - unfold getCanvas, requireCanvas. by rewrite Hnone.
  - intros cv c Hcv.
    set (this' := set_ctx (Some c) (set_canvas (Some cv) this)).
    assert (attached this') as Hatt by (split; by eexists).
    exists this'. split_and!.
    + unfold attach, bind, modify. by rewrite Hcv.
    + destruct (returns_resize cols rows this' Hatt) as ([] & after & Hrun & _).
      by exists after.
    + destruct (returns_render input this' Hatt) as ([] & after & Hrun & _).
      by exists after.
    + destruct (returns_clear this' Hatt) as ([] & after & Hrun & _).
      by exists after.
    + reflexivity.
Qed.

(** C8: what the code does when the fade opacity is not positive. With
    no row to repaint and no cursor to draw, [render] paints nothing at
    all: the scrollbar area is not cleared, because [renderScrollbar],
    which clears it first, is not called. *)
Theorem render_keeps_scrollbar_area (this : t) (input : RenderInput.t) :
  attached this ->
  repaintedRows DirtyState_FULL input = [] ->
  RenderInput.cursorVisible input = false ->
  Num.gt (RenderInput.scrollbarOpacity input) Num.zero = false ->
  exists this',
    render CellFlags DirtyState_FULL input this = (Ok tt, this')
    /\ painted this' = painted this.
Proof.
  intros [[c Hc] [cv Hcv]] Hrows Hcur Hop.
  destruct this as [cv0 c0 fs ff th dpr m sel hov gr].
  cbn [ctx canvas] in Hc, Hcv. subst cv0 c0.
  unfold render. rewrite Hrows, Hcur, Hop. cbn [andb for_each].
  by eexists.
Qed.

(** [renderScrollbar] itself clears the scrollbar area before anything
    else, also when the opacity is not positive. *)
Lemma renderScrollbar_clears_first (this : t) c cv viewportY
    scrollbackLength visibleRows opacity :
  ctx this = Some c -> canvas this = Some cv ->
  Num.le opacity Num.zero = true ->
  let dpr := devicePixelRatio this in
  let canvasHeight := Num.div (Num.of_Z (HTMLCanvasElement.height cv)) dpr in
  let canvasWidth := Num.div (Num.of_Z (HTMLCanvasElement.width cv)) dpr in
  let scrollbarX :=
    Num.sub (Num.sub canvasWidth (Num.of_Z 8)) (Num.of_Z 4) in
  exists c',
    renderScrollbar viewportY scrollbackLength visibleRows opacity this
      = (Ok tt, set_ctx (Some c') this)
    /\ Ctx2D.painted c'
       = (Ctx2D.painted c
          ++ [FillRect
                (Theme.rgbaToCss (TerminalTheme.background (theme this)))
                (Ctx2D.globalAlpha c)
                (Num.sub scrollbarX (Num.of_Z 2)) Num.zero
                (Num.add (Num.of_Z 8) (Num.of_Z 6)) canvasHeight])%list.
Proof.
  intros Hc Hcv Hop. destruct this as [cv0 c0 fs ff th dpr m sel hov gr].
  cbn [ctx canvas] in Hc, Hcv. subst cv0 c0. cbn zeta.
  unfold renderScrollbar, bind, requireContext, requireCanvas, gets,
    on_ctx, modify, ret.
  cbn [ctx canvas theme devicePixelRatio set_ctx fmap option_fmap option_map].
  rewrite Hop. cbn [orb]. eexists. split; reflexivity.
Qed.

(** Past the gate of [render], with a positive opacity and some scrollback,
    [renderScrollbar] clears the area, then draws the track and the thumb,
    the thumb [max(20, visibleRows / totalLines * trackHeight)] high. *)
Lemma renderScrollbar_draws (this : t) c cv viewportY scrollbackLength
    visibleRows opacity :
  ctx this = Some c -> canvas this = Some cv ->
  Num.gt opacity Num.zero = true -> scrollbackLength > 0 ->
  let dpr := devicePixelRatio this in
  let canvasHeight := Num.div (Num.of_Z (HTMLCanvasElement.height cv)) dpr in
  let canvasWidth := Num.div (Num.of_Z (HTMLCanvasElement.width cv)) dpr in
  let scrollbarX := Num.sub (Num.sub canvasWidth (Num.of_Z 8)) (Num.of_Z 4) in
  let trackHeight := Num.sub canvasHeight (Num.mul (Num.of_Z 4) (Num.of_Z 2)) in
  let thumbHeight :=
    Num.max (Num.of_Z 20)
      (Num.mul (Num.div (Num.of_Z visibleRows)
                        (Num.of_Z (scrollbackLength + visibleRows)))
               trackHeight) in
  let alpha := Ctx2D.globalAlpha c in
  exists c' thumbY base,
    renderScrollbar viewportY scrollbackLength visibleRows opacity this
      = (Ok tt, set_ctx (Some c') this)
    /\ Ctx2D.painted c'
       = (Ctx2D.painted c
          ++ [FillRect (Theme.rgbaToCss (TerminalTheme.background (theme this)))
                alpha (Num.sub scrollbarX (Num.of_Z 2)) Num.zero
                (Num.add (Num.of_Z 8) (Num.of_Z 6)) canvasHeight;
              FillRect (css_rgba 128 128 128 (Num.mul c_0_1 opacity)) alpha
                scrollbarX (Num.of_Z 4) (Num.of_Z 8) trackHeight;
              FillRect (css_rgba 128 128 128 (Num.mul base opacity)) alpha
                scrollbarX thumbY (Num.of_Z 8) thumbHeight])%list.
Proof.
  intros Hc Hcv Hop Hlen. destruct this as [cv0 c0 fs ff th dpr m sel hov gr].
  cbn [ctx canvas] in Hc, Hcv. subst cv0 c0. cbn zeta.
  assert (Num.le opacity Num.zero = false) as Hle.
  { unfold Num.gt, Num.le, SFltb, SFleb in *.
    rewrite (ThemeProps.SFcompare_swap Num.zero opacity).
    by destruct (SFcompare Num.zero opacity) as [[]|]. }
  unfold renderScrollbar, bind, requireContext, requireCanvas, gets,
    on_ctx, modify, ret.
  cbn [ctx canvas theme devicePixelRatio set_ctx fmap option_fmap option_map].
  rewrite Hle. destruct (Z.eqb_spec scrollbackLength 0) as [? | _]; [lia |].
  cbn [orb ctx canvas theme devicePixelRatio set_ctx fmap option_fmap option_map].
  do 3 eexists. split; [reflexivity |].
  cbn [Ctx2D.painted Ctx2D.fillRect Ctx2D.paint Ctx2D.set_fillStyle
       Ctx2D.fillStyle Ctx2D.globalAlpha].
  rewrite <- !app_assoc. reflexivity.
Qed.

(** C1: a row is handed to [renderLine] exactly when it is a row of the
    grid and either the frame asks for a full repaint, or it is a
    flagged row of the grid or a vertical neighbour of one; each such
    row is painted once, in ascending order. With a full repaint these
    are all the rows; with row [k] of the grid the only flagged row they
    are [k-1], [k], [k+1], cut to the grid. On an attached renderer
    [render] returns normally after running [renderLine] on exactly
    these rows, in this order, and then only [renderCursor] and
    [renderScrollbar]: what it paints is one block of paints for each of
    the rows, each begun by clearing that row, and after the blocks what
    the cursor and the scrollbar paint, which is nothing when there is
    neither. *)
Theorem render_repaints_dilated_rows (input : RenderInput.t) (this : t) :
  let rows := RenderInput.rows input in
  let cols := RenderInput.cols input in
  let repainted := repaintedRows DirtyState_FULL input in
  let line y := renderLine CellFlags (RenderInput.viewportCells input) y cols in
  let this0 := prepared input this in
  (forall y, y ∈ repainted <->
     0 <= y < rows
     /\ (fullRepaint input = true
         \/ exists y', 0 <= y' < rows /\ flagged input y' = true /\ near y y'))
  /\ (exists keep, repainted = List.filter keep (seqZ 0 rows))
  /\ (fullRepaint input = true -> repainted = seqZ 0 rows)
  /\ (forall k, fullRepaint input = false -> 0 <= k < rows ->
        (forall y, 0 <= y < rows -> flagged input y = true <-> y = k) ->
        forall y, y ∈ repainted <-> 0 <= y < rows /\ near y k)
  /\ (forall c cv, ctx this = Some c -> canvas this = Some cv ->
        exists c1 blocks c' tail,
          for_each repainted line this0 = (Ok tt, set_ctx (Some c1) this0)
          /\ Ctx2D.painted c1 = (Ctx2D.painted c ++ concat blocks)%list
          /\ Forall2 (repaintsRow this0 cols) repainted blocks
          /\ ((if RenderInput.cursorVisible input then
                 renderCursor (RenderInput.cursorX input)
                   (RenderInput.cursorY input) (RenderInput.cursorStyle input)
               else ret tt) ;;
              if Num.gt (RenderInput.scrollbarOpacity input) Num.zero
                 && (RenderInput.scrollbackLength input >? 0)
              then renderScrollbar (RenderInput.viewportY input)
                     (RenderInput.scrollbackLength input) rows
                     (RenderInput.scrollbarOpacity input)
              else ret tt) (set_ctx (Some c1) this0)
             = (Ok tt, set_ctx (Some c') this0)
          /\ render CellFlags DirtyState_FULL input this
             = (Ok tt, set_ctx (Some c') this0)
          /\ Ctx2D.painted c' = (Ctx2D.painted c1 ++ tail)%list
          /\ (RenderInput.cursorVisible input = false ->
              Num.gt (RenderInput.scrollbarOpacity input) Num.zero
              && (RenderInput.scrollbackLength input >? 0) = false ->
              tail = [])).
Proof.
  cbn zeta.
  assert (Hchar : forall y,
    y ∈ repaintedRows DirtyState_FULL input <->
    0 <= y < RenderInput.rows input
    /\ (fullRepaint input = true
        \/ exists y', 0 <= y' < RenderInput.rows input
             /\ flagged input y' = true /\ near y y')).
  { intros y. rewrite repaintedRows_elem, rowsToRender_elem. split.
    - intros (Hy & y' & Hy' & Hn & Hnear). split; [done |].
      apply orb_true_iff in Hn as [? | ?]; [by left | right; by exists y'].
    - intros (Hy & [Hfull | (y' & Hy' & Hfl & Hnear)]).
      + split; [done |]. exists y. rewrite Hfull.
        split_and!; [lia | lia | done | by left].
      + split; [done |]. exists y'. rewrite Hfl, orb_true_r. done. }
  split_and!.
  - exact Hchar.
  - by eexists.
  - intros Hfull. unfold repaintedRows.
    rewrite <- (List.filter_ext_in (fun _ => true)).
    + induction (seqZ 0 (RenderInput.rows input)) as [|a l IH]; [done |].
      cbn [List.filter]. by rewrite IH.
    + intros y Hy. symmetry. apply bool_decide_eq_true.
      apply repaintedRows_elem, Hchar.
      apply list_elem_of_In, elem_of_seqZ in Hy. split; [lia | by left].
  - intros k Hnot Hk Honly y. rewrite Hchar, Hnot. split.
    + intros (Hy & [? | (y' & Hy' & Hfl & Hnear)]); [done |].
      apply Honly in Hfl; [| done]. by subst y'.
    + intros (Hy & Hnear). split; [done |]. right. exists k.
      split_and!; [lia | lia | by apply Honly | done].
  - intros c cv Hc Hcv. by apply render_run with cv.
Qed.

(** C10: when the override has no selectionForeground key, and when
    there is no override, the resolved selection foreground is the
    colour of ["#1e1e1e"], r = g = b = 30 and a = 1, and not [null]. So
    with such a theme the text of a selected, visible cell is filled
    with [rgb(30, 30, 30)] whatever the cell's own colours are. *)
Theorem selectionForeground_defaults (theme : option ITheme.t) :
  (forall t, theme = Some t -> ITheme.selectionForeground t = Absent) ->
  TerminalTheme.selectionForeground (Theme.resolveTheme theme)
  = Some (RGBA.mk 30 30 30 Num.one)
  /\ (forall this c cv cell x y,
        ctx this = Some c -> canvas this = Some cv ->
        CanvasRenderer.theme this = Theme.resolveTheme theme ->
        isInSelection this x y = true ->
        has (GhosttyCell.flags cell) (CellFlags.INVISIBLE CellFlags) = false ->
        exists c' alpha font text tx ty rest,
          renderCellText CellFlags cell x y this
            = (Ok tt, set_ctx (Some c') this)
          /\ Ctx2D.painted c'
             = (Ctx2D.painted c
                ++ FillText (css_rgb 30 30 30) alpha font text tx ty
                   :: rest)%list).
Proof.
  intros Habsent.
  assert (TerminalTheme.selectionForeground (Theme.resolveTheme theme)
          = Some (RGBA.mk 30 30 30 Num.one)) as Hfg.
  { destruct theme as [t|]; [| reflexivity].
    unfold Theme.resolveTheme. cbn [TerminalTheme.selectionForeground].
    cbn [mbind option_bind ITheme.spread ITheme.selectionForeground].
    by rewrite (Habsent t eq_refl). }
  split; [exact Hfg |].
  intros this c cv cell x y Hc Hcv Hth Hsel Hvis.
  rewrite <- Hth in Hfg.
  apply (renderCellText_selected this c cv cell x y _ Hc Hcv Hfg Hsel Hvis).
Qed.

End Methods.

(** *** Concrete runs *)

Lemma render_repaints_dilated_rows_witness :
  let input := frame [0; 0; ROW_DIRTY; 0; 0] 0 None 0 Num.zero in
  1 ∈ repaintedRows sampleFull input
  /\ 3 ∈ repaintedRows sampleFull input
  /\ ~ 4 ∈ repaintedRows sampleFull input
  /\ repaintedRows sampleFull (frame [] sampleFull None 0 Num.zero)
     = [0; 1; 2; 3; 4]
  /\ exists c' blocks,
       render sampleFlags sampleFull input sampleRenderer
       = (Ok tt, set_ctx (Some c') (prepared input sampleRenderer))
       /\ Ctx2D.painted c' = concat blocks
       /\ Forall2 (repaintsRow (prepared input sampleRenderer) 2) [1; 2; 3]
            blocks.
Proof.
  cbn zeta.
  destruct (render_repaints_dilated_rows sampleFlags sampleFull
              (frame [0; 0; ROW_DIRTY; 0; 0] 0 None 0 Num.zero) sampleRenderer)
    as (_ & _ & _ & Hk & Hrun).
  destruct (render_repaints_dilated_rows sampleFlags sampleFull
              (frame [] sampleFull None 0 Num.zero) sampleRenderer)
    as (_ & _ & Hfull & _).
  assert (Honly : forall y, 0 <= y < 5 ->
    flagged (frame [0; 0; ROW_DIRTY; 0; 0] 0 None 0 Num.zero) y = true
    <-> y = 2).
  { intros y Hy.
    assert (y = 0 \/ y = 1 \/ y = 2 \/ y = 3 \/ y = 4) as Hcases by lia.
    destruct Hcases as [-> | [-> | [-> | [-> | ->]]]]; vm_compute;
      split; (discriminate || reflexivity || (intros; lia) || idtac);
      intros H; inversion H. }
  specialize (Hk 2 eq_refl ltac:(cbn; lia) Honly).
  split_and!.
  - apply Hk. cbn. unfold near. lia.
  - apply Hk. cbn. unfold near. lia.
  - intros H4. apply Hk in H4. unfold near in H4. lia.
  - exact (Hfull eq_refl).
  - destruct (Hrun freshContext sampleCanvas eq_refl eq_refl)
      as (c1 & blocks & c' & tail & _ & Hp & Hbs & _ & Hr & Hp' & Htail).
    exists c', blocks. split_and!.
    + exact Hr.
    + rewrite Hp', Hp, (Htail eq_refl eq_refl). apply app_nil_r.
    + assert (repaintedRows sampleFull
                (frame [0; 0; ROW_DIRTY; 0; 0] 0 None 0 Num.zero) = [1; 2; 3])
        as Hrows by (vm_compute; reflexivity).
      rewrite <- Hrows. exact Hbs.
Defined.

Lemma selection_is_row_span_witness :
  let one_row := SelectionRange.mk 2 1 5 1 in
  let rows := SelectionRange.mk 5 0 2 2 in
  let this sel := set_currentSelectionRange (Some sel) sampleRenderer in
  (isInSelection (this one_row) 3 1 = true <-> 1 = 1 /\ 2 <= 3 <= 5)
  /\ (isInSelection (this rows) 7 0 = true
      <-> (0 = 0 /\ 7 >= 5) \/ 0 < 0 < 2 \/ (0 = 2 /\ 7 <= 2)).
Proof.
  cbn zeta. split.
  - destruct (selection_is_row_span sampleFlags
                (set_currentSelectionRange (Some (SelectionRange.mk 2 1 5 1))
                   sampleRenderer) 3 1) as [[Hone _] _].
    exact (Hone eq_refl).
  - destruct (selection_is_row_span sampleFlags
                (set_currentSelectionRange (Some (SelectionRange.mk 5 0 2 2))
                   sampleRenderer) 7 0) as [[_ Hrows] _].
    apply Hrows. cbn. lia.
Defined.

Lemma pass1_background_witness :
  (exists c',
     cell_step (renderCellBackground sampleFlags) [blankCell; inverseCell] 0 2 1
       sampleRenderer
     = (Ok tt, set_ctx (Some c') sampleRenderer)
     /\ Ctx2D.painted c'
        = [FillRect (css_rgb 205 49 49) Num.one (Num.of_Z 9) (Num.of_Z 0)
             (Num.of_Z 9) (Num.of_Z 17)])
  /\ (exists c1,
        pass (renderCellBackground sampleFlags) [blankCell; inverseCell] 0 2
          sampleRenderer
        = (Ok tt, set_ctx (Some c1) sampleRenderer)
        /\ Ctx2D.painted c1
           = [FillRect (css_rgb 205 49 49) Num.one (Num.of_Z 9) (Num.of_Z 0)
                (Num.of_Z 9) (Num.of_Z 17)]).
Proof.
  destruct (pass1_background sampleFlags sampleRenderer freshContext
              sampleCanvas [blankCell; inverseCell] 0 2 1 inverseCell
              eq_refl eq_refl eq_refl)
    as (_ & Hpaint & _ & _ & _ & _ & _ & Hpass & _).
  split.
  - destruct (Hpaint ltac:(discriminate)) as (c' & Hrun & Hp).
    exists c'. split; [exact Hrun |]. rewrite Hp. reflexivity.
  - destruct Hpass as (c1 & Hrun & Hp).
    exists c1. split; [exact Hrun |]. rewrite Hp. reflexivity.
Defined.

Lemma unattached_calls_throw_witness :
  render sampleFlags sampleFull (frame [] sampleFull None 0 Num.zero)
    bareRenderer
  = (Throw (mkError "CanvasRenderer is not attached to a canvas"), bareRenderer)
  /\ exists this',
       attach sampleCanvas bareRenderer = (Ok tt, this')
       /\ exists after,
            render sampleFlags sampleFull
              (frame [] sampleFull None 0 Num.zero) this'
            = (Ok tt, after).
Proof.
  destruct (unattached_calls_throw sampleFlags sampleFull bareRenderer 2 5
              (frame [] sampleFull None 0 Num.zero) eq_refl)
    as (_ & _ & Hrender & _ & _ & Hafter).
  split; [exact Hrender |].
  destruct (Hafter sampleCanvas freshContext eq_refl)
    as (this' & Hatt & _ & Hr & _).
  exists this'. split; [exact Hatt | exact Hr].
Defined.

Lemma render_keeps_scrollbar_area_witness :
  exists this',
    render sampleFlags sampleFull (frame [] 0 None 100 Num.zero)
      afterFadingFrame
    = (Ok tt, this')
    /\ painted this' = painted afterFadingFrame.
Proof.
  apply (render_keeps_scrollbar_area sampleFlags sampleFull afterFadingFrame
           (frame [] 0 None 100 Num.zero)).
  - split; vm_compute; by eexists.
  - by vm_compute.
  - reflexivity.
  - reflexivity.
Defined.

(** What stays on the canvas in that run: the thumb of the earlier frame
    is the last thing painted. *)
Lemma thumb_stays_after_fade_out :
  exists x y w h,
    last (painted (snd (render sampleFlags sampleFull
                          (frame [] 0 None 100 Num.zero) afterFadingFrame)))
    = Some (FillRect (css_rgba 128 128 128 (Num.mul c_0_3 quarter))
              Num.one x y w h).
Proof. vm_compute. by do 4 eexists. Qed.

Lemma selectionForeground_defaults_witness :
  TerminalTheme.selectionForeground (Theme.resolveTheme (Some ITheme.empty))
  = Some (RGBA.mk 30 30 30 Num.one).
Proof.
  apply (selectionForeground_defaults sampleFlags (Some ITheme.empty)).
  intros t Ht. injection Ht as <-. reflexivity.
Defined.

End RendererProps.

(** * Further properties *)

(** ** Colour parsing and theme resolution *)

Module ThemeExtra.
Import ThemeSpec ThemeProps.

Lemma clampByte_range (v : option Z) : 0 <= Theme.clampByte v <= 255.
Proof.
  destruct v as [v|]; cbn [Theme.clampByte]; [| lia].
  destruct (Z.ltb_spec v 0); [lia |]. destruct (Z.ltb_spec 255 v); lia.
Qed.

Lemma one_valid_alpha :
  Num.isFinite Num.one = true /\ Num.le Num.zero Num.one = true
  /\ Num.le Num.one Num.one = true.
Proof. by vm_compute. Qed.

Lemma parseHexColor_valid (value : string) (c : RGBA.t) :
  Theme.parseHexColor value = Some c -> valid_rgba c.
Proof.
  unfold Theme.parseHexColor.
  destruct (negb _); [discriminate |].
  destruct (if _ : bool then _ else _) as [[[r g] b] a].
  destruct (Str.parseInt r 16) as [ri|]; [| discriminate].
  destruct (Str.parseInt g 16) as [gi|]; [| discriminate].
  destruct (Str.parseInt b 16) as [bi|]; [| discriminate].
  destruct (Str.parseInt a 16) as [ai|]; [| discriminate].
  intros [= <-].
  destruct (clampAlpha_range (Num.div (Num.of_Z ai) (Num.of_Z 255)))
    as (Hlo & Hhi & Hfin).
  exact (conj (clampByte_range (Some ri)) (conj (clampByte_range (Some gi))
           (conj (clampByte_range (Some bi)) (conj Hfin (conj Hlo Hhi))))).
Qed.

Lemma parseColor_valid_aux (value : option string) (c : RGBA.t) :
  Theme.parseColor value = Some c -> valid_rgba c.
Proof.
  unfold Theme.parseColor. destruct value as [[|ch s]|]; try discriminate.
  destruct (Str.startsWith "#" (String ch s)); [apply parseHexColor_valid |].
  destruct (Theme.rgbMatch (String ch s)) as [[[[m1 m2] m3] m4]|]; [| discriminate].
  intros [= <-].
  assert (Num.isFinite (match m4 with
                        | Some m => Theme.clampAlpha (Str.parseFloat m)
                        | None => Num.one end) = true
          /\ Num.le Num.zero (match m4 with
                        | Some m => Theme.clampAlpha (Str.parseFloat m)
                        | None => Num.one end) = true
          /\ Num.le (match m4 with
                        | Some m => Theme.clampAlpha (Str.parseFloat m)
                        | None => Num.one end) Num.one = true) as Ha.
  { destruct m4 as [m|]; [| exact one_valid_alpha].
    destruct (clampAlpha_range (Str.parseFloat m)) as (? & ? & ?). done. }
  exact (conj (clampByte_range (Str.parseInt m1 10))
           (conj (clampByte_range (Str.parseInt m2 10))
              (conj (clampByte_range (Str.parseInt m3 10)) Ha))).
Qed.

Lemma not_lt_of_le (x y : number) : Num.le x y = true -> Num.lt y x = false.
Proof.
  unfold Num.le, Num.lt, SFleb, SFltb. rewrite (SFcompare_swap x y).
  by destruct (SFcompare x y) as [[]|].
Qed.

Lemma clampAlpha_id (v : number) :
  Num.le Num.zero v = true -> Num.le v Num.one = true -> Theme.clampAlpha v = v.
Proof.
  intros Hlo Hhi. unfold Theme.clampAlpha.
  assert (Num.isFinite v = true) as ->.
  { destruct v as [[]|[]| |[] m e]; try done. }
  cbn [negb]. change (Num.gt v Num.one) with (Num.lt Num.one v).
  by rewrite (not_lt_of_le _ _ Hlo), (not_lt_of_le _ _ Hhi).
Qed.

(** X1: [clampAlpha] maps every number, also NaN and the infinities, to a
    finite number in [0,1]: a number that is not finite becomes 1, a number
    of [0,1] is kept, and clamping twice is clamping once. *)
Theorem clampAlpha_unit_interval (v : number) :
  Num.isFinite (Theme.clampAlpha v) = true
  /\ Num.le Num.zero (Theme.clampAlpha v) = true
  /\ Num.le (Theme.clampAlpha v) Num.one = true
  /\ (Num.isFinite v = false -> Theme.clampAlpha v = Num.one)
  /\ (Num.le Num.zero v = true -> Num.le v Num.one = true ->
      Theme.clampAlpha v = v)
  /\ Theme.clampAlpha (Theme.clampAlpha v) = Theme.clampAlpha v.
Proof.
  destruct (clampAlpha_range v) as (Hlo & Hhi & Hfin).
  split_and!; [exact Hfin | exact Hlo | exact Hhi | | |].
  - intros Hnf. unfold Theme.clampAlpha. by rewrite Hnf.
  - apply clampAlpha_id.
  - by apply clampAlpha_id.
Qed.

Lemma clampAlpha_unit_interval_witness :
  Theme.clampAlpha (S754_infinity true) = Num.one
  /\ Theme.clampAlpha ThemeSpec.half = ThemeSpec.half.
Proof.
  split.
  - destruct (clampAlpha_unit_interval (S754_infinity true))
      as (_ & _ & _ & Hinf & _).
    exact (Hinf eq_refl).
  - destruct (clampAlpha_unit_interval ThemeSpec.half)
      as (_ & _ & _ & _ & Hid & _).
    exact (Hid eq_refl eq_refl).
Defined.

(** X2: whatever string it is given, a colour that [parseColor] returns has
    its three bytes in [0,255] and a finite alpha in [0,1]. *)
Theorem parseColor_valid (value : option string) (c : RGBA.t) :
  Theme.parseColor value = Some c -> valid_rgba c.
Proof. apply parseColor_valid_aux. Qed.

Lemma parseColor_valid_witness :
  valid_rgba (RGBA.mk 255 5 0 Num.one).
Proof.
  apply (parseColor_valid (Some "rgba(999, 5 ,0,3.5)")). reflexivity.
Defined.

Lemma resolveColor_valid (value : option string) (fallback : string) :
  valid_rgba (Theme.resolveColor value fallback).
Proof.
  unfold Theme.resolveColor.
  destruct (Theme.parseColor value) as [c|] eqn:Hv;
    [by apply parseColor_valid_aux with value |].
  destruct (Theme.parseColor (Some fallback)) as [c|] eqn:Hf;
    [by apply parseColor_valid_aux with (Some fallback) |].
  unfold valid_rgba. cbn. destruct one_valid_alpha as (? & ? & ?).
  split_and!; done || lia.
Qed.

(** X3: every colour of a resolved theme is well formed, whatever the
    override holds: bytes in [0,255] and a finite alpha in [0,1], for the
    five colours that are always there and for the selection foreground
    when it is not [null]. *)
Theorem resolveTheme_valid (theme : option ITheme.t) :
  let t := Theme.resolveTheme theme in
  valid_rgba (TerminalTheme.foreground t)
  /\ valid_rgba (TerminalTheme.background t)
  /\ valid_rgba (TerminalTheme.cursor t)
  /\ valid_rgba (TerminalTheme.cursorAccent t)
  /\ valid_rgba (TerminalTheme.selectionBackground t)
  /\ match TerminalTheme.selectionForeground t with
     | Some c => valid_rgba c
     | None => True
     end.
Proof.
  cbn zeta. unfold Theme.resolveTheme.
  cbn [TerminalTheme.foreground TerminalTheme.background TerminalTheme.cursor
       TerminalTheme.cursorAccent TerminalTheme.selectionBackground
       TerminalTheme.selectionForeground].
  split_and!; try apply resolveColor_valid.
  rewrite resolveOptionalColor_parseColor.
  destruct (Theme.parseColor _) as [c|] eqn:Hc; [| done].
  by apply parseColor_valid_aux in Hc.
Qed.

(** X4: [rgbaToCss] writes [rgb(r, g, b)] exactly when the clamped alpha
    is 1, which covers an alpha that is not finite, and otherwise
    [rgba(r, g, b, a)] with the clamped alpha, a number in [0,1); the bytes
    are written as they are. *)
Theorem rgbaToCss_form (color : RGBA.t) :
  let a := Theme.clampAlpha (RGBA.a color) in
  (Num.ge a Num.one = true
   /\ Theme.rgbaToCss color
      = css_rgb (RGBA.r color) (RGBA.g color) (RGBA.b color))
  \/ (Num.le Num.zero a = true /\ Num.lt a Num.one = true
      /\ Theme.rgbaToCss color
         = css_rgba (RGBA.r color) (RGBA.g color) (RGBA.b color) a).
Proof.
  cbn zeta. unfold Theme.rgbaToCss.
  destruct (clampAlpha_range (RGBA.a color)) as (Hlo & Hhi & Hfin).
  destruct (Num.ge _ Num.one) eqn:Hge; [by left | right].
  split_and!; [done | | done].
  unfold Num.ge, Num.le, Num.lt, SFleb, SFltb in *.
  rewrite (SFcompare_swap Num.one (Theme.clampAlpha (RGBA.a color))).
  destruct (SFcompare Num.one _) as [[]|] eqn:Hc; try done.
  (* incomparable: impossible for a finite number *)
  destruct (Theme.clampAlpha (RGBA.a color)) as [[]|[]| |[] m e]; done.
Qed.

Lemma in_all_ascii (c : ascii) : In c all_ascii.
Proof.
  unfold all_ascii. rewrite <- (ascii_nat_embedding c).
  apply in_map, in_seq. pose proof (nat_ascii_bounded c). lia.
Qed.

Lemma digitValue_range (radix : Z) (c : ascii) (d : Z) :
  Str.digitValue radix c = Some d -> 0 <= d < radix.
Proof.
  unfold Str.digitValue.
  set (n := Z.of_nat (nat_of_ascii c)).
  destruct ((48 <=? n) && (n <=? 57)) eqn:E1.
  { destruct (Z.ltb_spec (n - 48) radix); intros [= <-]; lia. }
  destruct ((97 <=? n) && (n <=? 122)) eqn:E2.
  { destruct (Z.ltb_spec (n - 97 + 10) radix); intros [= <-]; lia. }
  destruct ((65 <=? n) && (n <=? 90)) eqn:E3; [| discriminate].
  destruct (Z.ltb_spec (n - 65 + 10) radix); intros [= <-]; lia.
Qed.

(** Two hexadecimal digits are read as one byte. Checked on every pair of
    code units. *)
Lemma parseInt_two (c1 c2 : ascii) (d1 d2 : Z) :
  Str.digitValue 16 c1 = Some d1 -> Str.digitValue 16 c2 = Some d2 ->
  Str.parseInt (String c1 (String c2 EmptyString)) 16 = Some (16 * d1 + d2).
Proof.
  assert (Hall : forallb (fun a =>
            forallb (fun b =>
              match Str.digitValue 16 a, Str.digitValue 16 b with
              | Some x, Some y =>
                  match Str.parseInt (String a (String b EmptyString)) 16 with
                  | Some v => v =? 16 * x + y
                  | None => false
                  end
              | _, _ => true
              end) all_ascii) all_ascii = true) by (vm_compute; reflexivity).
  intros H1 H2. rewrite forallb_forall in Hall.
  specialize (Hall c1 (in_all_ascii c1)). rewrite forallb_forall in Hall.
  specialize (Hall c2 (in_all_ascii c2)). rewrite H1, H2 in Hall.
  destruct (Str.parseInt _ 16) as [v|]; [| discriminate].
  apply Z.eqb_eq in Hall. by subst v.
Qed.

(** Dividing a byte by 255 gives a number of [0,1], which [clampAlpha]
    keeps. Checked on the 256 bytes. *)
Lemma clampAlpha_byte (v : Z) :
  0 <= v <= 255 ->
  Theme.clampAlpha (Num.div (Num.of_Z v) (Num.of_Z 255))
  = Num.div (Num.of_Z v) (Num.of_Z 255).
Proof.
  assert (Hall : forallb (fun v =>
            Num.le Num.zero (Num.div (Num.of_Z v) (Num.of_Z 255))
            && Num.le (Num.div (Num.of_Z v) (Num.of_Z 255)) Num.one)
            (seqZ 0 256) = true) by (vm_compute; reflexivity).
  intros Hv. rewrite forallb_forall in Hall.
  specialize (Hall v). rewrite <- list_elem_of_In, elem_of_seqZ in Hall.
  destruct (andb_prop _ _ (Hall ltac:(lia))) as [Hlo Hhi].
  by apply clampAlpha_id.
Qed.

Lemma clampByte_id (v : Z) : 0 <= v <= 255 -> Theme.clampByte (Some v) = v.
Proof.
  intros Hv. cbn [Theme.clampByte].
  destruct (Z.ltb_spec v 0); [lia |]. destruct (Z.ltb_spec 255 v); lia.
Qed.

Lemma digit16_not_space (c : ascii) (d : Z) :
  Str.digitValue 16 c = Some d -> Str.isWhiteSpace c = false.
Proof.
  intros Hd. apply hexDigit_not_space. unfold isHexDigit. by rewrite Hd.
Qed.

(** X5: how hexadecimal notation is read. Six digits are three bytes, high
    digit first, and the colour is opaque; with eight digits the fourth
    byte divided by 255 is the alpha; three digits [d] are the bytes
    [17 * d]. Letters count in either case. *)
Theorem parseColor_hex_value (c0 c1 c2 c3 c4 c5 c6 c7 : ascii)
    (d0 d1 d2 d3 d4 d5 d6 d7 : Z) :
  Str.digitValue 16 c0 = Some d0 -> Str.digitValue 16 c1 = Some d1 ->
  Str.digitValue 16 c2 = Some d2 -> Str.digitValue 16 c3 = Some d3 ->
  Str.digitValue 16 c4 = Some d4 -> Str.digitValue 16 c5 = Some d5 ->
  Str.digitValue 16 c6 = Some d6 -> Str.digitValue 16 c7 = Some d7 ->
  Theme.parseColor (Some (hashed [c0; c1; c2; c3; c4; c5]))
  = Some (opaque (16 * d0 + d1) (16 * d2 + d3) (16 * d4 + d5))
  /\ Theme.parseColor (Some (hashed [c0; c1; c2; c3; c4; c5; c6; c7]))
     = Some (RGBA.mk (16 * d0 + d1) (16 * d2 + d3) (16 * d4 + d5)
               (Num.div (Num.of_Z (16 * d6 + d7)) (Num.of_Z 255)))
  /\ Theme.parseColor (Some (hashed [c0; c1; c2]))
     = Some (opaque (17 * d0) (17 * d1) (17 * d2)).
Proof.
  intros H0 H1 H2 H3 H4 H5 H6 H7.
  pose proof (digitValue_range _ _ _ H0). pose proof (digitValue_range _ _ _ H1).
  pose proof (digitValue_range _ _ _ H2). pose proof (digitValue_range _ _ _ H3).
  pose proof (digitValue_range _ _ _ H4). pose proof (digitValue_range _ _ _ H5).
  pose proof (digitValue_range _ _ _ H6). pose proof (digitValue_range _ _ _ H7).
  pose proof (digit16_not_space _ _ H0) as W0.
  pose proof (digit16_not_space _ _ H2) as W2.
  pose proof (digit16_not_space _ _ H5) as W5.
  pose proof (digit16_not_space _ _ H7) as W7.
  assert (Hff : Str.parseInt "ff" 16 = Some 255) by reflexivity.
  assert (Hone : Theme.clampAlpha (Num.div (Num.of_Z 255) (Num.of_Z 255)) = Num.one)
    by reflexivity.
  split_and!.
  - change (Theme.parseColor (Some (hashed [c0; c1; c2; c3; c4; c5])))
      with (Theme.parseHexColor (hashed [c0; c1; c2; c3; c4; c5])).
    unfold Theme.parseHexColor, hashed. cbn [string_of_list_ascii Str.slice_from].
    unfold Str.trim, Str.rev. cbn [Str.skipWhiteSpace Str.rev_acc]. rewrite W0.
    cbn [Str.skipWhiteSpace Str.rev_acc]. rewrite W5.
    cbn [Str.rev_acc String.length existsb Nat.eqb negb orb Str.slice Str.take
         Str.slice_from Nat.sub].
    rewrite (parseInt_two _ _ _ _ H0 H1), (parseInt_two _ _ _ _ H2 H3),
      (parseInt_two _ _ _ _ H4 H5), Hff, Hone.
    rewrite !clampByte_id by lia. reflexivity.
  - change (Theme.parseColor (Some (hashed [c0; c1; c2; c3; c4; c5; c6; c7])))
      with (Theme.parseHexColor (hashed [c0; c1; c2; c3; c4; c5; c6; c7])).
    unfold Theme.parseHexColor, hashed. cbn [string_of_list_ascii Str.slice_from].
    unfold Str.trim, Str.rev. cbn [Str.skipWhiteSpace Str.rev_acc]. rewrite W0.
    cbn [Str.skipWhiteSpace Str.rev_acc]. rewrite W7.
    cbn [Str.rev_acc String.length existsb Nat.eqb negb orb Str.slice Str.take
         Str.slice_from Nat.sub].
    rewrite (parseInt_two _ _ _ _ H0 H1), (parseInt_two _ _ _ _ H2 H3),
      (parseInt_two _ _ _ _ H4 H5), (parseInt_two _ _ _ _ H6 H7).
    rewrite !clampByte_id, clampAlpha_byte by lia. reflexivity.
  - change (Theme.parseColor (Some (hashed [c0; c1; c2])))
      with (Theme.parseHexColor (hashed [c0; c1; c2])).
    unfold Theme.parseHexColor, hashed. cbn [string_of_list_ascii Str.slice_from].
    unfold Str.trim, Str.rev. cbn [Str.skipWhiteSpace Str.rev_acc]. rewrite W0.
    cbn [Str.skipWhiteSpace Str.rev_acc]. rewrite W2.
    cbn [Str.rev_acc String.length existsb Nat.eqb negb orb Str.index
         Str.at_index String.get append].
    change (String c0 "" ++ String c0 "")%string with (String c0 (String c0 "")).
    change (String c1 "" ++ String c1 "")%string with (String c1 (String c1 "")).
    change (String c2 "" ++ String c2 "")%string with (String c2 (String c2 "")).
    rewrite (parseInt_two _ _ _ _ H0 H0), (parseInt_two _ _ _ _ H1 H1),
      (parseInt_two _ _ _ _ H2 H2), Hff, Hone.
    rewrite !clampByte_id by lia. unfold opaque. repeat f_equal; lia.
Qed.

Lemma parseColor_hex_value_witness :
  Theme.parseColor (Some "#1e1E2f")
  = Some (opaque (16 * 1 + 14) (16 * 1 + 14) (16 * 2 + 15)).
Proof.
  apply (parseColor_hex_value "1" "e" "1" "E" "2" "f" "0" "0"
           1 14 1 14 2 15 0 0)%char; reflexivity.
Defined.

Lemma isDigit_not_space (c : ascii) :
  Str.isDigit c = true -> Str.isWhiteSpace c = false.
Proof. destruct c as [[] [] [] [] [] [] [] []]; vm_compute; congruence. Qed.

Lemma isDigit_value (c : ascii) :
  Str.isDigit c = true ->
  Str.digitValue 10 c = Some (Z.of_nat (nat_of_ascii c) - 48).
Proof. destruct c as [[] [] [] [] [] [] [] []]; vm_compute; congruence. Qed.

Lemma readDigits_all (m : string) (acc : Z) (n : nat) :
  allDigits m = true ->
  Str.readDigits 10 m acc n
  = (fold_left (fun acc c => 10 * acc + (Z.of_nat (nat_of_ascii c) - 48))
               (list_ascii_of_string m) acc,
     (n + String.length m)%nat, EmptyString).
Proof.
  revert acc n. induction m as [|c m IH]; intros acc n Hm.
  - cbn. by rewrite Nat.add_0_r.
  - unfold allDigits in Hm. cbn [list_ascii_of_string forallb] in Hm.
    apply andb_prop in Hm as [Hc Hm].
    cbn [Str.readDigits]. rewrite (isDigit_value c Hc), IH by exact Hm.
    cbn [list_ascii_of_string fold_left String.length].
    replace (acc * 10 + (Z.of_nat (nat_of_ascii c) - 48))
      with (10 * acc + (Z.of_nat (nat_of_ascii c) - 48)) by lia.
    by rewrite Nat.add_succ_r.
Qed.

Lemma parseInt_decimal (m : string) :
  allDigits m = true -> m <> EmptyString ->
  Str.parseInt m 10 = Some (decimal m).
Proof.
  destruct m as [|c m]; [done |]. intros Hm _.
  unfold allDigits in Hm. cbn [list_ascii_of_string forallb] in Hm.
  apply andb_prop in Hm as [Hc Hm].
  assert (Str.parseInt (String c m) 10
          = let '(v, count, _) :=
              Str.readDigits 10 m (Z.of_nat (nat_of_ascii c) - 48) 1 in
            match count with O => None | S _ => Some v end) as ->.
  { destruct c as [[] [] [] [] [] [] [] []];
      first [ discriminate Hc | reflexivity ]. }
  rewrite readDigits_all by exact Hm. cbn [Nat.add].
  unfold decimal. cbn [list_ascii_of_string fold_left]. f_equal.
Qed.

Lemma decimal_nonneg (m : string) : allDigits m = true -> 0 <= decimal m.
Proof.
  unfold decimal, allDigits.
  assert (forall l acc, forallb Str.isDigit l = true -> 0 <= acc ->
    0 <= fold_left (fun acc c => 10 * acc + (Z.of_nat (nat_of_ascii c) - 48))
           l acc) as H.
  { induction l as [|c l IH]; intros acc Hl Hacc; [done |].
    cbn [forallb] in Hl. apply andb_prop in Hl as [Hc Hl].
    cbn [fold_left]. apply IH; [done |].
    pose proof (isDigit_value c Hc) as Hv.
    apply digitValue_range in Hv. lia. }
  intros Hm. by apply H.
Qed.

Lemma component_digits_cases (m : string) :
  component_digits m ->
  (exists a, m = String a EmptyString /\ Str.isDigit a = true)
  \/ (exists a b, m = String a (String b EmptyString)
                  /\ Str.isDigit a = true /\ Str.isDigit b = true)
  \/ (exists a b c, m = String a (String b (String c EmptyString))
                    /\ Str.isDigit a = true /\ Str.isDigit b = true
                    /\ Str.isDigit c = true).
Proof.
  intros [Hd Hl]. unfold allDigits in Hd.
  destruct m as [|a [|b [|c [|d m]]]]; cbn [String.length] in Hl; try lia;
    cbn [list_ascii_of_string forallb] in Hd;
    repeat (apply andb_prop in Hd as [? Hd]); eauto 10.
Qed.

(** One colour component followed by a character that is neither a digit
    nor white space. *)
Lemma component_spec (m : string) (c : ascii) (r : string) :
  component_digits m -> Str.isDigit c = false -> Str.isWhiteSpace c = false ->
  Theme.component (m ++ String c r) = Some (m, String c r).
Proof.
  intros Hm Hc Wc.
  destruct (component_digits_cases m Hm)
    as [(a & -> & Ha) | [(a & b & -> & Ha & Hb) | (a & b & d & -> & Ha & Hb & Hd)]];
    pose proof (isDigit_not_space a Ha) as Wa;
    unfold Theme.component; cbv [String.append]; cbn [Str.skipWhiteSpace]; rewrite Wa.
  - destruct r as [|x r]; cbn [Theme.digits13 Str.take]; rewrite Ha, Hc;
      cbn [Str.skipWhiteSpace]; by rewrite Wc.
  - cbn [Theme.digits13 Str.take]. rewrite Ha, Hb, Hc.
    cbn [Str.skipWhiteSpace]. by rewrite Wc.
  - cbn [Theme.digits13 Str.take]. rewrite Ha, Hb, Hd.
    cbn [Str.skipWhiteSpace]. by rewrite Wc.
Qed.

Lemma rgbMatch_plain (m1 m2 m3 : string) :
  component_digits m1 -> component_digits m2 -> component_digits m3 ->
  Theme.rgbMatch ("rgb(" ++ m1 ++ "," ++ m2 ++ "," ++ m3 ++ ")")
  = Some (m1, m2, m3, None).
Proof.
  intros H1 H2 H3. unfold Theme.rgbMatch.
  cbv [String.append]; fold String.append.
  cbn [Str.stripPrefix Ascii.eqb Bool.eqb mbind option_bind Theme.expect].
  rewrite (component_spec m1 "," _ H1 eq_refl eq_refl).
  cbn [mbind option_bind Theme.expect Ascii.eqb Bool.eqb].
  rewrite (component_spec m2 "," _ H2 eq_refl eq_refl).
  cbn [mbind option_bind Theme.expect Ascii.eqb Bool.eqb].
  rewrite (component_spec m3 ")" _ H3 eq_refl eq_refl).
  reflexivity.
Qed.

Lemma clampByte_min (v : Z) : 0 <= v -> Theme.clampByte (Some v) = Z.min 255 v.
Proof.
  intros Hv. cbn [Theme.clampByte].
  destruct (Z.ltb_spec v 0); [lia |]. destruct (Z.ltb_spec 255 v); lia.
Qed.

(** X6: how functional notation without alpha is read. With three
    components of one to three decimal digits each, [rgb(r,g,b)] is the
    opaque colour whose bytes are the numbers written, 255 standing for
    any number above it. *)
Theorem parseColor_rgb_value (m1 m2 m3 : string) :
  component_digits m1 -> component_digits m2 -> component_digits m3 ->
  Theme.parseColor (Some ("rgb(" ++ m1 ++ "," ++ m2 ++ "," ++ m3 ++ ")"))
  = Some (opaque (Z.min 255 (decimal m1)) (Z.min 255 (decimal m2))
                 (Z.min 255 (decimal m3))).
Proof.
  intros H1 H2 H3.
  assert (forall m, component_digits m ->
            Theme.clampByte (Str.parseInt m 10) = Z.min 255 (decimal m)) as Hb.
  { intros m [Hd Hl]. rewrite parseInt_decimal; [| done |].
    - by apply clampByte_min, decimal_nonneg.
    - intros ->. cbn in Hl. lia. }
  set (s := ("rgb(" ++ m1 ++ "," ++ m2 ++ "," ++ m3 ++ ")")%string).
  assert (Theme.parseColor (Some s)
          = match Theme.rgbMatch s with
            | Some (a1, a2, a3, a4) =>
                Some {| RGBA.r := Theme.clampByte (Str.parseInt a1 10);
                        RGBA.g := Theme.clampByte (Str.parseInt a2 10);
                        RGBA.b := Theme.clampByte (Str.parseInt a3 10);
                        RGBA.a := match a4 with
                                  | Some m => Theme.clampAlpha (Str.parseFloat m)
                                  | None => Num.one
                                  end |}
            | None => None
            end) as -> by reflexivity.
  subst s. rewrite (rgbMatch_plain m1 m2 m3 H1 H2 H3).
  by rewrite !Hb.
Qed.

Lemma parseColor_rgb_value_witness :
  Theme.parseColor (Some "rgb(30,999,07)") = Some (opaque 30 255 7).
Proof.
  apply (parseColor_rgb_value "30" "999" "07"); split; (reflexivity || cbn; lia).
Defined.

End ThemeExtra.

(** ** Frame scheduler *)

Module SchedulerExtra.
Import Scheduler SchedulerSpec SchedulerProps.
Section WithCallbacks.
Context {CB : Type} (body : CB -> number -> option number -> Prog CB).
Implicit Types (s : RenderScheduler CB) (cs : list (Call CB)).

Ltac fields :=
  cbn [fst snd pending nextId rafId requests nextHandle invoked flushes
       set_pending set_nextId set_rafId requestAnimationFrame].

Lemma call_settled s c : settled s -> settled (call s c).
Proof.
  intros [Hi Hs]. split; [by apply call_issued |].
  destruct c as [cb at_ | id]; cbn [call].
  - right. unfold schedule, ensureRaf. fields.
    destruct Hs as [(Hr & Hq & _) | (h & Hr & Hq)]; rewrite Hr; fields.
    + exists (nextHandle s). by rewrite Hq.
    + by exists h.
  - destruct Hs as [(Hr & Hq & Hp) | (h & Hr & Hq)]; [left | right].
    + unfold cancel. fields. by rewrite Hp.
    + by exists h.
Qed.

Lemma boundary_settled now s :
  settled s ->
  settled (boundary body now s)
  /\ (flushes (boundary body now s) <= S (flushes s))%nat.
Proof.
  intros [Hi Hs]. unfold boundary.
  destruct Hs as [(Hr & Hq & Hp) | (h & Hr & Hq)]; rewrite Hq; cbn [fold_left].
  - split; [| fields; lia]. split; [exact Hi | by left].
  - set (s1 := mk _ _ _ [] _ _ _).
    destruct (flush_spec body now s1) as (_ & Hfl & Harmed & Hkeys & Hn).
    split; [| rewrite Hfl; subst s1; fields; lia]. split.
    + eapply Forall_impl; [exact Hkeys |]. cbn beta. intros k Hk'. lia.
    + destruct Harmed as [(Hnone & Hreq & Hn') | (h' & Hsome & Hreq & _)].
      * left. split_and!; [done | done |].
        rewrite Hn' in Hkeys.
        destruct (pending (flush body now s1)) as [|[k v] m]; [done |].
        inversion_clear Hkeys as [|? ? Hk' _]. cbn [fst] in Hk'. lia.
      * right. by exists h'.
Qed.





Lemma run_settled_from es s :
  settled s ->
  settled (run body es s)
  /\ (flushes (run body es s) <= flushes s + boundaries es)%nat.
Proof.
  revert s. induction es as [|e es IH]; intros s Hs.
  - split; [done |]. cbn. lia.
  - cbn [run fold_left]. destruct e as [c | now]; cbn [step].
    + destruct (IH (call s c) (call_settled s c Hs)) as [? Hfl].
      split; [done |]. etransitivity; [exact Hfl |].
      unfold boundaries. cbn [List.filter].
      assert (flushes (call s c) = flushes s) as ->; [| done].
      destruct c as [cb at_ | id]; [apply schedule_log | done].
    + destruct (boundary_settled now s Hs) as [Hs' Hfl'].
      destruct (IH _ Hs') as [? Hfl].
      split; [done |]. etransitivity; [exact Hfl |].
      unfold boundaries. cbn [List.filter List.length]. lia.
Qed.

(** X7: whatever is called on a new scheduler and whenever the display
    refreshes, between these events the scheduler is settled: at most one
    animation-frame request is outstanding, the scheduler holds its handle
    exactly when there is one, and there is one whenever something is
    pending. [flush] has run at most once for each boundary. *)
Theorem run_settled (h : Z) (es : list (Event CB)) :
  let s := run body es (new h) in
  settled s
  /\ (List.length (requests s) <= 1)%nat
  /\ (is_Some (rafId s) <-> requests s <> [])
  /\ (pending s <> [] -> exists r, requests s = [r] /\ rafId s = Some r)
  /\ (flushes s <= boundaries es)%nat.
Proof.
  cbn zeta.
  destruct (run_settled_from es (new h) (new_settled h)) as [Hs Hfl].
  split_and!; [exact Hs | | | | exact Hfl].
  - destruct Hs as [_ [(_ & -> & _) | (r & _ & ->)]]; cbn; lia.
  - destruct Hs as [_ [(-> & -> & _) | (r & -> & ->)]].
    + split; [by intros [? ?] | done].
    + split; [done | by eexists].
  - intros Hp. destruct Hs as [_ [(_ & _ & Hp') | (r & Hr & Hq)]]; [done |].
    by exists r.
Qed.


Lemma delete_last {V} (k : Z) (v : V) (m : JsMap.t V) :
  Forall (fun k' => k' < k) (JsMap.keys m) ->
  JsMap.delete k (m ++ [(k, v)])%list = m.
Proof.
  intros Hm. unfold JsMap.delete. rewrite List.filter_app.
  cbn [List.filter fst]. rewrite Z.eqb_refl. cbn [negb]. rewrite app_nil_r.
  apply (delete_absent k m).
  eapply Forall_impl; [exact Hm |]. cbn beta. intros; lia.
Qed.

(** X9: [cancel] undoes the registration of [schedule] but not its
    request. After [schedule] and [cancel] of the handle it returned,
    what is pending is what was pending before, and a request is
    outstanding all the same; on a scheduler that was idle, the next
    boundary then runs a flush that invokes nothing and leaves the
    scheduler idle again. *)
Theorem cancel_keeps_request s cb at_ (now : number) :
  settled s ->
  let '(id, s1) := schedule cb at_ s in
  let s2 := cancel id s1 in
  pending s2 = pending s
  /\ (exists r, rafId s2 = Some r /\ requests s2 = [r])
  /\ (pending s = [] ->
      let s3 := boundary body now s2 in
      invoked s3 = invoked s
      /\ flushes s3 = S (flushes s)
      /\ pending s3 = [] /\ rafId s3 = None /\ requests s3 = []).
Proof.
  intros Hs. destruct (schedule cb at_ s) as [id s1] eqn:H1.
  assert (id = nextId s) as -> by (by rewrite <- (schedule_handle cb at_ s), H1).
  assert (s1 = snd (schedule cb at_ s)) as -> by by rewrite H1.
  clear H1. cbn zeta.
  pose proof (call_settled s (CallSchedule cb at_) Hs) as Hs1. cbn [call] in Hs1.
  pose proof (call_settled _ (CallCancel (nextId s)) Hs1) as Hs2. cbn [call] in Hs2.
  assert (pending (cancel (nextId s) (snd (schedule cb at_ s))) = pending s) as Hp.
  { unfold cancel. fields. rewrite schedule_pending by apply Hs.
    apply delete_last, Hs. }
  assert (exists r, rafId (cancel (nextId s) (snd (schedule cb at_ s))) = Some r
                    /\ requests (cancel (nextId s) (snd (schedule cb at_ s))) = [r])
    as (r & Hr & Hq).
  { destruct Hs1 as [_ [(Hnone & _) | (r & Hr & Hq)]].
    - exfalso. revert Hnone. unfold schedule, ensureRaf. fields.
      destruct (rafId s) eqn:E; fields; [by rewrite E | done].
    - by exists r. }
  split_and!; [exact Hp | by exists r |].
  intros Hempty. unfold boundary. rewrite Hq. cbn [fold_left].
  unfold flush. fields. rewrite Hp, Hempty. cbn [JsMap.size List.length Z.of_nat Z.eqb].
  fields. unfold cancel. fields.
  destruct (schedule_log cb at_ s) as [-> ->]. done.
Qed.

End WithCallbacks.

Lemma fold_left_step {A B} (f : A -> B -> A) (b : B) (l : list B) (a : A) :
  fold_left f (b :: l) a = fold_left f l (f a b).
Proof. reflexivity. Qed.

(** A render loop runs once for each frame. *)
Lemma reschedule_boundary (c : nat) (at_ : option number) (now : number)
    (n hr nh : Z) log fl :
  boundary reschedule now
    (mk [(n, Build_PendingRender c at_)] (n + 1) (Some hr) [hr] nh log fl)
  = mk [(n + 1, Build_PendingRender c at_)] (n + 1 + 1) (Some nh) [nh] (nh + 1)
       (log ++ [(c, now, at_)])%list (S fl).
Proof. reflexivity. Qed.

(** X10: a callback that registers itself again each time it runs is
    invoked exactly once at each boundary, with the time of that boundary
    and the time stamp it was given at first, and one request is
    outstanding after each of them. *)
Theorem render_loop_once_per_frame (c : nat) (at_ : option number) (h : Z)
    (times : list number) :
  let s0 := snd (schedule c at_ (new h)) in
  let s := fold_left (fun s now => boundary reschedule now s) times s0 in
  invoked s = List.map (fun now => (c, now, at_)) times
  /\ flushes s = List.length times
  /\ (exists r, requests s = [r])
  /\ JsMap.values (pending s) = [Build_PendingRender c at_].
Proof.
  cbn zeta.
  assert (snd (schedule c at_ (new h))
          = mk [(1, Build_PendingRender c at_)] (1 + 1) (Some h) [h] (h + 1)
               (@nil (nat * number * option number)) 0) as -> by reflexivity.
  assert (forall n hr nh log fl,
    let s := fold_left (fun s now => boundary reschedule now s) times
               (mk [(n, Build_PendingRender c at_)] (n + 1) (Some hr) [hr] nh
                   log fl) in
    invoked s = (log ++ List.map (fun now => (c, now, at_)) times)%list
    /\ flushes s = (fl + List.length times)%nat
    /\ (exists r, requests s = [r])
    /\ JsMap.values (pending s) = [Build_PendingRender c at_]) as H.
  { induction times as [|now times IH]; intros n hr nh log fl; cbn zeta.
    - cbn [fold_left List.map List.length]. rewrite app_nil_r, Nat.add_0_r.
      split_and!; [done | done | by eexists | done].
    - rewrite fold_left_step, reschedule_boundary.
      destruct (IH (n + 1) nh (nh + 1) (log ++ [(c, now, at_)])%list (S fl))
        as (-> & -> & Hr & Hp).
      cbn [List.map List.length]. rewrite <- app_assoc.
      split_and!; [done | lia | done | done]. }
  destruct (H 1 h (h + 1) [] O) as (Hi & Hf & Hr & Hp).
  split_and!; [exact Hi | exact Hf | exact Hr | exact Hp].
Qed.

(** *** Concrete runs *)

Lemma cancel_keeps_request_witness :
  let s2 := cancel 1 (snd (schedule 5%nat None (new 7))) in
  pending s2 = []
  /\ (exists r, rafId s2 = Some r /\ requests s2 = [r])
  /\ invoked (boundary register_and_cancel Num.zero s2) = []
  /\ flushes (boundary register_and_cancel Num.zero s2) = 1%nat.
Proof.
  cbn zeta.
  pose proof (cancel_keeps_request register_and_cancel (new 7) 5%nat None
                Num.zero (new_settled 7)) as H.
  hnf in H. destruct H as (Hp & Hr & Hb).
  destruct (Hb eq_refl) as (Hinv & Hfl & _).
  split_and!; [exact Hp | exact Hr | exact Hinv | exact Hfl].
Defined.

End SchedulerExtra.

(** ** Canvas renderer *)

Module RendererExtra.
Import CanvasRenderer RendererSpec RendererProps.
Local Open Scope js_scope.

Lemma alpha_ret a : alpha_to a a (ret tt).
Proof.
  intros this c Hc _ Ha. exists c. split; [| done].
  destruct this. cbn [ctx] in Hc. by subst.
Qed.

Lemma alpha_bind a b d (m : M unit) (k : unit -> M unit) :
  alpha_to a b m -> (forall u, alpha_to b d (k u)) -> alpha_to a d (bind m k).
Proof.
  intros Hm Hk this c Hc Hcv Ha.
  destruct (Hm this c Hc Hcv Ha) as (c1 & Hrun & Hb).
  destruct (Hk tt (set_ctx (Some c1) this) c1 eq_refl Hcv Hb) as (c2 & Hrun2 & Hd).
  exists c2. unfold bind. rewrite Hrun, Hrun2. done.
Qed.

Lemma alpha_gets {A} a b (f : t -> A) (k : A -> M unit) :
  (forall x, alpha_to a b (k x)) -> alpha_to a b (bind (gets f) k).
Proof. intros Hk this c Hc Hcv Ha. apply (Hk (f this) this c Hc Hcv Ha). Qed.

Lemma alpha_requireContext a b (k : unit -> M unit) :
  (forall u, alpha_to a b (k u)) -> alpha_to a b (bind requireContext k).
Proof.
  intros Hk this c Hc [cv Hcv] Ha. unfold bind, requireContext. rewrite Hc, Hcv.
  apply (Hk tt this c Hc); [by exists cv | done].
Qed.

Lemma alpha_requireCanvas a b (k : HTMLCanvasElement.t -> M unit) :
  (forall cv, alpha_to a b (k cv)) -> alpha_to a b (bind requireCanvas k).
Proof.
  intros Hk this c Hc [cv Hcv] Ha. unfold bind, requireCanvas. rewrite Hcv.
  apply (Hk cv this c Hc); [by exists cv | done].
Qed.

Lemma alpha_on_ctx_keep a (f : Ctx2D.t -> Ctx2D.t) :
  (forall c, Ctx2D.globalAlpha (f c) = Ctx2D.globalAlpha c) ->
  alpha_to a a (on_ctx f).
Proof.
  intros Hf this c Hc _ Ha. exists (f c). split; [| by rewrite Hf].
  unfold on_ctx, modify. by rewrite Hc.
Qed.

Lemma alpha_on_ctx_set a v : alpha_to a v (on_ctx (Ctx2D.set_globalAlpha v)).
Proof.
  intros this c Hc _ Ha. exists (Ctx2D.set_globalAlpha v c). split; [| done].
  unfold on_ctx, modify. by rewrite Hc.
Qed.

Lemma alpha_for_each {A} a (l : list A) (f : A -> M unit) :
  (forall x, alpha_to a a (f x)) -> alpha_to a a (for_each l f).
Proof.
  intros Hf. induction l as [|x l IH]; [apply alpha_ret |].
  cbn [for_each]. eapply alpha_bind; [apply Hf | intros _; apply IH].
Qed.

Ltac alpha_step :=
  lazymatch goal with
  | |- alpha_to _ _ (ret _) => apply alpha_ret
  | |- alpha_to _ _ (on_ctx (Ctx2D.set_globalAlpha _)) => apply alpha_on_ctx_set
  | |- alpha_to _ _ (on_ctx _) => apply alpha_on_ctx_keep; intros ?; reflexivity
  | |- alpha_to _ _ (for_each _ _) => apply alpha_for_each; intros ?
  | |- alpha_to _ _ (bind (gets _) _) => apply alpha_gets; intros ?
  | |- alpha_to _ _ (bind requireContext _) => apply alpha_requireContext; intros ?
  | |- alpha_to _ _ (bind requireCanvas _) => apply alpha_requireCanvas; intros ?
  | |- alpha_to _ _ (bind _ _) => eapply alpha_bind; [| intros ?]
  | |- alpha_to _ _ (if ?b then _ else _) => destruct b
  | |- alpha_to _ _ (match ?x with _ => _ end) => destruct x
  | |- alpha_to _ _ (let _ := _ in _) => cbv zeta
  end.

Ltac alpha_auto := repeat alpha_step.

Section Methods.
Context (CellFlags : CellFlags.t) (DirtyState_FULL : Z).

Lemma alpha_renderCellBackground cell x y :
  alpha_to Num.one Num.one (renderCellBackground CellFlags cell x y).
Proof. unfold renderCellBackground. alpha_auto. Qed.

Lemma alpha_renderCellText cell x y :
  alpha_to Num.one Num.one (renderCellText CellFlags cell x y).
Proof.
  unfold renderCellText, strokeLine. cbv zeta.
  destruct (has (GhosttyCell.flags cell) (CellFlags.FAINT CellFlags));
    alpha_auto.
Qed.

Lemma alpha_renderLine cells row cols :
  alpha_to Num.one Num.one (renderLine CellFlags cells row cols).
Proof.
  unfold renderLine, pass, for_range, cell_step. alpha_auto;
    first [apply alpha_renderCellBackground | apply alpha_renderCellText].
Qed.

Lemma alpha_renderCursor x y style :
  alpha_to Num.one Num.one (renderCursor x y style).
Proof. unfold renderCursor. alpha_auto. Qed.

Lemma alpha_renderScrollbar viewportY scrollbackLength visibleRows opacity :
  alpha_to Num.one Num.one
    (renderScrollbar viewportY scrollbackLength visibleRows opacity).
Proof. unfold renderScrollbar. alpha_auto. Qed.


(** What [render] does after the rows: the cursor and the scrollbar. *)
Lemma render_unfold (input : RenderInput.t) (this : t) c cv :
  ctx this = Some c -> canvas this = Some cv ->
  render CellFlags DirtyState_FULL input this
  = (for_each (repaintedRows DirtyState_FULL input)
       (fun y => renderLine CellFlags (RenderInput.viewportCells input) y
                   (RenderInput.cols input)) ;;
     (if RenderInput.cursorVisible input then
        renderCursor (RenderInput.cursorX input) (RenderInput.cursorY input)
          (RenderInput.cursorStyle input)
      else ret tt) ;;
     if Num.gt (RenderInput.scrollbarOpacity input) Num.zero
        && (RenderInput.scrollbackLength input >? 0)
     then renderScrollbar (RenderInput.viewportY input)
            (RenderInput.scrollbackLength input) (RenderInput.rows input)
            (RenderInput.scrollbarOpacity input)
     else ret tt) (prepared input this).
Proof.
  intros Hc Hcv. destruct this as [cv0 c0 fs ff th dpr m sel hov gr].
  cbn [ctx canvas] in Hc, Hcv. subst cv0 c0. reflexivity.
Qed.

Lemma renderLine_opaque this c cv cells row cols :
  ctx this = Some c -> canvas this = Some cv ->
  Ctx2D.globalAlpha c = Num.one ->
  exists c' block,
    renderLine CellFlags cells row cols this = (Ok tt, set_ctx (Some c') this)
    /\ Ctx2D.painted c' = (Ctx2D.painted c ++ block)%list
    /\ clearsRow this cols row block
    /\ Ctx2D.globalAlpha c' = Num.one.
Proof.
  intros Hc Hcv Ha.
  destruct (alpha_renderLine cells row cols this c Hc (ex_intro _ cv Hcv) Ha)
    as (c' & Hrun & Ha').
  destruct (renderLine_pass1 CellFlags this c cv cells row cols Hc Hcv)
    as (c1 & Hrun1 & Hp1).
  destruct (draws_pass (renderCellText CellFlags) cells row cols
              (draws_renderCellText CellFlags) (set_ctx (Some c1) this) c1 eq_refl)
    as (c2 & l & Hrun2 & Hp2).
  { destruct this. by exists cv. }
  rewrite Hrun1, Hrun2 in Hrun. injection Hrun as ->.
  exists c'. eexists. split_and!; [by rewrite Hrun1, Hrun2 | | | exact Ha'].
  - rewrite Hp2, Hp1, Ha, <- app_assoc. reflexivity.
  - eexists. reflexivity.
Qed.

Lemma renderLines_opaque this cv cells cols (ys : list Z) c :
  ctx this = Some c -> canvas this = Some cv ->
  Ctx2D.globalAlpha c = Num.one ->
  exists c' blocks,
    for_each ys (fun y => renderLine CellFlags cells y cols) this
      = (Ok tt, set_ctx (Some c') this)
    /\ Ctx2D.painted c' = (Ctx2D.painted c ++ concat blocks)%list
    /\ Forall2 (clearsRow this cols) ys blocks
    /\ Ctx2D.globalAlpha c' = Num.one.
Proof.
  intros Hc Hcv.
  enough (forall c, Ctx2D.globalAlpha c = Num.one ->
          exists c' blocks,
            for_each ys (fun y => renderLine CellFlags cells y cols)
              (set_ctx (Some c) this)
            = (Ok tt, set_ctx (Some c') this)
            /\ Ctx2D.painted c' = (Ctx2D.painted c ++ concat blocks)%list
            /\ Forall2 (clearsRow this cols) ys blocks
            /\ Ctx2D.globalAlpha c' = Num.one) as Haux.
  { destruct this. cbn [ctx] in Hc. subst. apply (Haux c). }
  clear c Hc. induction ys as [|y ys IH]; intros c Ha.
  - exists c, []. cbn [for_each concat]. rewrite app_nil_r.
    split_and!; [done | done | constructor | done].
  - cbn [for_each]. unfold bind at 1.
    destruct (renderLine_opaque (set_ctx (Some c) this) c cv cells y cols eq_refl)
      as (c1 & block & Hrun & Hp & Hb & Ha1); [by destruct this | done |].
    rewrite Hrun.
    change (set_ctx (Some c1) (set_ctx (Some c) this))
      with (set_ctx (Some c1) this).
    destruct (IH c1 Ha1) as (c2 & blocks & Hrun2 & Hp2 & Hbs & Ha2).
    exists c2, (block :: blocks). split_and!.
    + exact Hrun2.
    + rewrite Hp2, Hp. cbn [concat]. by rewrite app_assoc.
    + constructor; [exact Hb | exact Hbs].
    + exact Ha2.
Qed.

(** X13: [render] keeps the context opaque. When [globalAlpha] is 1 as
    [render] starts it is 1 when it returns, although the selection
    overlay and faint text are painted translucent in between, and every
    row that is repainted is first cleared with an opaque rectangle of
    the background of the theme of this frame. *)
Theorem render_keeps_opaque (input : RenderInput.t) (this : t) c cv :
  ctx this = Some c -> canvas this = Some cv ->
  Ctx2D.globalAlpha c = Num.one ->
  let this0 := prepared input this in
  exists c' blocks tail,
    render CellFlags DirtyState_FULL input this
      = (Ok tt, set_ctx (Some c') this0)
    /\ Ctx2D.globalAlpha c' = Num.one
    /\ Ctx2D.painted c' = (Ctx2D.painted c ++ concat blocks ++ tail)%list
    /\ Forall2 (clearsRow this0 (RenderInput.cols input))
         (repaintedRows DirtyState_FULL input) blocks.
Proof.
  intros Hc Hcv Ha. cbn zeta.
  rewrite (render_unfold input this c cv Hc Hcv).
  set (this0 := prepared input this).
  assert (ctx this0 = Some c) as Hc0 by (by destruct this).
  assert (canvas this0 = Some cv) as Hcv0 by (by destruct this).
  destruct (renderLines_opaque this0 cv (RenderInput.viewportCells input)
              (RenderInput.cols input) (repaintedRows DirtyState_FULL input)
              c Hc0 Hcv0 Ha) as (c1 & blocks & Hrun & Hp & Hbs & Ha1).
  unfold bind at 1. rewrite Hrun.
  set (after := bind _ _).
  assert (alpha_to Num.one Num.one after) as Hafter.
  { unfold after. alpha_auto;
      first [apply alpha_renderCursor | apply alpha_renderScrollbar]. }
  assert (draws after) as Hdraws.
  { unfold after. draws_auto;
      first [apply draws_renderCursor | apply draws_renderScrollbar]. }
  assert (is_Some (canvas (set_ctx (Some c1) this0))) as Hcv1
    by (destruct this; by exists cv).
  destruct (Hafter (set_ctx (Some c1) this0) c1 eq_refl Hcv1 Ha1)
    as (c' & Hrun' & Ha').
  destruct (Hdraws (set_ctx (Some c1) this0) c1 eq_refl Hcv1)
    as (c'' & tail & Hrun'' & Hp'').
  rewrite Hrun' in Hrun''. injection Hrun'' as <-.
  exists c', blocks, tail. split_and!; [exact Hrun' | exact Ha' | | exact Hbs].
  by rewrite Hp'', Hp, <- app_assoc.
Qed.

(** X14: the cursor is painted over the rows. When the cursor is visible
    and no scrollbar is drawn, the last thing [render] paints is one
    rectangle in the cursor colour of the theme of this frame: the whole
    cell for a block, a strip at its bottom for an underline and at its
    left for a bar, the strip 15% of the cell and at least 2 pixels. *)
Theorem cursor_painted_last (input : RenderInput.t) (this : t) c cv :
  ctx this = Some c -> canvas this = Some cv ->
  RenderInput.cursorVisible input = true ->
  Num.gt (RenderInput.scrollbarOpacity input) Num.zero
  && (RenderInput.scrollbackLength input >? 0) = false ->
  exists c' before alpha,
    render CellFlags DirtyState_FULL input this
      = (Ok tt, set_ctx (Some c') (prepared input this))
    /\ Ctx2D.painted c'
       = (before
          ++ [fillOf
                (Theme.rgbaToCss
                   (TerminalTheme.cursor (RenderInput.theme input)))
                alpha
                (cursorRect (metrics this) (RenderInput.cursorX input)
                   (RenderInput.cursorY input)
                   (RenderInput.cursorStyle input))])%list
    /\ (Ctx2D.globalAlpha c = Num.one -> alpha = Num.one).
Proof.
  intros Hc Hcv Hcur Hbar.
  rewrite (render_unfold input this c cv Hc Hcv), Hcur, Hbar.
  set (this0 := prepared input this).
  assert (ctx this0 = Some c) as Hc0 by (by destruct this).
  assert (canvas this0 = Some cv) as Hcv0 by (by destruct this).
  destruct (renderLines_blocks CellFlags this0 cv (RenderInput.viewportCells input)
              (RenderInput.cols input) (repaintedRows DirtyState_FULL input)
              c Hc0 Hcv0) as (c1 & blocks & Hrun & Hp & Hbs).
  unfold bind at 1. rewrite Hrun.
  exists (let '(x, y, w, h) :=
            cursorRect (metrics this) (RenderInput.cursorX input)
              (RenderInput.cursorY input) (RenderInput.cursorStyle input) in
          Ctx2D.fillRect x y w h
            (Ctx2D.set_fillStyle
               (Theme.rgbaToCss (TerminalTheme.cursor (RenderInput.theme input)))
               c1)),
    (Ctx2D.painted c1), (Ctx2D.globalAlpha c1). split_and!.
  - subst this0. destruct this as [cv0 c0 fs ff th dpr m sel hov gr].
    cbn [ctx canvas] in Hc, Hcv. subst cv0 c0.
    destruct (RenderInput.cursorStyle input); reflexivity.
  - destruct (RenderInput.cursorStyle input); reflexivity.
  - intros Ha.
    destruct (renderLines_opaque this0 cv (RenderInput.viewportCells input)
                (RenderInput.cols input) (repaintedRows DirtyState_FULL input)
                c Hc0 Hcv0 Ha) as (c2 & blocks2 & Hrun2 & _ & _ & Ha2).
    rewrite Hrun in Hrun2. injection Hrun2 as ->. exact Ha2.
Qed.

(** X11: an [attach] that gets no context throws, but keeps the canvas it
    was given and the context it had. On a renderer that had no context
    the drawing methods go on throwing the not-attached error while
    [getCanvas] returns the new canvas; on a renderer that was attached
    [render] goes on drawing, into the context of the canvas it held
    before. *)
Theorem attach_without_context (this : t) (cv : HTMLCanvasElement.t)
    (input : RenderInput.t) (cols rows : Z) :
  HTMLCanvasElement.context2d cv = None ->
  let this' := set_canvas (Some cv) this in
  attach cv this
  = (Throw (mkError "Failed to get 2D rendering context"), this')
  /\ ctx this' = ctx this
  /\ getCanvas this' = (Ok cv, this')
  /\ (ctx this = None ->
      render CellFlags DirtyState_FULL input this' = (Throw not_attached, this')
      /\ resize cols rows this' = (Throw not_attached, this')
      /\ clear this' = (Throw not_attached, this'))
  /\ (forall c, ctx this = Some c ->
      exists c',
        render CellFlags DirtyState_FULL input this'
        = (Ok tt, set_ctx (Some c') (prepared input this'))
        /\ exists l, Ctx2D.painted c' = (Ctx2D.painted c ++ l)%list).
Proof.
  intros Hnone. cbn zeta. split_and!.
  - unfold attach, bind, modify. by rewrite Hnone.
  - reflexivity.
  - reflexivity.
  - intros Hctx. destruct this as [cv0 c0 fs ff th dpr m sel hov gr].
    cbn [ctx] in Hctx. subst c0. done.
  - intros c Hc.
    destruct (render_run CellFlags DirtyState_FULL input
                (set_canvas (Some cv) this) c cv)
      as (c1 & blocks & c' & tail & _ & Hp & _ & _ & Hrun & Hp' & _);
      [by destruct this | by destruct this |].
    exists c'. split; [exact Hrun |]. eexists. by rewrite Hp', Hp, <- app_assoc.
Qed.


End Methods.

Section Construction.
Context (measureText : number -> string -> TextMetrics).


End Construction.

(** *** Concrete runs *)

Lemma render_keeps_opaque_witness :
  exists c',
    render sampleFlags sampleFull (frame [0; 0; ROW_DIRTY; 0; 0] 0 None 0 Num.zero)
      sampleRenderer
    = (Ok tt,
       set_ctx (Some c')
         (prepared (frame [0; 0; ROW_DIRTY; 0; 0] 0 None 0 Num.zero)
            sampleRenderer))
    /\ Ctx2D.globalAlpha c' = Num.one.
Proof.
  destruct (render_keeps_opaque sampleFlags sampleFull
              (frame [0; 0; ROW_DIRTY; 0; 0] 0 None 0 Num.zero) sampleRenderer
              freshContext sampleCanvas eq_refl eq_refl eq_refl)
    as (c' & _ & _ & Hrun & Ha & _).
  exists c'. split; [exact Hrun | exact Ha].
Defined.

Lemma cursor_painted_last_witness :
  exists c' before,
    render sampleFlags sampleFull (cursorFrame [0; 0; ROW_DIRTY; 0; 0])
      sampleRenderer
    = (Ok tt,
       set_ctx (Some c')
         (prepared (cursorFrame [0; 0; ROW_DIRTY; 0; 0]) sampleRenderer))
    /\ Ctx2D.painted c'
       = (before
          ++ [FillRect
                (Theme.rgbaToCss (TerminalTheme.cursor (Theme.resolveTheme None)))
                Num.one (Num.of_Z 9) (Num.of_Z 34) (Num.of_Z 2)
                (Num.of_Z 17)])%list.
Proof.
  destruct (cursor_painted_last sampleFlags sampleFull
              (cursorFrame [0; 0; ROW_DIRTY; 0; 0]) sampleRenderer
              freshContext sampleCanvas eq_refl eq_refl eq_refl eq_refl)
    as (c' & before & alpha & Hrun & Hp & Ha).
  exists c', before. split; [exact Hrun |].
  rewrite Hp, (Ha eq_refl). reflexivity.
Defined.

Lemma attach_without_context_witness :
  attach blindCanvas bareRenderer
  = (Throw (mkError "Failed to get 2D rendering context"),
     set_canvas (Some blindCanvas) bareRenderer)
  /\ getCanvas (set_canvas (Some blindCanvas) bareRenderer)
     = (Ok blindCanvas, set_canvas (Some blindCanvas) bareRenderer)
  /\ clear (set_canvas (Some blindCanvas) bareRenderer)
     = (Throw not_attached, set_canvas (Some blindCanvas) bareRenderer).
Proof.
  destruct (attach_without_context sampleFlags sampleFull bareRenderer
              blindCanvas (frame [] sampleFull None 0 Num.zero) 2 5 eq_refl)
    as (Hatt & _ & Hget & Hthrow & _).
  destruct (Hthrow eq_refl) as (_ & _ & Hclear).
  split_and!; [exact Hatt | exact Hget | exact Hclear].
Defined.


End RendererExtra.
